(** * Auto-navigation plugin: index synchronisation engine

    A shallow embedding of [src/main.js] (class [AutoNavigationPlugin]) and
    the properties stated about it.

    Conventions of the embedding.
    - JavaScript strings are [string]s whose characters are bytes; the
      whitespace removed by [trim] is the ASCII whitespace.
    - The settings object and the persisted data are finite maps from
      property names to string values ([gmap string string]).
    - The vault is the host's tree of [TAbstractFile]s.  A live [TFolder]
      or [TFile] object is referred to by its position in that tree, the
      list of names from the root; its [path] is those names joined by
      ["/"], and its fields are read from the current vault.
    - The host API ([getAbstractFileByPath], [create], [read], [modify])
      takes path strings, as in the source.  The host is an external
      collaborator: its failures are answered by an oracle.
    - A store operation takes effect when it is issued, and the code after
      an [await] runs at once.  What the deep-level calls that the source
      does not await return or throw is dropped.  Such a call is run to
      its end where it is started.  This is a simplification: in the
      source the deep step runs as far as its first [await], so that its
      first store operation is issued at the call, and the operations
      that it issues afterwards come after the next store operation of
      its caller, in an order that the host decides.  The steps of
      different folders work on different documents, so the log tells
      which operations a pass issues, on which paths and with what data,
      and the final tree is the one that the source reaches once the deep
      steps have finished; the order in which operations of different
      steps follow one another across such a call is not the source's,
      and no property below is stated on that order.  Passes that overlap
      in time are outside the embedding.
    - [localeCompare] is the host's collation and is a parameter of the
      engine; it takes the options object, in which the source sets
      [numeric: true].  [Array.prototype.sort] is a stable insertion sort,
      which is what any stable sort computes when the comparator is a
      total preorder. *)

From Stdlib Require Import String Ascii List ZArith Lia Bool Sorted.
From stdpp Require Import gmap strings.
Import ListNotations.

Local Open Scope string_scope.
Local Open Scope list_scope.

(** ** Strings *)

Module Str.

Definition nl : string := String "010"%char EmptyString.

(** [String.prototype.split] with a one-character separator. *)
Fixpoint split (sep : ascii) (s : string) : list string :=
  match s with
  | EmptyString => [EmptyString]
  | String c r =>
      if Ascii.eqb c sep then EmptyString :: split sep r
      else match split sep r with
           | h :: t => String c h :: t
           | [] => [String c EmptyString]
           end
  end.

(** [Array.prototype.join]. *)
Definition join (sep : string) (l : list string) : string :=
  String.concat sep l.

(** Tab, line feed, vertical tab, form feed, carriage return, space. *)
Definition isSpace (c : ascii) : bool :=
  match nat_of_ascii c with
  | 9 | 10 | 11 | 12 | 13 | 32 => true
  | _ => false
  end.

Fixpoint trimStart (s : string) : string :=
  match s with
  | EmptyString => EmptyString
  | String c r => if isSpace c then trimStart r else s
  end.

Fixpoint trimEnd (s : string) : string :=
  match s with
  | EmptyString => EmptyString
  | String c r =>
      match trimEnd r with
      | EmptyString => if isSpace c then EmptyString else String c EmptyString
      | r' => String c r'
      end
  end.

(** [String.prototype.trim]. *)
Definition trim (s : string) : string := trimEnd (trimStart s).

(** ["  ".repeat(level)]. *)
Fixpoint repeat (s : string) (n : nat) : string :=
  match n with
  | O => EmptyString
  | S n' => s +:+ repeat s n'
  end.

(** [Array.prototype.includes] on an array of strings. *)
Definition includes (l : list string) (x : string) : bool :=
  existsb (String.eqb x) l.

Definition noSlash (s : string) : bool :=
  forallb (fun c => negb (Ascii.eqb c "/"%char)) (list_ascii_of_string s).

End Str.

(** ** Settings (lines 6-9, 27-38) *)

Definition DEFAULT_SETTINGS : gmap string string :=
  <["excludedFolders" := "Templates, Attachments, .trash"]>
    (<["navigationFileName" := "Navigation"]> ∅).

(** [Object.assign(target, ...sources)]: later sources win; a [null]
    source is skipped. *)
Definition Object_assign (target : gmap string string)
    (sources : list (option (gmap string string))) : gmap string string :=
  fold_left (fun acc src => match src with
                            | Some o => o ∪ acc
                            | None => acc
                            end) sources target.

(** [loadData()] answers [None] when nothing has been persisted. *)
Definition loadSettings (loadData : option (gmap string string))
    : gmap string string :=
  Object_assign ∅ [Some DEFAULT_SETTINGS; loadData].

(** Property reads [this.settings.excludedFolders] and
    [this.settings.navigationFileName]. *)
Definition excludedFolders (settings : gmap string string) : string :=
  settings !!! "excludedFolders".

Definition navigationFileName (settings : gmap string string) : string :=
  settings !!! "navigationFileName".

Definition getExcludedFolders (settings : gmap string string) : list string :=
  List.filter (fun s => negb (String.eqb s ""))
    (map Str.trim (Str.split ","%char (excludedFolders settings))).

Example getExcludedFolders_default :
  getExcludedFolders (loadSettings None) = ["Templates"; "Attachments"; ".trash"].
Proof. vm_compute. reflexivity. Qed.

(** ** The vault tree *)

Unset Elimination Schemes.
Inductive TAbstractFile : Type :=
| TFile (name basename extension data : string)
| TFolder (name : string) (children : list TAbstractFile).
Set Elimination Schemes.

(** Induction over the tree: the children of a folder satisfy the property
    too. *)
Fixpoint TAbstractFile_ind (P : TAbstractFile -> Prop)
    (HFile : forall n b e d, P (TFile n b e d))
    (HFolder : forall n cs, Forall P cs -> P (TFolder n cs))
    (f : TAbstractFile) {struct f} : P f :=
  match f with
  | TFile n b e d => HFile n b e d
  | TFolder n cs =>
      HFolder n cs
        ((fix all (l : list TAbstractFile) : Forall P l :=
            match l with
            | [] => @Stdlib.Lists.List.Forall_nil _ P
            | c :: l' =>
                @Stdlib.Lists.List.Forall_cons _ P c l'
                  (TAbstractFile_ind P HFile HFolder c) (all l')
            end) cs)
  end.

Definition name (f : TAbstractFile) : string :=
  match f with TFile n _ _ _ => n | TFolder n _ => n end.

(** Only read on [TFile]s; a [TFolder] has no such field. *)
Definition basename (f : TAbstractFile) : string :=
  match f with TFile _ b _ _ => b | TFolder _ _ => "" end.

Definition extension (f : TAbstractFile) : string :=
  match f with TFile _ _ e _ => e | TFolder _ _ => "" end.

(** [c instanceof TFolder] and [c instanceof TFile]. *)
Definition isTFolder (f : TAbstractFile) : bool :=
  match f with TFolder _ _ => true | TFile _ _ _ _ => false end.

Definition isTFile (f : TAbstractFile) : bool := negb (isTFolder f).

(** A live object of the tree: the names from the root down to it.  The
    root folder is [[]]. *)
Definition Ref : Type := list string.

(** The [path] field: the root's children have their name as path. *)
Definition pathOf (r : Ref) : string := Str.join "/" r.

(** The [name] field of a live folder (the root's is empty). *)
Definition refName (r : Ref) : string := List.last r "".

(** First child with the given name. *)
Fixpoint findChild (n : string) (cs : list TAbstractFile) : option TAbstractFile :=
  match cs with
  | [] => None
  | c :: cs' => if String.eqb (name c) n then Some c else findChild n cs'
  end.

Fixpoint replaceChild (n : string) (new : TAbstractFile)
    (cs : list TAbstractFile) : list TAbstractFile :=
  match cs with
  | [] => []
  | c :: cs' =>
      if String.eqb (name c) n then new :: cs' else c :: replaceChild n new cs'
  end.

(** Resolution of a path, given as its segments, below a list of children. *)
Fixpoint lookupSegs (segs : list string) (cs : list TAbstractFile)
    : option TAbstractFile :=
  match segs with
  | [] => None
  | n :: rest =>
      match findChild n cs with
      | None => None
      | Some c =>
          match rest with
          | [] => Some c
          | _ :: _ =>
              match c with
              | TFolder _ cs' => lookupSegs rest cs'
              | TFile _ _ _ _ => None
              end
          end
      end
  end.

(** Apply [f] to the children of the parent of the addressed node. *)
Fixpoint updateAt (f : string -> list TAbstractFile -> option (list TAbstractFile))
    (segs : list string) (cs : list TAbstractFile)
    : option (list TAbstractFile) :=
  match segs with
  | [] => None
  | n :: rest =>
      match rest with
      | [] => f n cs
      | _ :: _ =>
          match findChild n cs with
          | Some (TFolder n' cs') =>
              match updateAt f rest cs' with
              | Some cs'' => Some (replaceChild n (TFolder n' cs'') cs)
              | None => None
              end
          | _ => None
          end
      end
  end.

(** The host derives [basename] and [extension] from the name of a file it
    creates: the name is cut at its last dot. *)
Fixpoint splitLast (sep : ascii) (s : string) : option (string * string) :=
  match s with
  | EmptyString => None
  | String c r =>
      match splitLast sep r with
      | Some (a, b) => Some (String c a, b)
      | None => if Ascii.eqb c sep then Some (EmptyString, r) else None
      end
  end.

Definition newFile (n data : string) : TAbstractFile :=
  match splitLast "."%char n with
  | Some (b, e) => TFile n b e data
  | None => TFile n n "" data
  end.

Definition createIn (data : string) (n : string) (cs : list TAbstractFile)
    : option (list TAbstractFile) :=
  match findChild n cs with
  | None => Some (cs ++ [newFile n data])
  | Some _ => None
  end.

Definition modifyIn (data : string) (n : string) (cs : list TAbstractFile)
    : option (list TAbstractFile) :=
  match findChild n cs with
  | Some (TFile nm b e _) => Some (replaceChild n (TFile nm b e data) cs)
  | _ => None
  end.

(** [folder.children] of the live folder [r]. *)
Definition childrenAt (r : Ref) (cs : list TAbstractFile)
    : option (list TAbstractFile) :=
  match r with
  | [] => Some cs
  | _ :: _ =>
      match lookupSegs r cs with
      | Some (TFolder _ cs') => Some cs'
      | _ => None
      end
  end.

(** The host splits a path string at its slashes. *)
Definition parsePath (path : string) : list string := Str.split "/"%char path.

(** ** The host: store operations, their failures, and the call log *)

Inductive Op : Type :=
| OpCreate (path data : string)
| OpRead (path : string)
| OpModify (path data : string).

Definition opPath (o : Op) : string :=
  match o with OpCreate p _ => p | OpRead p => p | OpModify p _ => p end.

Definition isWrite (o : Op) : bool :=
  match o with OpRead _ => false | _ => true end.

(** What the environment does to a store operation: nothing, an I/O or
    permission failure, or (for [create]) a concurrent writer that has just
    created the document with some content. *)
Inductive HostEvent : Type :=
| Normal
| IOError
| Raced (other : string).

Inductive Error : Type :=
| EIO
| EAlreadyExists
| ENoSuchFile.

Record Call : Type := mkCall { callOp : Op; callOk : bool }.

Record Vault : Type := mkVault {
  rootChildren : list TAbstractFile;
  calls : list Call
}.

Inductive Result (A : Type) : Type :=
| Ok (a : A)
| Throw (e : Error).
Arguments Ok {A} a.
Arguments Throw {A} e.

Definition isOk {A} (r : Result A) : bool :=
  match r with Ok _ => true | Throw _ => false end.

(** Code that runs against the vault and may throw. *)
Definition M (A : Type) : Type := Vault -> Vault * Result A.

Definition ret {A} (a : A) : M A := fun v => (v, Ok a).

Definition bind {A B} (m : M A) (k : A -> M B) : M B :=
  fun v => match m v with
           | (v', Ok a) => k a v'
           | (v', Throw e) => (v', Throw e)
           end.

(** [try { m } catch (e) { h }]. *)
Definition tryCatch {A} (m : M A) (h : Error -> M A) : M A :=
  fun v => match m v with
           | (v', Ok a) => (v', Ok a)
           | (v', Throw e) => h e v'
           end.

(** A call to an [async] function whose promise is dropped: the callee
    runs, its outcome (fulfilled or rejected) reaches nobody.  The callee
    is run to its end at the call; the source suspends it at its first
    [await] and resumes it later, so the operations that it issues after
    that [await] are logged here earlier than the host would see them. *)
Definition floating (m : M unit) : M unit :=
  fun v => (fst (m v), Ok tt).

Declare Scope vault_scope.
Delimit Scope vault_scope with vault.
Notation "x <- m ;; k" := (bind m (fun x => k))
  (at level 100, m at next level, right associativity) : vault_scope.
Notation "m ;;; k" := (bind m (fun _ => k))
  (at level 100, right associativity) : vault_scope.

Fixpoint forEachM {A S} (l : list A) (acc : S) (body : S -> A -> M S) : M S :=
  match l with
  | [] => ret acc
  | x :: l' => bind (body acc x) (fun acc' => forEachM l' acc' body)
  end.

Definition logCall (o : Op) (ok : bool) (cs : list TAbstractFile) (v : Vault) : Vault :=
  mkVault cs (calls v ++ [mkCall o ok]).

Section Host.

(** The environment's answer to the [n]-th store operation. *)
Variable host : nat -> Op -> HostEvent.

(** Modelled from the spec: the host's [vault.getAbstractFileByPath], which
    the source calls and does not define.  It is synchronous and answers
    the node at the path, or nothing ([null]). *)
Definition getAbstractFileByPath (path : string) : M (option TAbstractFile) :=
  fun v => (v, Ok (lookupSegs (parsePath path) (rootChildren v))).

(** Modelled from the spec: "Enumerate a Container's direct children, each
    tagged as Container or Document with a textual
    name/base-name/extension"; the read of [folder.children] on the live
    folder [r], and of [getRoot().children] for [r = []]. *)
Definition getChildren (r : Ref) : M (option (list TAbstractFile)) :=
  fun v => (v, Ok (childrenAt r (rootChildren v))).

(** Modelled from the spec: the host's [vault.create], "Create a new
    Document at a path with given content; fails (distinguishably) if a
    concurrent creation raced it".  It also fails when a node already sits
    at the path or when the folder that should hold it is missing. *)
Definition create (path data : string) : M unit :=
  fun v =>
    let o := OpCreate path data in
    match host (length (calls v)) o with
    | IOError => (logCall o false (rootChildren v) v, Throw EIO)
    | Raced other =>
        match updateAt (createIn other) (parsePath path) (rootChildren v) with
        | Some cs => (logCall o false cs v, Throw EAlreadyExists)
        | None => (logCall o false (rootChildren v) v, Throw EAlreadyExists)
        end
    | Normal =>
        match updateAt (createIn data) (parsePath path) (rootChildren v) with
        | Some cs => (logCall o true cs v, Ok tt)
        | None => (logCall o false (rootChildren v) v, Throw EAlreadyExists)
        end
    end.

(** Modelled from the spec: the host's [vault.read], "Fetch full text
    content of a Document by path". *)
Definition read (path : string) : M string :=
  fun v =>
    let o := OpRead path in
    match host (length (calls v)) o with
    | IOError => (logCall o false (rootChildren v) v, Throw EIO)
    | _ =>
        match lookupSegs (parsePath path) (rootChildren v) with
        | Some (TFile _ _ _ data) => (logCall o true (rootChildren v) v, Ok data)
        | _ => (logCall o false (rootChildren v) v, Throw ENoSuchFile)
        end
    end.

(** Modelled from the spec: the host's [vault.modify], "Overwrite a
    Document's content at a path". *)
Definition modify (path data : string) : M unit :=
  fun v =>
    let o := OpModify path data in
    match host (length (calls v)) o with
    | IOError => (logCall o false (rootChildren v) v, Throw EIO)
    | _ =>
        match updateAt (modifyIn data) (parsePath path) (rootChildren v) with
        | Some cs => (logCall o true cs v, Ok tt)
        | None => (logCall o false (rootChildren v) v, Throw ENoSuchFile)
        end
    end.

End Host.

(** ** The collation of the host *)

(** The options object of [String.prototype.localeCompare]; [numeric] is
    the one option that the source sets. *)
Record CollatorOptions : Type := mkCollatorOptions { numeric : bool }.

(** A reference collation. *)
Module Collation.

Definition isDigit (c : ascii) : bool :=
  (48 <=? N_of_ascii c)%N && (N_of_ascii c <=? 57)%N.

Definition lower (c : ascii) : N :=
  let n := N_of_ascii c in
  if (65 <=? n)%N && (n <=? 90)%N then (n + 32)%N else n.

Definition flush (num : option N) : list N :=
  match num with
  | Some n => [48%N; n]
  | None => []
  end.

(** A name as the sequence that is compared: letters without their case,
    a run of digits as one number. *)
Fixpoint collationKey (s : string) (num : option N) : list N :=
  match s with
  | EmptyString => flush num
  | String c r =>
      if isDigit c
      then collationKey r
             (Some (10 * default 0%N num + (N_of_ascii c - 48))%N)
      else flush num ++ lower c :: collationKey r None
  end.

Fixpoint lexCompare (l1 l2 : list N) : comparison :=
  match l1, l2 with
  | [], [] => Eq
  | [], _ :: _ => Lt
  | _ :: _, [] => Gt
  | x :: l1', y :: l2' =>
      match N.compare x y with
      | Eq => lexCompare l1' l2'
      | c => c
      end
  end.

(** Modelled from the spec: the comparison of the host's [localeCompare]
    under [numeric: true], which the source calls and does not define.
    The spec words it as a "case-insensitive, numeric-aware comparison on
    name (so "Chapter 2" sorts before "Chapter 10")". *)
Definition numericCompare (a b : string) : Z :=
  match lexCompare (collationKey a None) (collationKey b None) with
  | Lt => (-1)%Z
  | Eq => 0%Z
  | Gt => 1%Z
  end.

(** A name as it is compared without the [numeric] option: letters
    without their case, every digit a character of its own. *)
Definition plainKey (s : string) : list N :=
  map lower (list_ascii_of_string s).

Definition plainCompare (a b : string) : Z :=
  match lexCompare (plainKey a) (plainKey b) with
  | Lt => (-1)%Z
  | Eq => 0%Z
  | Gt => 1%Z
  end.

(** Modelled from the spec: the host's [localeCompare] with the locale
    left undefined, under the options that it is given. *)
Definition localeCompare (options : CollatorOptions) (a b : string) : Z :=
  if numeric options then numericCompare a b else plainCompare a b.

End Collation.

(** ** The engine (lines 36-177) *)

Section Engine.

Variable host : nat -> Op -> HostEvent.

(** [a.localeCompare(b, undefined, options)], the host's collation with the
    locale left undefined: negative, zero or positive. *)
Variable localeCompare : CollatorOptions -> string -> string -> Z.

(** [this.settings]. *)
Variable settings : gmap string string.

(** [a.localeCompare(b, undefined, { numeric: true })], the comparison of
    the five sorts of the source (lines 59, 91, 95, 164 and 165). *)
Definition compareNames (a b : string) : Z :=
  localeCompare {| numeric := true |} a b.

(** [Array.prototype.sort] with the comparator
    [(a, b) => key(a).localeCompare(key(b), undefined, { numeric: true })]:
    an element is inserted among the sorted later elements, before the
    first one that it does not come after, so that elements that compare
    equal keep their order. *)
Fixpoint insertBy {A} (key : A -> string) (x : A) (l : list A) : list A :=
  match l with
  | [] => [x]
  | y :: l' =>
      if (0 <? compareNames (key x) (key y))%Z
      then y :: insertBy key x l'
      else x :: l
  end.

Fixpoint sortBy {A} (key : A -> string) (l : list A) : list A :=
  match l with
  | [] => []
  | x :: l' => insertBy key x (sortBy key l')
  end.

Definition notExcluded (c : TAbstractFile) : bool :=
  negb (Str.includes (getExcludedFolders settings) (name c)).

(** [c instanceof TFolder && !excluded.includes(c.name)] *)
Definition keptFolder (c : TAbstractFile) : bool :=
  isTFolder c && notExcluded c.

(** [c instanceof TFile && c.extension === 'md' && c.name !== navName] *)
Definition keptFile (navName : string) (c : TAbstractFile) : bool :=
  isTFile c && String.eqb (extension c) "md" && negb (String.eqb (name c) navName).

(** The lines 66-78, 108-120 and 134-146 are the same statements, on
    [file], the target path and the expected content. *)
Definition reconcile (file : option TAbstractFile) (navPath md : string)
    : M unit :=
  match file with
  | None =>
      tryCatch (create host navPath md)
        (fun _ =>
           (file' <- getAbstractFileByPath navPath ;;
            match file' with
            | Some _ => modify host navPath md
            | None => ret tt
            end)%vault)
  | Some _ =>
      (current <- read host navPath ;;
       if String.eqb (Str.trim current) (Str.trim md) then ret tt
       else modify host navPath md)%vault
  end.

(** *** Root (lines 52-79) *)

(** [folders], lines 57-59. *)
Definition rootFolders (children : list TAbstractFile) : list TAbstractFile :=
  sortBy name (List.filter keptFolder children).

(** [`- [[${f.path}/${f.name}|${f.name}]]\n`] for a child [f] of the
    live folder [parent]. *)
Definition folderLink (parent : Ref) (f : TAbstractFile) : string :=
  "- [[" +:+ pathOf (parent ++ [name f]) +:+ "/" +:+ name f +:+ "|" +:+ name f
    +:+ "]]" +:+ Str.nl.

(** [md], lines 61-64. *)
Definition rootMd (children : list TAbstractFile) : string :=
  fold_left (fun md f => md +:+ folderLink [] f) (rootFolders children)
    ("#" +:+ navigationFileName settings +:+ Str.nl +:+ Str.nl).

Definition updateOrCreateRootNavigation : M unit :=
  (let navName := navigationFileName settings +:+ ".md" in
   file <- getAbstractFileByPath navName ;;
   children <- getChildren [] ;;
   let md := rootMd (default [] children) in
   reconcile file navName md)%vault.

(** *** Deep levels (lines 123-177) *)

(** [`${indent}- **${sub.name}**`] and [`${indent}- [[${f.basename}]]`] *)
Definition subLine (level : nat) (sub : TAbstractFile) : string :=
  Str.repeat "  " level +:+ "- **" +:+ name sub +:+ "**".

Definition fileLine (level : nat) (f : TAbstractFile) : string :=
  Str.repeat "  " level +:+ "- [[" +:+ basename f +:+ "]]".

(** The recursive call on each child is tabulated next to the child
    before the children are filtered and sorted, so that the recursion is
    structural; [buildRecursiveContent_eq] below is the function as the
    source writes it. *)
Fixpoint buildRecursiveContent (folder : TAbstractFile) (excludeName : string)
    (level : nat) {struct folder} : list string :=
  match folder with
  | TFile _ _ _ _ => []
  | TFolder _ children =>
      let tabulated :=
        (fix each (cs : list TAbstractFile) : list (TAbstractFile * list string) :=
           match cs with
           | [] => []
           | c :: cs' =>
               (c, buildRecursiveContent c excludeName (S level)) :: each cs'
           end) children in
      let subfolders :=
        sortBy (fun p => name (fst p))
          (List.filter (fun p => keptFolder (fst p)) tabulated) in
      let files :=
        sortBy basename (List.filter (keptFile excludeName) children) in
      flat_map (fun p => subLine level (fst p) :: snd p) subfolders
        ++ map (fileLine level) files
  end.

(** [newContent], line 132. *)
Definition level3Content (folderName : string) (lines : list string) : string :=
  "#Navigation for " +:+ folderName +:+ Str.nl +:+ Str.nl
    +:+ Str.join Str.nl lines +:+ Str.nl.

Definition updateOrCreateLevel3Navigation (folder : Ref) : M unit :=
  (let excluded := getExcludedFolders settings in
   children <- getChildren folder ;;
   match children with
   | None => ret tt
   | Some children =>
       if Str.includes excluded (refName folder) then ret tt
       else
         let navName := refName folder +:+ ".md" in
         let navPath := pathOf folder +:+ "/" +:+ navName in
         file <- getAbstractFileByPath navPath ;;
         let lines :=
           buildRecursiveContent (TFolder (refName folder) children) navName 0 in
         let newContent := level3Content (refName folder) lines in
         reconcile file navPath newContent
   end)%vault.

(** *** First level (lines 81-121) *)

(** [subFolders], lines 89-91, and [mdFiles], lines 93-95. *)
Definition subFolders (children : list TAbstractFile) : list TAbstractFile :=
  sortBy name (List.filter keptFolder children).

Definition mdFiles (navName : string) (children : list TAbstractFile)
    : list TAbstractFile :=
  sortBy basename (List.filter (keptFile navName) children).

(** [`- [[${f.basename}]]\n`] *)
Definition fileLink (f : TAbstractFile) : string :=
  "- [[" +:+ basename f +:+ "]]" +:+ Str.nl.

(** The body of the loop of lines 99-102; the call of line 101 is not
    awaited (see [floating]). *)
Definition visitSub (folder : Ref) (md : string) (f : TAbstractFile) : M string :=
  (let md := md +:+ folderLink folder f in
   floating (updateOrCreateLevel3Navigation (folder ++ [name f])) ;;;
   ret md)%vault.

(** The guard of line 83 lets through the children of the root only: the
    live folders [[folderName]]. *)
Definition updateOrCreateLevel2Navigation (folder : Ref) : M unit :=
  (let excluded := getExcludedFolders settings in
   match folder with
   | [folderName] =>
       if Str.includes excluded folderName then ret tt
       else
         let navName := folderName +:+ ".md" in
         let navPath := pathOf folder +:+ "/" +:+ navName in
         file <- getAbstractFileByPath navPath ;;
         children <- getChildren folder ;;
         let children := default [] children in
         let md := "#Navigation for " +:+ folderName +:+ Str.nl +:+ Str.nl in
         md <- forEachM (subFolders children) md (visitSub folder) ;;
         let md := fold_left (fun md f => md +:+ fileLink f)
                     (mdFiles navName children) md in
         reconcile file navPath md
   | _ => ret tt
   end)%vault.

(** *** The pass (lines 40-50) *)

(** The body of the loop, lines 46-48. *)
Definition visitChild (excluded : list string) (child : TAbstractFile) : M unit :=
  if isTFolder child && negb (Str.includes excluded (name child))
  then updateOrCreateLevel2Navigation [name child]
  else ret tt.

Definition initializeStructure : M unit :=
  (updateOrCreateRootNavigation ;;;
   children <- getChildren [] ;;
   let excluded := getExcludedFolders settings in
   forEachM (default [] children) tt (fun _ child => visitChild excluded child))%vault.

(** ** Vocabulary of the properties *)

(** What the sort needs of the collation: of two names one comes first,
    and coming first is transitive. *)
Definition totalPreorder : Prop :=
  (forall a b, (0 < compareNames a b)%Z -> (compareNames b a <= 0)%Z)
  /\ (forall a b c, (compareNames a b <= 0)%Z -> (compareNames b c <= 0)%Z ->
                    (compareNames a c <= 0)%Z).

Definition byKey {A} (key : A -> string) (x y : A) : Prop :=
  (compareNames (key x) (key y) <= 0)%Z.

(** An edit of the children of one folder that creates or rewrites the
    file of a given name, with content [d], and leaves every other name
    alone. *)
Definition fileLocal (d : string)
    (f : string -> list TAbstractFile -> option (list TAbstractFile)) : Prop :=
  forall n cs cs',
    f n cs = Some cs' ->
    (exists nm b e, findChild n cs' = Some (TFile nm b e d))
    /\ (findChild n cs = None
        \/ exists nm b e d, findChild n cs = Some (TFile nm b e d))
    /\ (forall m, m <> n -> findChild m cs' = findChild m cs).

(** What sits at a path: nothing, a folder, or a file with its content. *)
Definition kindOf (o : option TAbstractFile) : option (option string) :=
  match o with
  | None => None
  | Some (TFolder _ _) => Some None
  | Some (TFile _ _ _ d) => Some (Some d)
  end.

Definition strictPrefix (r p : list string) : Prop :=
  exists x rest, p = r ++ x :: rest.

(** The children without the files named [ex]. *)
Definition dropNamed (ex : string) (cs : list TAbstractFile) : list TAbstractFile :=
  List.filter (fun c => negb (isTFile c && String.eqb (name c) ex)) cs.

(** A child without its content: a folder without its children, a file
    without its data. *)
Definition skel (c : TAbstractFile) : TAbstractFile :=
  match c with
  | TFolder n _ => TFolder n []
  | TFile n b e _ => TFile n b e ""
  end.

Definition view (ex : string) (cs : list TAbstractFile) : list TAbstractFile :=
  map skel (dropNamed ex cs).

Definition folderNames (cs : list TAbstractFile) : list string :=
  map name (List.filter isTFolder cs).

(** An edit that only creates or rewrites files of the given name. *)
Definition editsFile
    (f : string -> list TAbstractFile -> option (list TAbstractFile)) : Prop :=
  forall n cs cs', f n cs = Some cs' -> dropNamed n cs' = dropNamed n cs.

(** Well-formed vault: no folder name holds a slash. *)
Fixpoint wfNode (c : TAbstractFile) : bool :=
  match c with
  | TFile _ _ _ _ => true
  | TFolder n cs => Str.noSlash n && forallb wfNode cs
  end.

Definition wfTree (cs : list TAbstractFile) : bool := forallb wfNode cs.

(** The names of the folders that a listing keeps. *)
Definition keptNames (cs : list TAbstractFile) : list string :=
  List.filter (fun n => negb (Str.includes (getExcludedFolders settings) n))
    (folderNames cs).

Definition mdBasenames (ex : string) (cs : list TAbstractFile) : list string :=
  map basename (List.filter (keptFile ex) cs).

(** [md] of a first-level folder, lines 97-106. *)
Definition level2Md (folder : Ref) (folderName navName : string)
    (children : list TAbstractFile) : string :=
  fold_left (fun md f => md +:+ fileLink f) (mdFiles navName children)
    (fold_left (fun md f => md +:+ folderLink folder f) (subFolders children)
       ("#Navigation for " +:+ folderName +:+ Str.nl +:+ Str.nl)).

(** The content of the file at a path, if a file sits there. *)
Definition fileAt (p : list string) (cs : list TAbstractFile) : option string :=
  match lookupSegs p cs with
  | Some (TFile _ _ _ d) => Some d
  | _ => None
  end.

(** The document at [p] already holds [md], up to surrounding whitespace. *)
Definition settled (cs : list TAbstractFile) (p : list string) (md : string) : Prop :=
  exists d, fileAt p cs = Some d /\ Str.trim d = Str.trim md.

(** One store operation at most, on the path [p]. *)
Inductive touched (p : list string) (cs cs' : list TAbstractFile) : Prop :=
| touched_none : cs' = cs -> touched p cs cs'
| touched_write d f :
    fileLocal d f -> editsFile f -> updateAt f p cs = Some cs' ->
    touched p cs cs'.

(** Store operations on paths that satisfy [P], one after the other. *)
Inductive touchedMany (P : list string -> Prop)
    : list TAbstractFile -> list TAbstractFile -> Prop :=
| touchedMany_refl cs : touchedMany P cs cs
| touchedMany_step cs cs1 cs2 p :
    P p -> touched p cs cs1 -> touchedMany P cs1 cs2 -> touchedMany P cs cs2.

(** The log only grows. *)
Definition extends (v v' : Vault) : Prop := exists l, calls v' = calls v ++ l.

(** Every operation issued between [v] and [v'] succeeded. *)
Definition okSince (v v' : Vault) : Prop :=
  exists l, calls v' = calls v ++ l /\ Forall (fun c => callOk c = true) l.

(** Nothing but reads between [v] and [v'], and the same tree. *)
Definition readsOnly (v v' : Vault) : Prop :=
  rootChildren v' = rootChildren v
  /\ exists l, calls v' = calls v ++ l
               /\ Forall (fun c => isWrite (callOp c) = false) l.

(** The name and the resolved path of the index document of the live
    folder [r]. *)
Definition indexName (r : Ref) : string := refName r +:+ ".md".

Definition indexPath (r : Ref) : list string := r ++ [indexName r].

(** The content expected in the index document of a deep container whose
    children are [cs]. *)
Definition deepContent (r : Ref) (cs : list TAbstractFile) : string :=
  level3Content (refName r)
    (buildRecursiveContent (TFolder (refName r) cs) (indexName r) 0).

(** The index document of the deep container [r] is there and up to date. *)
Definition deepSettled (t : list TAbstractFile) (r : Ref) : Prop :=
  forall cs, childrenAt r t = Some cs -> settled t (indexPath r) (deepContent r cs).

(** The index documents written for the sub-folders in [l] of [a]. *)
Definition subIndexOf (a : string) (l : list TAbstractFile) (p : list string) : Prop :=
  exists f, In f l /\ p = indexPath [a; name f].

(** The paths of the index documents below the first-level folder [a]: its
    own and those of its sub-folders. *)
Definition under (a : string) (p : list string) : Prop :=
  p = indexPath [a] \/ exists b, p = indexPath [a; b].

(** The index documents of the first-level container [a] and of its kept
    sub-folders are there and up to date. *)
Definition topSettled (t : list TAbstractFile) (a : string) : Prop :=
  settled t (indexPath [a])
    (level2Md [a] a (indexName [a]) (default [] (childrenAt [a] t)))
  /\ forall b, In b (keptNames (default [] (childrenAt [a] t))) ->
               deepSettled t [a; b].

(** The path of the root index document, as the host resolves it. *)
Definition rootPath : list string :=
  parsePath (navigationFileName settings +:+ ".md").

(** The paths of the index documents of first-level and second-level
    folders. *)
Definition isIndexPath (p : list string) : Prop := exists a, under a p.

Definition isIndexPathb (p : list string) : bool :=
  match p with
  | [a; n] => String.eqb n (a +:+ ".md")
  | [_; b; n] => String.eqb n (b +:+ ".md")
  | _ => false
  end.

(** Every index document that a pass maintains is there and up to date. *)
Definition passSettled (t : list TAbstractFile) : Prop :=
  settled t rootPath (rootMd t)
  /\ forall a, In a (keptNames t) -> topSettled t a.

(** The index documents written below the kept folders of [l]. *)
Definition visitedUnder (l : list TAbstractFile) (p : list string) : Prop :=
  exists c, In c l /\ keptFolder c = true /\ under (name c) p.

(** The tree without the children that [keep] rejects, at every depth. *)
Fixpoint treeFilter (keep : TAbstractFile -> bool) (c : TAbstractFile)
    : TAbstractFile :=
  match c with
  | TFile _ _ _ _ => c
  | TFolder n cs =>
      TFolder n
        ((fix each (l : list TAbstractFile) : list TAbstractFile :=
            match l with
            | [] => []
            | x :: l' =>
                if keep x then treeFilter keep x :: each l' else each l'
            end) cs)
  end.

Definition listFilter (keep : TAbstractFile -> bool) (cs : list TAbstractFile)
    : list TAbstractFile :=
  map (treeFilter keep) (List.filter keep cs).

(** The children that are not excluded folders. *)
Definition notExcludedFolder (c : TAbstractFile) : bool :=
  negb (isTFolder c && Str.includes (getExcludedFolders settings) (name c)).

(** The children that are not files named [ex]. *)
Definition notNamed (ex : string) (c : TAbstractFile) : bool :=
  negb (isTFile c && String.eqb (name c) ex).

(** Every operation issued between [v] and [v'] is on a path of [P]. *)
Definition callsOn (P : string -> Prop) (v v' : Vault) : Prop :=
  exists l, calls v' = calls v ++ l /\ Forall (fun c => P (opPath (callOp c))) l.

(** The path string of the index document of the live folder [r]. *)
Definition indexPathString (r : Ref) : string :=
  pathOf r +:+ "/" +:+ indexName r.

(** *** Vocabulary of the pass *)

(** The index documents that the step of the first-level folder [a] works
    on, in the tree [t]: its own, and those of the sub-folders of [a] in
    [t] that are not excluded. *)
Definition underTarget (t : list TAbstractFile) (a s : string) : Prop :=
  s = indexPathString [a]
  \/ exists b,
       In b (keptNames (default [] (childrenAt [a] t)))
       /\ s = indexPathString [a; b].

(** The targets of a pass on the tree [t]: the root index document, and
    what the steps of the first-level folders of [t] that are not excluded
    work on. *)
Definition passTarget (t : list TAbstractFile) (s : string) : Prop :=
  s = navigationFileName settings +:+ ".md"
  \/ exists a, In a (keptNames t) /\ underTarget t a s.

(** The resolved paths of the targets of a pass on [t]: the path of the
    root index document, [a/a.md] for a first-level folder [a] of [t] that
    is not excluded, and [a/b/b.md] for a sub-folder [b] of such an [a]
    that is not excluded. *)
Definition targetSegs (t : list TAbstractFile) (q : list string) : Prop :=
  q = rootPath
  \/ (exists a, In a (keptNames t) /\ q = indexPath [a])
  \/ (exists a b,
        In a (keptNames t)
        /\ In b (keptNames (default [] (childrenAt [a] t)))
        /\ q = indexPath [a; b]).

(** The targets whose steps the pass awaits: the root index document and
    the index documents of the first-level folders of [t] that are not
    excluded. *)
Definition awaitedTarget (t : list TAbstractFile) (s : string) : Prop :=
  s = navigationFileName settings +:+ ".md"
  \/ exists a, In a (keptNames t) /\ s = indexPathString [a].

(** What the steps of the first-level folders of [l] work on. *)
Definition visitedTarget (t l : list TAbstractFile) (s : string) : Prop :=
  exists c, In c l /\ keptFolder c = true /\ underTarget t (name c) s.

(** Between [v] and [v'] the store operations are on paths of [P] only, in
    the log and on the tree. *)
Definition ran (P : string -> Prop) (v v' : Vault) : Prop :=
  callsOn P v v'
  /\ touchedMany (fun q => exists s, P s /\ q = parsePath s)
       (rootChildren v) (rootChildren v').

(** Between [v] and [v'] a read or an overwrite of a path of [P] failed. *)
Definition failedOn (P : string -> Prop) (v v' : Vault) : Prop :=
  exists l,
    calls v' = calls v ++ l
    /\ Exists (fun c => callOk c = false
                        /\ P (opPath (callOp c))
                        /\ match callOp c with
                           | OpCreate _ _ => False
                           | _ => True
                           end) l.

(** The same folders: at every position the same names of sub-folders, in
    the same order. *)
Definition sameFolders (t t' : list TAbstractFile) : Prop :=
  forall r, option_map folderNames (childrenAt r t')
            = option_map folderNames (childrenAt r t).

(** Since [v] no store operation was on the resolved path [q], and what
    sits at [q] is what sat there. *)
Definition untouched (q : list string) (v v' : Vault) : Prop :=
  (exists l, calls v' = calls v ++ l
             /\ Forall (fun c => parsePath (opPath (callOp c)) <> q) l)
  /\ kindOf (lookupSegs q (rootChildren v')) = kindOf (lookupSegs q (rootChildren v)).

(** The reconcile block of the root step (lines 66-78) on the text [md]. *)
Definition rootBlock (v : Vault) (md : string) : Vault * Result unit :=
  reconcile (lookupSegs rootPath (rootChildren v))
    (navigationFileName settings +:+ ".md") md v.

(** The state in which the step of the first-level folder [a], started in
    [v], reaches its reconcile block: the steps of its sub-folders have
    been started (lines 99-102). *)
Definition afterSubFolders (a : string) (v : Vault) : Vault :=
  fst (forEachM (subFolders (default [] (childrenAt [a] (rootChildren v))))
         ("#Navigation for " +:+ a +:+ Str.nl +:+ Str.nl) (visitSub [a]) v).

(** The reconcile block of the step of the first-level folder [a] (lines
    108-120) on the text [md]; the target was looked up when the step
    started, in [v] (line 87). *)
Definition firstLevelBlock (a : string) (v : Vault) (md : string)
    : Vault * Result unit :=
  reconcile (lookupSegs (parsePath (indexPathString [a])) (rootChildren v))
    (indexPathString [a]) md (afterSubFolders a v).

(** The reconcile block of the step of the deep folder [r] (lines 134-146)
    on the text [md]. *)
Definition deepBlock (r : Ref) (v : Vault) (md : string) : Vault * Result unit :=
  reconcile (lookupSegs (parsePath (indexPathString r)) (rootChildren v))
    (indexPathString r) md v.

(** The reconcile block on [navPath], started in [v], meets a read or an
    overwrite that fails with [e]. *)
Definition readOrOverwriteFails (file : option TAbstractFile)
    (navPath md : string) (v : Vault) (e : Error) : Prop :=
  match file with
  | Some _ =>
      (exists v1, read host navPath v = (v1, Throw e))
      \/ (exists v1 current v2,
            read host navPath v = (v1, Ok current)
            /\ Str.trim current <> Str.trim md
            /\ modify host navPath md v1 = (v2, Throw e))
  | None =>
      exists v1 e0 f v2,
        create host navPath md v = (v1, Throw e0)
        /\ lookupSegs (parsePath navPath) (rootChildren v1) = Some f
        /\ modify host navPath md v1 = (v2, Throw e)
  end.

(** The lines that a listing writes for the entries of [l], one after the
    other. *)
Definition linesOf {A} (g : A -> string) (l : list A) : string :=
  fold_right (fun x rest => g x +:+ rest) "" l.

(** [x] comes before [y] in [l]. *)
Definition precedes {A} (x y : A) (l : list A) : Prop :=
  exists l1 l2 l3, l = l1 ++ x :: l2 ++ y :: l3.

(** *** Vocabulary of the further properties *)

(** A string of whitespace only. *)
Definition allSpace (s : string) : bool :=
  forallb Str.isSpace (list_ascii_of_string s).

(** A string that holds no comma. *)
Definition noComma (s : string) : bool :=
  forallb (fun c => negb (Ascii.eqb c ","%char)) (list_ascii_of_string s).

(** A string that does not begin with whitespace. *)
Definition startsClean (s : string) : bool :=
  match s with
  | EmptyString => true
  | String c _ => negb (Str.isSpace c)
  end.

(** The data that a store operation writes, if it writes. *)
Definition writtenData (o : Op) : option string :=
  match o with
  | OpCreate _ d => Some d
  | OpModify _ d => Some d
  | OpRead _ => None
  end.

(** The same tree with the content of every document rewritten by [g]. *)
Fixpoint mapData (g : string -> string) (c : TAbstractFile) : TAbstractFile :=
  match c with
  | TFile n b e d => TFile n b e (g d)
  | TFolder n cs => TFolder n (map (mapData g) cs)
  end.

(** The children that a listing can show: folders and markdown documents. *)
Definition listable (c : TAbstractFile) : bool :=
  isTFolder c || String.eqb (extension c) "md".

(** No two different names of [l] collate as equal. *)
Definition tieFree (l : list string) : Prop :=
  forall a b, In a l -> In b l ->
              (compareNames a b <= 0)%Z -> (compareNames b a <= 0)%Z -> a = b.

(** The target of the link of lines 63 and 100, [${f.path}/${f.name}]. *)
Definition folderTarget (parent : Ref) (f : TAbstractFile) : string :=
  pathOf (parent ++ [name f]) +:+ "/" +:+ name f.

(** * Properties *)

(** ** Properties of the engine *)

(** *** Sorting *)

Lemma insertBy_map {A B} (g : A -> B) (key : B -> string) (x : A) (l : list A) :
  map g (insertBy (fun a => key (g a)) x l) = insertBy key (g x) (map g l).
Proof.
  induction l as [|y l IH]; simpl; [reflexivity|].
  destruct (0 <? compareNames (key (g x)) (key (g y)))%Z; simpl; congruence.
Qed.

Lemma sortBy_map {A B} (g : A -> B) (key : B -> string) (l : list A) :
  map g (sortBy (fun a => key (g a)) l) = sortBy key (map g l).
Proof.
  induction l as [|x l IH]; simpl; [reflexivity|].
  rewrite insertBy_map, IH. reflexivity.
Qed.

Lemma filter_map_comm {A B} (g : A -> B) (p : B -> bool) (l : list A) :
  List.filter p (map g l) = map g (List.filter (fun a => p (g a)) l).
Proof.
  induction l as [|x l IH]; simpl; [reflexivity|].
  destruct (p (g x)); simpl; congruence.
Qed.

Lemma insertBy_In {A} (key : A -> string) (x y : A) (l : list A) :
  In y (insertBy key x l) <-> y = x \/ In y l.
Proof.
  induction l as [|z l IH]; simpl.
  - intuition.
  - destruct (0 <? compareNames (key x) (key z))%Z; simpl; rewrite ?IH; intuition.
Qed.

Lemma sortBy_In {A} (key : A -> string) (y : A) (l : list A) :
  In y (sortBy key l) <-> In y l.
Proof.
  induction l as [|x l IH]; simpl; [reflexivity|].
  rewrite insertBy_In, IH. intuition.
Qed.

Lemma sortBy_Forall {A} (P : A -> Prop) (key : A -> string) (l : list A) :
  Forall P l -> Forall P (sortBy key l).
Proof.
  rewrite !List.Forall_forall. intros H x Hx. apply H, (sortBy_In key), Hx.
Qed.

(** *** The recursive builder as the source writes it (lines 149-177) *)

Lemma buildRecursiveContent_eq (n : string) (children : list TAbstractFile)
    (excludeName : string) (level : nat) :
  buildRecursiveContent (TFolder n children) excludeName level =
    flat_map (fun sub =>
                subLine level sub :: buildRecursiveContent sub excludeName (S level))
             (sortBy name (List.filter keptFolder children))
    ++ map (fileLine level)
         (sortBy basename (List.filter (keptFile excludeName) children)).
Proof.
  simpl. f_equal.
  set (tab := fun c => (c, buildRecursiveContent c excludeName (S level))).
  match goal with
  | |- context [List.filter _ (?F children)] =>
      assert (Htab : F children = map tab children)
        by (clear; induction children as [|c cs IH]; simpl; [|rewrite IH]; reflexivity);
      rewrite Htab
  end.
  rewrite (filter_map_comm tab (fun p => keptFolder (fst p))).
  change (fun a => keptFolder (fst (tab a))) with keptFolder.
  rewrite <- (sortBy_map tab (fun p => name (fst p))).
  change (fun a => name (fst (tab a))) with name.
  rewrite flat_map_concat_map, map_map, <- flat_map_concat_map.
  reflexivity.
Qed.

Lemma buildRecursiveContent_TFile n b e d excludeName level :
  buildRecursiveContent (TFile n b e d) excludeName level = [].
Proof. reflexivity. Qed.

(** *** The store operations *)

Lemma create_inv (path data : string) (v v1 : Vault) (r : Result unit) :
  create host path data v = (v1, r) ->
  calls v1 = calls v ++ [mkCall (OpCreate path data) (isOk r)]
  /\ match r with
     | Ok _ =>
         updateAt (createIn data) (parsePath path) (rootChildren v)
         = Some (rootChildren v1)
     | Throw _ =>
         rootChildren v1 = rootChildren v
         \/ exists other,
             updateAt (createIn other) (parsePath path) (rootChildren v)
             = Some (rootChildren v1)
     end.
Proof.
  unfold create. intros H.
  destruct (host (length (calls v)) (OpCreate path data)) as [| |other].
  - destruct (updateAt (createIn data) _ _) eqn:Hu; inversion H; subst; simpl; auto.
  - inversion H; subst; simpl; auto.
  - destruct (updateAt (createIn other) _ _) eqn:Hu; inversion H; subst; simpl; eauto.
Qed.

Lemma read_inv (path : string) (v v1 : Vault) (r : Result string) :
  read host path v = (v1, r) ->
  calls v1 = calls v ++ [mkCall (OpRead path) (isOk r)]
  /\ rootChildren v1 = rootChildren v
  /\ match r with
     | Ok data =>
         exists n b e,
           lookupSegs (parsePath path) (rootChildren v) = Some (TFile n b e data)
     | Throw _ => True
     end.
Proof.
  unfold read. intros H.
  destruct (host (length (calls v)) (OpRead path));
    try (inversion H; subst; simpl; auto; fail);
    destruct (lookupSegs (parsePath path) (rootChildren v)) as [[n b e d|n cs]|];
    inversion H; subst; simpl; eauto 6.
Qed.

Lemma modify_inv (path data : string) (v v1 : Vault) (r : Result unit) :
  modify host path data v = (v1, r) ->
  calls v1 = calls v ++ [mkCall (OpModify path data) (isOk r)]
  /\ match r with
     | Ok _ =>
         updateAt (modifyIn data) (parsePath path) (rootChildren v)
         = Some (rootChildren v1)
     | Throw _ => rootChildren v1 = rootChildren v
     end.
Proof.
  unfold modify. intros H.
  destruct (host (length (calls v)) (OpModify path data));
    try (inversion H; subst; simpl; auto; fail);
    destruct (updateAt (modifyIn data) _ _) eqn:Hu;
    inversion H; subst; simpl; auto.
Qed.

(** *** The reconcile step (lines 66-78, 108-120, 134-146) *)

Lemma reconcile_absent (navPath md : string) (v : Vault) :
  reconcile None navPath md v =
    match create host navPath md v with
    | (v1, Ok _) => (v1, Ok tt)
    | (v1, Throw _) =>
        match lookupSegs (parsePath navPath) (rootChildren v1) with
        | Some _ => modify host navPath md v1
        | None => (v1, Ok tt)
        end
    end.
Proof.
  unfold reconcile, tryCatch, bind, getAbstractFileByPath.
  destruct (create host navPath md v) as [v1 [[]|e]]; [reflexivity|].
  destruct (lookupSegs (parsePath navPath) (rootChildren v1)); reflexivity.
Qed.

Lemma reconcile_present (f : TAbstractFile) (navPath md : string) (v : Vault) :
  reconcile (Some f) navPath md v =
    match read host navPath v with
    | (v1, Ok current) =>
        if String.eqb (Str.trim current) (Str.trim md) then (v1, Ok tt)
        else modify host navPath md v1
    | (v1, Throw e) => (v1, Throw e)
    end.
Proof.
  unfold reconcile, bind.
  destruct (read host navPath v) as [v1 [current|e]]; [|reflexivity].
  destruct (String.eqb (Str.trim current) (Str.trim md)); reflexivity.
Qed.

(** C6.  The reconcile step.  With no document at the target path it
    attempts a creation with the expected content; when the creation
    succeeds nothing else is done; when it fails the path is fetched again
    and the document is overwritten with the expected content only if it
    is now present.  With a document at the target path whose content has
    been read, it overwrites if and only if the content read and the
    expected content differ after trimming both. *)
Theorem reconcile_spec (navPath md : string) (v : Vault) :
  (forall v1,
      create host navPath md v = (v1, Ok tt) ->
      reconcile None navPath md v = (v1, Ok tt))
  /\ (forall v1 e f,
        create host navPath md v = (v1, Throw e) ->
        lookupSegs (parsePath navPath) (rootChildren v1) = Some f ->
        reconcile None navPath md v = modify host navPath md v1)
  /\ (forall v1 e,
        create host navPath md v = (v1, Throw e) ->
        lookupSegs (parsePath navPath) (rootChildren v1) = None ->
        reconcile None navPath md v = (v1, Ok tt))
  /\ (exists ok rest,
        calls (fst (reconcile None navPath md v))
        = calls v ++ mkCall (OpCreate navPath md) ok :: rest)
  /\ (forall f v1 current,
        read host navPath v = (v1, Ok current) ->
        (Str.trim current = Str.trim md ->
         reconcile (Some f) navPath md v = (v1, Ok tt))
        /\ (Str.trim current <> Str.trim md ->
            reconcile (Some f) navPath md v = modify host navPath md v1)).
Proof.
  split; [|split; [|split; [|split]]].
  - intros v1 H. rewrite reconcile_absent, H. reflexivity.
  - intros v1 e f H Hf. rewrite reconcile_absent, H, Hf. reflexivity.
  - intros v1 e H Hf. rewrite reconcile_absent, H, Hf. reflexivity.
  - rewrite reconcile_absent.
    destruct (create host navPath md v) as [v1 r] eqn:Hc.
    apply create_inv in Hc. destruct Hc as [Hc _].
    destruct r as [[]|e]; simpl in *; [eauto|].
    destruct (lookupSegs _ _); [|simpl; eauto].
    destruct (modify host navPath md v1) as [v2 r2] eqn:Hm.
    apply modify_inv in Hm. destruct Hm as [Hm _]. simpl.
    rewrite Hm, Hc, <- List.app_assoc. simpl. eauto.
  - intros f v1 current H. rewrite reconcile_present, H. split.
    + intros Heq. apply String.eqb_eq in Heq. rewrite Heq. reflexivity.
    + intros Hne. apply String.eqb_neq in Hne. rewrite Hne. reflexivity.
Qed.

(** *** The loops and the pass *)

Lemma forEachM_app {A S} (l1 l2 : list A) (acc : S) (body : S -> A -> M S) (v : Vault) :
  forEachM (l1 ++ l2) acc body v =
    bind (forEachM l1 acc body) (fun acc' => forEachM l2 acc' body) v.
Proof.
  revert acc v. induction l1 as [|x l1 IH]; intros acc v; simpl.
  - reflexivity.
  - unfold bind in *.
    destruct (body acc x v) as [v1 [acc1|e]]; [|reflexivity].
    apply IH.
Qed.

Lemma initializeStructure_eq (v : Vault) :
  initializeStructure v =
    match updateOrCreateRootNavigation v with
    | (v1, Ok _) =>
        forEachM (rootChildren v1) tt
          (fun _ child => visitChild (getExcludedFolders settings) child) v1
    | (v1, Throw e) => (v1, Throw e)
    end.
Proof.
  unfold initializeStructure, bind.
  destruct (updateOrCreateRootNavigation v) as [v1 [[]|e]]; reflexivity.
Qed.

(** *** Sorted listings *)

Lemma insertBy_sorted {A} (key : A -> string) (x : A) (l : list A) :
  totalPreorder ->
  StronglySorted (byKey key) l -> StronglySorted (byKey key) (insertBy key x l).
Proof.
  intros [Htot Htr] Hs. induction Hs as [|y l Hs IH Hy]; simpl.
  - constructor; constructor.
  - destruct (0 <? compareNames (key x) (key y))%Z eqn:Hc.
    + apply Z.ltb_lt in Hc. constructor; [exact IH|].
      apply List.Forall_forall. intros z Hz. apply insertBy_In in Hz.
      destruct Hz as [->|Hz].
      * apply Htot, Hc.
      * rewrite List.Forall_forall in Hy. apply Hy, Hz.
    + apply Z.ltb_ge in Hc. constructor; [constructor; assumption|].
      constructor; [exact Hc|].
      rewrite List.Forall_forall in Hy |- *. intros z Hz.
      apply (Htr _ (key y)); [exact Hc|apply Hy, Hz].
Qed.

Lemma sortBy_sorted {A} (key : A -> string) (l : list A) :
  totalPreorder -> StronglySorted (byKey key) (sortBy key l).
Proof.
  intros H. induction l as [|x l IH]; simpl; [constructor|].
  apply insertBy_sorted; assumption.
Qed.

Lemma insertBy_Permutation {A} (key : A -> string) (x : A) (l : list A) :
  Permutation (insertBy key x l) (x :: l).
Proof.
  induction l as [|y l IH]; simpl; [reflexivity|].
  destruct (0 <? compareNames (key x) (key y))%Z; [|reflexivity].
  rewrite IH. apply perm_swap.
Qed.

Lemma sortBy_Permutation {A} (key : A -> string) (l : list A) :
  Permutation (sortBy key l) l.
Proof.
  induction l as [|x l IH]; simpl; [reflexivity|].
  rewrite insertBy_Permutation, IH. reflexivity.
Qed.

(** *** Paths *)

Lemma split_noSlash (s : string) :
  Str.noSlash s = true -> Str.split "/"%char s = [s].
Proof.
  unfold Str.noSlash. induction s as [|c s IH]; simpl; [reflexivity|].
  intros H. apply andb_true_iff in H. destruct H as [Hc Hs].
  apply negb_true_iff in Hc. rewrite Hc, (IH Hs). reflexivity.
Qed.

Lemma split_app_slash (a b : string) :
  Str.noSlash a = true ->
  Str.split "/"%char (a +:+ String "/"%char b) = a :: Str.split "/"%char b.
Proof.
  unfold Str.noSlash. induction a as [|c a IH]; simpl; [reflexivity|].
  intros H. apply andb_true_iff in H. destruct H as [Hc Hs].
  apply negb_true_iff in Hc. rewrite Hc, (IH Hs). reflexivity.
Qed.

Lemma noSlash_app (a b : string) :
  Str.noSlash (a +:+ b) = Str.noSlash a && Str.noSlash b.
Proof.
  unfold Str.noSlash. induction a as [|c a IH]; simpl; [reflexivity|].
  rewrite IH, andb_assoc. reflexivity.
Qed.

Lemma string_app_assoc (a b c : string) : (a +:+ b) +:+ c = a +:+ (b +:+ c).
Proof.
  induction a as [|x a IH]; [reflexivity|].
  change (String x ((a +:+ b) +:+ c) = String x (a +:+ (b +:+ c))).
  rewrite IH. reflexivity.
Qed.

Lemma pathOf_snoc (r : Ref) (n : string) :
  r <> [] -> pathOf (r ++ [n]) = pathOf r +:+ "/" +:+ n.
Proof.
  unfold pathOf, Str.join. induction r as [|a r IH]; [congruence|]. intros _.
  destruct r as [|b r]; [reflexivity|].
  change (String.concat "/" ((a :: b :: r) ++ [n]))
    with (a +:+ "/" +:+ String.concat "/" ((b :: r) ++ [n])).
  rewrite IH by congruence.
  change (String.concat "/" (a :: b :: r))
    with (a +:+ "/" +:+ String.concat "/" (b :: r)).
  rewrite !string_app_assoc. reflexivity.
Qed.

Lemma parsePath_pathOf (r : Ref) :
  r <> [] -> forallb Str.noSlash r = true -> parsePath (pathOf r) = r.
Proof.
  unfold parsePath, pathOf, Str.join.
  induction r as [|a r IH]; [congruence|]. intros _ H. simpl in H.
  apply andb_true_iff in H. destruct H as [Ha Hr].
  destruct r as [|b r]; [apply split_noSlash, Ha|].
  change (String.concat "/" (a :: b :: r))
    with (a +:+ String "/"%char (String.concat "/" (b :: r))).
  rewrite (split_app_slash _ _ Ha), IH by (congruence || assumption).
  reflexivity.
Qed.

(** The target path of the index document of the live folder [r], as the
    host resolves it. *)
Lemma parsePath_navPath (r : Ref) (navName : string) :
  r <> [] -> forallb Str.noSlash r = true -> Str.noSlash navName = true ->
  parsePath (pathOf r +:+ "/" +:+ navName) = r ++ [navName].
Proof.
  intros Hr Hs Hn. rewrite <- (pathOf_snoc r navName Hr).
  apply parsePath_pathOf.
  - destruct r; simpl; congruence.
  - rewrite forallb_app, Hs. simpl. rewrite Hn. reflexivity.
Qed.

Lemma noSlash_md (n : string) :
  Str.noSlash n = true -> Str.noSlash (n +:+ ".md") = true.
Proof. intros H. rewrite noSlash_app, H. reflexivity. Qed.

(** *** The tree under a store operation *)

Lemma findChild_name (n : string) (cs : list TAbstractFile) (c : TAbstractFile) :
  findChild n cs = Some c -> name c = n.
Proof.
  induction cs as [|x cs IH]; simpl; [discriminate|].
  destruct (String.eqb (name x) n) eqn:E; [|exact IH].
  intros H. inversion H; subst. apply String.eqb_eq, E.
Qed.

Lemma findChild_In (n : string) (cs : list TAbstractFile) (c : TAbstractFile) :
  findChild n cs = Some c -> In c cs.
Proof.
  induction cs as [|x cs IH]; simpl; [discriminate|].
  destruct (String.eqb (name x) n); [|auto].
  intros H. inversion H; auto.
Qed.

Lemma findChild_app (n : string) (cs cs2 : list TAbstractFile) :
  findChild n (cs ++ cs2) =
    match findChild n cs with
    | Some c => Some c
    | None => findChild n cs2
    end.
Proof.
  induction cs as [|x cs IH]; simpl; [reflexivity|].
  destruct (String.eqb (name x) n); [reflexivity|exact IH].
Qed.

Lemma findChild_replace_eq (n : string) (new c : TAbstractFile)
    (cs : list TAbstractFile) :
  findChild n cs = Some c -> name new = n ->
  findChild n (replaceChild n new cs) = Some new.
Proof.
  intros H Hn. induction cs as [|x cs IH]; simpl in *; [discriminate|].
  destruct (String.eqb (name x) n) eqn:E; simpl.
  - rewrite Hn, String.eqb_refl. reflexivity.
  - rewrite E. apply IH, H.
Qed.

Lemma findChild_replace_ne (m n : string) (new : TAbstractFile)
    (cs : list TAbstractFile) :
  m <> n -> name new = n ->
  findChild m (replaceChild n new cs) = findChild m cs.
Proof.
  intros Hmn Hn. induction cs as [|x cs IH]; simpl; [reflexivity|].
  destruct (String.eqb (name x) n) eqn:E; simpl.
  - apply String.eqb_eq in E.
    assert (E1 : String.eqb (name new) m = false) by (apply String.eqb_neq; congruence).
    assert (E2 : String.eqb (name x) m = false) by (apply String.eqb_neq; congruence).
    rewrite E1, E2. reflexivity.
  - destruct (String.eqb (name x) m); [reflexivity|exact IH].
Qed.

Lemma name_newFile (n data : string) : name (newFile n data) = n.
Proof. unfold newFile. destruct (splitLast "." n) as [[b e]|]; reflexivity. Qed.

Lemma isTFile_newFile (n data : string) : isTFile (newFile n data) = true.
Proof. unfold newFile. destruct (splitLast "." n) as [[b e]|]; reflexivity. Qed.

Lemma createIn_fileLocal (data : string) : fileLocal data (createIn data).
Proof.
  intros n cs cs'. unfold createIn.
  destruct (findChild n cs) eqn:E; [discriminate|].
  intros H. inversion H; subst. clear H. split; [|split].
  - rewrite findChild_app, E. simpl. rewrite name_newFile, String.eqb_refl.
    unfold newFile. destruct (splitLast "." n) as [[b e]|]; eauto.
  - left. reflexivity.
  - intros m Hm. rewrite findChild_app. destruct (findChild m cs); [reflexivity|].
    simpl. rewrite name_newFile.
    assert (E1 : String.eqb n m = false) by (apply String.eqb_neq; congruence).
    rewrite E1. reflexivity.
Qed.

Lemma modifyIn_fileLocal (data : string) : fileLocal data (modifyIn data).
Proof.
  intros n cs cs'. unfold modifyIn.
  destruct (findChild n cs) as [[nm b e d|nm cs0]|] eqn:E; try discriminate.
  intros H. inversion H; subst. clear H.
  pose proof (findChild_name _ _ _ E) as Hn. simpl in Hn.
  split; [|split].
  - rewrite (findChild_replace_eq n (TFile nm b e data) _ cs E Hn). eauto.
  - right. eauto.
  - intros m Hm. apply findChild_replace_ne; assumption.
Qed.

Lemma lookupSegs_cons (n : string) (rest : list string) (cs : list TAbstractFile) :
  lookupSegs (n :: rest) cs =
    match findChild n cs with
    | None => None
    | Some c =>
        match rest with
        | [] => Some c
        | _ :: _ =>
            match c with
            | TFolder _ cs' => lookupSegs rest cs'
            | TFile _ _ _ _ => None
            end
        end
    end.
Proof. reflexivity. Qed.

Lemma updateAt_cons f (n : string) (rest : list string) (cs : list TAbstractFile) :
  updateAt f (n :: rest) cs =
    match rest with
    | [] => f n cs
    | _ :: _ =>
        match findChild n cs with
        | Some (TFolder n' cs') =>
            match updateAt f rest cs' with
            | Some cs'' => Some (replaceChild n (TFolder n' cs'') cs)
            | None => None
            end
        | _ => None
        end
    end.
Proof. reflexivity. Qed.

(** A deeper update, opened up. *)
Lemma updateAt_deep f (n x : string) (rest : list string)
    (cs cs' : list TAbstractFile) :
  updateAt f (n :: x :: rest) cs = Some cs' ->
  exists cn cn',
    findChild n cs = Some (TFolder n cn)
    /\ updateAt f (x :: rest) cn = Some cn'
    /\ cs' = replaceChild n (TFolder n cn') cs.
Proof.
  rewrite updateAt_cons.
  destruct (findChild n cs) as [[nm b e d|n' cn]|] eqn:E; try discriminate.
  destruct (updateAt f (x :: rest) cn) as [cn'|] eqn:U; [|discriminate].
  intros H. inversion H; subst.
  pose proof (findChild_name _ _ _ E) as Hn. simpl in Hn. subst n'.
  eauto.
Qed.

(** Frame: a store operation on [p] changes neither the kind nor the
    content of what sits at another path. *)
Lemma lookupSegs_updateAt_frame d f (p q : list string)
    (cs cs' : list TAbstractFile) :
  fileLocal d f -> updateAt f p cs = Some cs' -> q <> p ->
  kindOf (lookupSegs q cs') = kindOf (lookupSegs q cs).
Proof.
  intros Hf. revert q cs cs'.
  induction p as [|n rest IH]; intros q cs cs' Hu Hq; [discriminate|].
  destruct q as [|m qrest]; [reflexivity|].
  destruct rest as [|x rest].
  - simpl in Hu. destruct (Hf _ _ _ Hu) as (Hnew & Hold & Hother).
    rewrite !lookupSegs_cons.
    destruct (String.eqb_spec m n) as [->|Hmn].
    + destruct qrest as [|y qrest]; [congruence|].
      destruct Hnew as (nm & b & e & ->).
      destruct Hold as [->|(nm' & b' & e' & d' & ->)]; reflexivity.
    + rewrite (Hother m Hmn). reflexivity.
  - apply updateAt_deep in Hu. destruct Hu as (cn & cn' & Hfind & Hu & ->).
    rewrite !lookupSegs_cons.
    destruct (String.eqb_spec m n) as [->|Hmn].
    + rewrite (findChild_replace_eq n (TFolder n cn') _ cs Hfind eq_refl), Hfind.
      destruct qrest as [|y qrest]; [reflexivity|].
      apply IH; [exact Hu|congruence].
    + rewrite (findChild_replace_ne m n (TFolder n cn') cs Hmn eq_refl). reflexivity.
Qed.

(** After the operation a file sits at [p]; before it, a file or nothing. *)
Lemma lookupSegs_updateAt_at d f (p : list string) (cs cs' : list TAbstractFile) :
  fileLocal d f -> updateAt f p cs = Some cs' ->
  (exists nm b e, lookupSegs p cs' = Some (TFile nm b e d))
  /\ (lookupSegs p cs = None
      \/ exists nm b e d, lookupSegs p cs = Some (TFile nm b e d)).
Proof.
  intros Hf. revert cs cs'.
  induction p as [|n rest IH]; intros cs cs' Hu; [discriminate|].
  destruct rest as [|x rest].
  - simpl in Hu. destruct (Hf _ _ _ Hu) as (Hnew & Hold & _).
    rewrite !lookupSegs_cons.
    destruct Hnew as (nm & b & e & ->).
    split; [eauto|].
    destruct Hold as [->|(nm' & b' & e' & d' & ->)]; eauto 8.
  - apply updateAt_deep in Hu. destruct Hu as (cn & cn' & Hfind & Hu & ->).
    rewrite !lookupSegs_cons.
    rewrite (findChild_replace_eq n (TFolder n cn') _ cs Hfind eq_refl), Hfind.
    apply IH, Hu.
Qed.

Lemma lookupSegs_updateAt_off d f (p q : list string)
    (cs cs' : list TAbstractFile) :
  fileLocal d f -> updateAt f p cs = Some cs' ->
  q <> p -> ~ strictPrefix q p ->
  lookupSegs q cs' = lookupSegs q cs.
Proof.
  intros Hf. revert q cs cs'.
  induction p as [|n rest IH]; intros q cs cs' Hu Hq Hpre; [discriminate|].
  destruct q as [|m qrest]; [reflexivity|].
  destruct rest as [|x rest].
  - simpl in Hu. destruct (Hf _ _ _ Hu) as (Hnew & Hold & Hother).
    rewrite !lookupSegs_cons.
    destruct (String.eqb_spec m n) as [->|Hmn].
    + destruct qrest as [|y qrest]; [congruence|].
      destruct Hnew as (nm & b & e & ->).
      destruct Hold as [->|(nm' & b' & e' & d' & ->)]; reflexivity.
    + rewrite (Hother m Hmn). reflexivity.
  - apply updateAt_deep in Hu. destruct Hu as (cn & cn' & Hfind & Hu & ->).
    rewrite !lookupSegs_cons.
    destruct (String.eqb_spec m n) as [->|Hmn].
    + rewrite (findChild_replace_eq n (TFolder n cn') _ cs Hfind eq_refl), Hfind.
      destruct qrest as [|y qrest].
      * exfalso. apply Hpre. exists x, rest. reflexivity.
      * apply IH; [exact Hu|congruence|].
        intros (x' & rest' & E). apply Hpre. exists x', rest'.
        simpl. rewrite E. reflexivity.
    + rewrite (findChild_replace_ne m n (TFolder n cn') cs Hmn eq_refl). reflexivity.
Qed.

(** Frame: the children of a folder that is not above [p] are untouched. *)
Lemma childrenAt_updateAt_frame d f (p r : list string)
    (cs cs' : list TAbstractFile) :
  fileLocal d f -> updateAt f p cs = Some cs' ->
  r <> [] -> ~ strictPrefix r p ->
  childrenAt r cs' = childrenAt r cs.
Proof.
  intros Hf Hu Hr Hpre. destruct r as [|a r]; [congruence|].
  unfold childrenAt.
  destruct (decide (a :: r = p)) as [<-|Hne].
  - destruct (lookupSegs_updateAt_at _ _ _ _ _ Hf Hu) as [(nm & b & e & ->) Hold].
    destruct Hold as [->|(nm' & b' & e' & d' & ->)]; reflexivity.
  - rewrite (lookupSegs_updateAt_off _ _ _ _ _ _ Hf Hu Hne Hpre). reflexivity.
Qed.

Lemma childrenAt_cons (a : string) (r : list string)
    (cs cn : list TAbstractFile) (a' : string) :
  findChild a cs = Some (TFolder a' cn) ->
  childrenAt (a :: r) cs = childrenAt r cn.
Proof.
  intros H. unfold childrenAt. rewrite lookupSegs_cons, H.
  destruct r; reflexivity.
Qed.

(** The children of the folder that holds [p]: they are edited by [f]. *)
Lemma childrenAt_updateAt_parent f (r : list string) (n : string)
    (cs cs' : list TAbstractFile) :
  updateAt f (r ++ [n]) cs = Some cs' ->
  exists c0 c1,
    childrenAt r cs = Some c0 /\ childrenAt r cs' = Some c1 /\ f n c0 = Some c1.
Proof.
  revert cs cs'. induction r as [|a r IH]; intros cs cs' Hu.
  - simpl in Hu. exists cs, cs'. auto.
  - assert (Hr : exists x rest, r ++ [n] = x :: rest)
      by (destruct r; simpl; eauto).
    destruct Hr as (x & rest & Hr). simpl in Hu. rewrite Hr in Hu.
    apply updateAt_deep in Hu. destruct Hu as (cn & cn' & Hfind & Hu & ->).
    rewrite <- Hr in Hu. destruct (IH _ _ Hu) as (c0 & c1 & H0 & H1 & Hf).
    exists c0, c1.
    rewrite (childrenAt_cons a r cs cn a Hfind).
    rewrite (childrenAt_cons a r _ cn' a
               (findChild_replace_eq a (TFolder a cn') _ cs Hfind eq_refl)).
    auto.
Qed.

(** The children of a folder two levels or more above [p]: one of its
    sub-folders is replaced by a folder of the same name. *)
Lemma childrenAt_updateAt_above f (r : list string) (b x : string)
    (rest : list string) (cs cs' : list TAbstractFile) :
  updateAt f (r ++ b :: x :: rest) cs = Some cs' ->
  exists c0 cb cb',
    childrenAt r cs = Some c0
    /\ findChild b c0 = Some (TFolder b cb)
    /\ childrenAt r cs' = Some (replaceChild b (TFolder b cb') c0).
Proof.
  revert cs cs'. induction r as [|a r IH]; intros cs cs' Hu.
  - simpl in Hu. apply updateAt_deep in Hu.
    destruct Hu as (cn & cn' & Hfind & Hu & ->).
    exists cs, cn, cn'. auto.
  - assert (Hr : exists y rest', r ++ b :: x :: rest = y :: rest')
      by (destruct r; simpl; eauto).
    destruct Hr as (y & rest' & Hr). simpl in Hu. rewrite Hr in Hu.
    apply updateAt_deep in Hu. destruct Hu as (cn & cn' & Hfind & Hu & ->).
    rewrite <- Hr in Hu. destruct (IH _ _ Hu) as (c0 & cb & cb' & H0 & Hb & H1).
    exists c0, cb, cb'.
    rewrite (childrenAt_cons a r cs cn a Hfind).
    rewrite (childrenAt_cons a r _ cn' a
               (findChild_replace_eq a (TFolder a cn') _ cs Hfind eq_refl)).
    auto.
Qed.

(** *** What the listings read of a folder *)

Lemma dropNamed_create (ex data : string) (cs cs' : list TAbstractFile) :
  createIn data ex cs = Some cs' -> dropNamed ex cs' = dropNamed ex cs.
Proof.
  unfold createIn. destruct (findChild ex cs); [discriminate|].
  intros H. inversion H; subst. unfold dropNamed.
  rewrite List.filter_app. simpl.
  rewrite isTFile_newFile, name_newFile, String.eqb_refl. simpl.
  apply List.app_nil_r.
Qed.

Lemma dropNamed_replace_file (ex : string) (new old : TAbstractFile)
    (cs : list TAbstractFile) :
  findChild ex cs = Some old -> isTFile old = true ->
  isTFile new = true -> name new = ex ->
  dropNamed ex (replaceChild ex new cs) = dropNamed ex cs.
Proof.
  intros Hfind Hold Hnew Hname. unfold dropNamed.
  induction cs as [|c cs IH]; simpl in *; [discriminate|].
  destruct (String.eqb (name c) ex) eqn:E.
  - inversion Hfind; subst. simpl.
    rewrite Hold, Hnew, String.eqb_refl. reflexivity.
  - simpl. rewrite E, andb_false_r. simpl. rewrite (IH Hfind). reflexivity.
Qed.

Lemma dropNamed_modify (ex data : string) (cs cs' : list TAbstractFile) :
  modifyIn data ex cs = Some cs' -> dropNamed ex cs' = dropNamed ex cs.
Proof.
  unfold modifyIn.
  destruct (findChild ex cs) as [[nm b e d|nm cs0]|] eqn:E; try discriminate.
  intros H. inversion H; subst.
  apply (dropNamed_replace_file ex _ _ cs E); [reflexivity|reflexivity|].
  apply (findChild_name _ _ _ E).
Qed.

Lemma view_replace_folder (ex b : string) (cb cb' : list TAbstractFile)
    (cs : list TAbstractFile) :
  findChild b cs = Some (TFolder b cb) ->
  view ex (replaceChild b (TFolder b cb') cs) = view ex cs.
Proof.
  intros Hfind. unfold view, dropNamed.
  induction cs as [|c cs IH]; simpl in *; [discriminate|].
  destruct (String.eqb (name c) b) eqn:E.
  - inversion Hfind; subst. reflexivity.
  - simpl. destruct (negb (isTFile c && String.eqb (name c) ex)); simpl;
      rewrite (IH Hfind); reflexivity.
Qed.

Lemma folderNames_view (ex : string) (cs : list TAbstractFile) :
  folderNames cs = folderNames (view ex cs).
Proof.
  unfold folderNames, view, dropNamed.
  induction cs as [|c cs IH]; simpl; [reflexivity|].
  destruct c as [n b e d|n cn]; simpl.
  - destruct (String.eqb n ex); simpl; exact IH.
  - rewrite IH. reflexivity.
Qed.

Lemma createIn_editsFile (data : string) : editsFile (createIn data).
Proof. intros n cs cs'. apply dropNamed_create. Qed.

Lemma modifyIn_editsFile (data : string) : editsFile (modifyIn data).
Proof. intros n cs cs'. apply dropNamed_modify. Qed.

Lemma view_edit f (n : string) (cs cs' : list TAbstractFile) :
  editsFile f -> f n cs = Some cs' -> view n cs' = view n cs.
Proof. intros Hf H. unfold view. rewrite (Hf _ _ _ H). reflexivity. Qed.

(** No store operation adds, removes or renames a folder. *)
Lemma folderNames_updateAt f (p : list string) (cs cs' : list TAbstractFile) :
  editsFile f -> updateAt f p cs = Some cs' -> folderNames cs' = folderNames cs.
Proof.
  intros Hf. revert cs cs'.
  induction p as [|n rest IH]; intros cs cs' Hu; [discriminate|].
  destruct rest as [|x rest].
  - simpl in Hu. rewrite (folderNames_view n cs'), (folderNames_view n cs).
    rewrite (view_edit f n cs cs' Hf Hu). reflexivity.
  - apply updateAt_deep in Hu. destruct Hu as (cn & cn' & Hfind & Hu & ->).
    rewrite (folderNames_view "" (replaceChild _ _ _)), (folderNames_view "" cs).
    rewrite (view_replace_folder "" n cn cn' cs Hfind). reflexivity.
Qed.

Lemma wfTree_dropNamed (ex : string) (cs : list TAbstractFile) :
  wfTree (dropNamed ex cs) = wfTree cs.
Proof.
  unfold wfTree, dropNamed. induction cs as [|c cs IH]; simpl; [reflexivity|].
  destruct c as [n b e d|n cn]; simpl.
  - destruct (String.eqb n ex); simpl; exact IH.
  - rewrite IH. reflexivity.
Qed.

Lemma wfTree_replaceChild (n : string) (new : TAbstractFile)
    (cs : list TAbstractFile) :
  wfTree cs = true -> wfNode new = true -> wfTree (replaceChild n new cs) = true.
Proof.
  unfold wfTree. intros Hcs Hnew.
  induction cs as [|c cs IH]; simpl in *; [reflexivity|].
  apply andb_true_iff in Hcs. destruct Hcs as [Hc Hcs].
  destruct (String.eqb (name c) n); simpl.
  - rewrite Hnew, Hcs. reflexivity.
  - rewrite Hc, (IH Hcs). reflexivity.
Qed.

Lemma wfTree_child (n : string) (cs : list TAbstractFile) (c : TAbstractFile) :
  wfTree cs = true -> findChild n cs = Some c -> wfNode c = true.
Proof.
  intros Hcs Hfind. apply findChild_In in Hfind.
  unfold wfTree in Hcs. rewrite forallb_forall in Hcs. apply Hcs, Hfind.
Qed.

Lemma wfTree_updateAt f (p : list string) (cs cs' : list TAbstractFile) :
  editsFile f -> updateAt f p cs = Some cs' ->
  wfTree cs = true -> wfTree cs' = true.
Proof.
  intros Hf. revert cs cs'.
  induction p as [|n rest IH]; intros cs cs' Hu Hwf; [discriminate|].
  destruct rest as [|x rest].
  - simpl in Hu. rewrite <- (wfTree_dropNamed n), (Hf _ _ _ Hu), wfTree_dropNamed.
    exact Hwf.
  - apply updateAt_deep in Hu. destruct Hu as (cn & cn' & Hfind & Hu & ->).
    pose proof (wfTree_child _ _ _ Hwf Hfind) as Hn. simpl in Hn.
    apply andb_true_iff in Hn. destruct Hn as [Hn Hcn].
    apply wfTree_replaceChild; [exact Hwf|]. simpl.
    rewrite Hn. simpl. apply (IH _ _ Hu Hcn).
Qed.

Lemma wfTree_childrenAt (r : list string) (cs c : list TAbstractFile) :
  wfTree cs = true -> childrenAt r cs = Some c ->
  forallb Str.noSlash r = true /\ wfTree c = true.
Proof.
  revert cs. induction r as [|a r IH]; intros cs Hwf Hc.
  - simpl in Hc. inversion Hc; subst. auto.
  - unfold childrenAt in Hc. rewrite lookupSegs_cons in Hc.
    destruct (findChild a cs) as [c0|] eqn:Hfind; [|discriminate].
    pose proof (wfTree_child _ _ _ Hwf Hfind) as Hn.
    pose proof (findChild_name _ _ _ Hfind) as Hname.
    destruct r as [|b r].
    + destruct c0 as [n b e d|n cn]; [discriminate|].
      inversion Hc; subst. simpl in *.
      apply andb_true_iff in Hn. destruct Hn as [Hn Hcn]. rewrite Hn. auto.
    + destruct c0 as [n b0 e d|n cn]; [discriminate|].
      simpl in Hn, Hname. subst n.
      apply andb_true_iff in Hn. destruct Hn as [Hn Hcn].
      destruct (IH cn Hcn) as [Hr Hc'].
      { unfold childrenAt. exact Hc. }
      split; [|exact Hc']. simpl in *. rewrite Hn. exact Hr.
Qed.

(** *** The listings depend on names only *)

Lemma filter_keptFolder_names (cs : list TAbstractFile) :
  map name (List.filter keptFolder cs) = keptNames cs.
Proof.
  unfold keptNames, folderNames, keptFolder, notExcluded.
  induction cs as [|c cs IH]; simpl; [reflexivity|].
  destruct (isTFolder c); simpl; [|exact IH].
  destruct (negb (Str.includes (getExcludedFolders settings) (name c))); simpl;
    rewrite IH; reflexivity.
Qed.

Lemma subFolders_names (cs : list TAbstractFile) :
  map name (subFolders cs) = sortBy (fun n => n) (keptNames cs).
Proof.
  unfold subFolders. rewrite <- filter_keptFolder_names.
  apply (sortBy_map name (fun n => n)).
Qed.

Lemma mdFiles_basenames (ex : string) (cs : list TAbstractFile) :
  map basename (mdFiles ex cs) = sortBy (fun n => n) (mdBasenames ex cs).
Proof. unfold mdFiles, mdBasenames. apply (sortBy_map basename (fun n => n)). Qed.

Lemma keptNames_view (ex : string) (cs : list TAbstractFile) :
  keptNames cs = keptNames (view ex cs).
Proof. unfold keptNames. rewrite <- folderNames_view. reflexivity. Qed.

Lemma mdBasenames_view (ex : string) (cs : list TAbstractFile) :
  mdBasenames ex cs = mdBasenames ex (view ex cs).
Proof.
  unfold mdBasenames, view, dropNamed, keptFile.
  induction cs as [|c cs IH]; simpl; [reflexivity|].
  destruct c as [n b e d|n cn]; simpl; [|exact IH].
  destruct (String.eqb n ex) eqn:E; simpl.
  - rewrite andb_false_r. exact IH.
  - rewrite E. destruct (String.eqb e "md"); simpl; rewrite IH; reflexivity.
Qed.

Lemma fold_left_links {A} (g : A -> string) (k : A -> string)
    (g' : string -> string) (l : list A) (h : string) :
  (forall x, g x = g' (k x)) ->
  fold_left (fun md x => md +:+ g x) l h
  = fold_left (fun md y => md +:+ g' y) (map k l) h.
Proof.
  intros Hg. revert h. induction l as [|x l IH]; intros h; simpl; [reflexivity|].
  rewrite Hg. apply IH.
Qed.

(** [md] of the root, lines 61-64, from the names. *)
Lemma rootMd_names (cs : list TAbstractFile) :
  rootMd cs =
    fold_left (fun md n => md +:+ "- [[" +:+ pathOf [n] +:+ "/" +:+ n +:+ "|" +:+ n
                             +:+ "]]" +:+ Str.nl)
      (sortBy (fun n => n) (keptNames cs))
      ("#" +:+ navigationFileName settings +:+ Str.nl +:+ Str.nl).
Proof.
  unfold rootMd. rewrite <- (subFolders_names cs).
  apply (fold_left_links (folderLink []) name). reflexivity.
Qed.

Lemma rootMd_cong (cs cs' : list TAbstractFile) :
  folderNames cs = folderNames cs' -> rootMd cs = rootMd cs'.
Proof. intros H. rewrite !rootMd_names. unfold keptNames. rewrite H. reflexivity. Qed.

Lemma level2Md_cong (folder : Ref) (folderName ex : string)
    (cs cs' : list TAbstractFile) :
  view ex cs = view ex cs' ->
  level2Md folder folderName ex cs = level2Md folder folderName ex cs'.
Proof.
  intros Hv. unfold level2Md.
  rewrite (fold_left_links fileLink basename
             (fun b => "- [[" +:+ b +:+ "]]" +:+ Str.nl) (mdFiles ex cs))
    by reflexivity.
  rewrite (fold_left_links fileLink basename
             (fun b => "- [[" +:+ b +:+ "]]" +:+ Str.nl) (mdFiles ex cs'))
    by reflexivity.
  rewrite (fold_left_links (folderLink folder) name
             (fun n => "- [[" +:+ pathOf (folder ++ [n]) +:+ "/" +:+ n +:+ "|" +:+ n
                         +:+ "]]" +:+ Str.nl) (subFolders cs))
    by reflexivity.
  rewrite (fold_left_links (folderLink folder) name
             (fun n => "- [[" +:+ pathOf (folder ++ [n]) +:+ "/" +:+ n +:+ "|" +:+ n
                         +:+ "]]" +:+ Str.nl) (subFolders cs'))
    by reflexivity.
  rewrite !mdFiles_basenames, !subFolders_names.
  rewrite (mdBasenames_view ex cs), (mdBasenames_view ex cs').
  rewrite (keptNames_view ex cs), (keptNames_view ex cs'), Hv.
  reflexivity.
Qed.

Lemma filter_filter_implied {A} (p q : A -> bool) (l : list A) :
  (forall x, p x = true -> q x = true) ->
  List.filter p (List.filter q l) = List.filter p l.
Proof.
  intros H. induction l as [|x l IH]; simpl; [reflexivity|].
  destruct (q x) eqn:Q; simpl.
  - rewrite IH. reflexivity.
  - destruct (p x) eqn:P; [rewrite (H x P) in Q; discriminate|exact IH].
Qed.

(** The builder does not read the files that bear the excluded name. *)
Lemma buildRecursiveContent_dropNamed (n : string) (cs : list TAbstractFile)
    (ex : string) (level : nat) :
  buildRecursiveContent (TFolder n cs) ex level
  = buildRecursiveContent (TFolder n (dropNamed ex cs)) ex level.
Proof.
  rewrite !buildRecursiveContent_eq. unfold dropNamed.
  rewrite (filter_filter_implied keptFolder), (filter_filter_implied (keptFile ex)).
  - reflexivity.
  - intros x. unfold keptFile. destruct (isTFile x); simpl; [|discriminate].
    destruct (String.eqb (name x) ex); simpl.
    + rewrite andb_false_r. discriminate.
    + reflexivity.
  - intros x. unfold keptFolder, isTFile. destruct (isTFolder x); simpl; [|discriminate].
    reflexivity.
Qed.

Lemma buildRecursiveContent_cong (n n' : string) (cs cs' : list TAbstractFile)
    (ex : string) (level : nat) :
  dropNamed ex cs = dropNamed ex cs' ->
  buildRecursiveContent (TFolder n cs) ex level
  = buildRecursiveContent (TFolder n' cs') ex level.
Proof.
  intros H.
  rewrite (buildRecursiveContent_dropNamed n cs), H,
    (buildRecursiveContent_dropNamed n' cs').
  rewrite !buildRecursiveContent_eq. reflexivity.
Qed.

(** *** States of the vault around a reconcile step *)

Lemma touchedMany_trans P cs1 cs2 cs3 :
  touchedMany P cs1 cs2 -> touchedMany P cs2 cs3 -> touchedMany P cs1 cs3.
Proof.
  induction 1; intros H3; [exact H3|].
  eapply touchedMany_step; eauto.
Qed.

Lemma touchedMany_one (P : list string -> Prop) p cs cs' :
  P p -> touched p cs cs' -> touchedMany P cs cs'.
Proof. intros HP H. eapply touchedMany_step; [exact HP|exact H|constructor]. Qed.

Lemma touchedMany_weaken (P Q : list string -> Prop) cs cs' :
  (forall p, P p -> Q p) -> touchedMany P cs cs' -> touchedMany Q cs cs'.
Proof.
  intros HPQ. induction 1; [constructor|].
  eapply touchedMany_step; eauto.
Qed.

(** A property of the tree that every single operation on a path of [P]
    keeps is kept by a sequence of them. *)
Lemma touchedMany_ind_inv (P : list string -> Prop)
    (I : list TAbstractFile -> Prop) cs cs' :
  (forall p t t', P p -> touched p t t' -> I t -> I t') ->
  touchedMany P cs cs' -> I cs -> I cs'.
Proof. intros Hstep. induction 1; eauto. Qed.

Lemma fileAt_kindOf (p : list string) (cs cs' : list TAbstractFile) :
  kindOf (lookupSegs p cs') = kindOf (lookupSegs p cs) ->
  fileAt p cs' = fileAt p cs.
Proof.
  unfold fileAt.
  destruct (lookupSegs p cs') as [[? ? ? ?|? ?]|];
    destruct (lookupSegs p cs) as [[? ? ? ?|? ?]|]; simpl; congruence.
Qed.

Lemma fileAt_touched (p q : list string) (cs cs' : list TAbstractFile) :
  touched p cs cs' -> q <> p -> fileAt q cs' = fileAt q cs.
Proof.
  intros [->|d f Hl He Hu] Hq; [reflexivity|].
  apply fileAt_kindOf. eapply lookupSegs_updateAt_frame; eauto.
Qed.

Lemma childrenAt_touched (p r : list string) (cs cs' : list TAbstractFile) :
  touched p cs cs' -> r <> [] -> ~ strictPrefix r p ->
  childrenAt r cs' = childrenAt r cs.
Proof.
  intros [->|d f Hl He Hu] Hr Hpre; [reflexivity|].
  eapply childrenAt_updateAt_frame; eauto.
Qed.

Lemma folderNames_touched (p : list string) (cs cs' : list TAbstractFile) :
  touched p cs cs' -> folderNames cs' = folderNames cs.
Proof.
  intros [->|d f Hl He Hu]; [reflexivity|].
  eapply folderNames_updateAt; eauto.
Qed.

Lemma wfTree_touched (p : list string) (cs cs' : list TAbstractFile) :
  touched p cs cs' -> wfTree cs = true -> wfTree cs' = true.
Proof.
  intros [->|d f Hl He Hu]; [auto|].
  eapply wfTree_updateAt; eauto.
Qed.

Lemma extends_refl v : extends v v.
Proof. exists []. rewrite List.app_nil_r. reflexivity. Qed.

Lemma extends_trans v1 v2 v3 : extends v1 v2 -> extends v2 v3 -> extends v1 v3.
Proof.
  intros [l1 H1] [l2 H2]. exists (l1 ++ l2).
  rewrite H2, H1, List.app_assoc. reflexivity.
Qed.

Lemma okSince_split v1 v2 v3 :
  extends v1 v2 -> extends v2 v3 -> okSince v1 v3 ->
  okSince v1 v2 /\ okSince v2 v3.
Proof.
  intros [l1 H1] [l2 H2] (l & Hl & Hok).
  assert (l = l1 ++ l2).
  { rewrite H2, H1, <- List.app_assoc in Hl. apply List.app_inv_head in Hl. auto. }
  subst l. apply List.Forall_app in Hok. destruct Hok as [Hok1 Hok2].
  split; [exists l1|exists l2]; auto.
Qed.

Lemma okSince_one v v' (c : Call) :
  calls v' = calls v ++ [c] -> okSince v v' -> callOk c = true.
Proof.
  intros H (l & Hl & Hok). rewrite H in Hl. apply List.app_inv_head in Hl.
  subst l. inversion Hok; auto.
Qed.

Lemma create_extends p d v v1 r : create host p d v = (v1, r) -> extends v v1.
Proof. intros H. apply create_inv in H. destruct H as [H _]. eexists; eauto. Qed.

Lemma read_extends p v v1 r : read host p v = (v1, r) -> extends v v1.
Proof. intros H. apply read_inv in H. destruct H as [H _]. eexists; eauto. Qed.

Lemma modify_extends p d v v1 r : modify host p d v = (v1, r) -> extends v v1.
Proof. intros H. apply modify_inv in H. destruct H as [H _]. eexists; eauto. Qed.

Lemma reconcile_extends file p md v v' r :
  reconcile file p md v = (v', r) -> extends v v'.
Proof.
  destruct file as [f|].
  - rewrite reconcile_present.
    destruct (read host p v) as [v1 [current|e]] eqn:Hr; intros H.
    + apply read_extends in Hr.
      destruct (String.eqb _ _).
      * inversion H; subst. exact Hr.
      * apply modify_extends in H. eapply extends_trans; eauto.
    + inversion H; subst. eapply read_extends; eauto.
  - rewrite reconcile_absent.
    destruct (create host p md v) as [v1 [[]|e]] eqn:Hc; intros H.
    + inversion H; subst. eapply create_extends; eauto.
    + apply create_extends in Hc.
      destruct (lookupSegs _ _).
      * apply modify_extends in H. eapply extends_trans; eauto.
      * inversion H; subst. exact Hc.
Qed.

(** When its store operations all succeed, the reconcile step ends
    normally, has done at most one write, at its target, and leaves the
    target settled. *)
Lemma reconcile_ok file p md v v' r :
  reconcile file p md v = (v', r) -> okSince v v' ->
  r = Ok tt
  /\ touched (parsePath p) (rootChildren v) (rootChildren v')
  /\ settled (rootChildren v') (parsePath p) md.
Proof.
  destruct file as [f|].
  - rewrite reconcile_present.
    destruct (read host p v) as [v1 [current|e]] eqn:Hr; intros H Hok.
    + pose proof (read_extends _ _ _ _ Hr) as Hext.
      apply read_inv in Hr. destruct Hr as (Hc1 & Ht1 & n & b & e & Hl).
      destruct (String.eqb (Str.trim current) (Str.trim md)) eqn:E.
      * inversion H; subst. split; [reflexivity|]. rewrite Ht1.
        split; [constructor; reflexivity|].
        exists current. unfold fileAt. rewrite Hl.
        split; [reflexivity|apply String.eqb_eq, E].
      * pose proof (modify_extends _ _ _ _ _ H) as Hext2.
        destruct (okSince_split _ _ _ Hext Hext2 Hok) as [_ Hok2].
        apply modify_inv in H. destruct H as (Hc2 & Ht2).
        pose proof (okSince_one _ _ _ Hc2 Hok2) as Hisok. simpl in Hisok.
        destruct r as [[]|e2]; [|discriminate].
        rewrite Ht1 in Ht2. split; [reflexivity|]. split.
        -- eapply touched_write;
             [apply modifyIn_fileLocal|apply modifyIn_editsFile|exact Ht2].
        -- destruct (lookupSegs_updateAt_at _ _ _ _ _ (modifyIn_fileLocal md) Ht2)
             as [(nm & b' & e' & Hnew) _].
           exists md. unfold fileAt. rewrite Hnew. auto.
    + inversion H; subst. apply read_inv in Hr. destruct Hr as (Hc1 & _).
      pose proof (okSince_one _ _ _ Hc1 Hok). discriminate.
  - rewrite reconcile_absent.
    destruct (create host p md v) as [v1 [[]|e]] eqn:Hc; intros H Hok.
    + inversion H; subst. apply create_inv in Hc. destruct Hc as (Hc1 & Ht1).
      split; [reflexivity|]. split.
      * eapply touched_write;
          [apply createIn_fileLocal|apply createIn_editsFile|exact Ht1].
      * destruct (lookupSegs_updateAt_at _ _ _ _ _ (createIn_fileLocal md) Ht1)
          as [(nm & b' & e' & Hnew) _].
        exists md. unfold fileAt. rewrite Hnew. auto.
    + pose proof (create_extends _ _ _ _ _ Hc) as Hext.
      assert (Hext2 : extends v1 v').
      { destruct (lookupSegs _ _).
        - eapply modify_extends; eauto.
        - inversion H; subst. apply extends_refl. }
      destruct (okSince_split _ _ _ Hext Hext2 Hok) as [Hok1 _].
      apply create_inv in Hc. destruct Hc as (Hc1 & _).
      pose proof (okSince_one _ _ _ Hc1 Hok1). discriminate.
Qed.

Lemma readsOnly_refl v : readsOnly v v.
Proof.
  split; [reflexivity|]. exists []. rewrite List.app_nil_r. auto.
Qed.

Lemma readsOnly_trans v1 v2 v3 : readsOnly v1 v2 -> readsOnly v2 v3 -> readsOnly v1 v3.
Proof.
  intros [Ht1 (l1 & H1 & Hr1)] [Ht2 (l2 & H2 & Hr2)]. split; [congruence|].
  exists (l1 ++ l2). rewrite H2, H1, List.app_assoc. split; [reflexivity|].
  apply List.Forall_app. auto.
Qed.

(** On a settled target the reconcile step reads and writes nothing,
    whatever the host answers. *)
Lemma reconcile_settled f p md v v' r :
  settled (rootChildren v) (parsePath p) md ->
  reconcile (Some f) p md v = (v', r) -> readsOnly v v'.
Proof.
  intros (d & Hd & Htrim). rewrite reconcile_present.
  destruct (read host p v) as [v1 [current|e]] eqn:Hr; intros H.
  - apply read_inv in Hr. destruct Hr as (Hc1 & Ht1 & n & b & e & Hl).
    unfold fileAt in Hd. rewrite Hl in Hd. inversion Hd; subst d.
    apply String.eqb_eq in Htrim. rewrite Htrim in H. inversion H; subst.
    split; [exact Ht1|]. eexists. split; [exact Hc1|].
    constructor; [reflexivity|constructor].
  - inversion H; subst. apply read_inv in Hr. destruct Hr as (Hc1 & Ht1 & _).
    split; [exact Ht1|]. eexists. split; [exact Hc1|].
    constructor; [reflexivity|constructor].
Qed.

(** *** The step of a deep container *)

Lemma noSlash_refName (r : Ref) :
  forallb Str.noSlash r = true -> Str.noSlash (refName r) = true.
Proof.
  unfold refName. induction r as [|a r IH]; simpl; [reflexivity|].
  intros H. apply andb_true_iff in H. destruct H as [Ha Hr].
  destruct r as [|b r]; [exact Ha|]. apply IH, Hr.
Qed.

Lemma parsePath_index (r : Ref) :
  r <> [] -> forallb Str.noSlash r = true ->
  parsePath (pathOf r +:+ "/" +:+ indexName r) = indexPath r.
Proof.
  intros Hr Hs. apply parsePath_navPath; [exact Hr|exact Hs|].
  apply noSlash_md, noSlash_refName, Hs.
Qed.

Lemma updateOrCreateLevel3Navigation_eq (r : Ref) (v : Vault) :
  updateOrCreateLevel3Navigation r v =
    match childrenAt r (rootChildren v) with
    | None => (v, Ok tt)
    | Some cs =>
        if Str.includes (getExcludedFolders settings) (refName r) then (v, Ok tt)
        else reconcile
               (lookupSegs (parsePath (pathOf r +:+ "/" +:+ indexName r)) (rootChildren v))
               (pathOf r +:+ "/" +:+ indexName r) (deepContent r cs) v
    end.
Proof.
  unfold updateOrCreateLevel3Navigation, bind, getChildren, getAbstractFileByPath, ret.
  destruct (childrenAt r (rootChildren v)) as [cs|]; [|reflexivity].
  destruct (Str.includes _ _); reflexivity.
Qed.

Lemma updateOrCreateLevel3Navigation_extends (r : Ref) v v' res :
  updateOrCreateLevel3Navigation r v = (v', res) -> extends v v'.
Proof.
  rewrite updateOrCreateLevel3Navigation_eq.
  destruct (childrenAt r (rootChildren v)) as [cs|].
  - destruct (Str.includes _ _).
    + intros H. inversion H. apply extends_refl.
    + apply reconcile_extends.
  - intros H. inversion H. apply extends_refl.
Qed.

Lemma deepContent_edit f (r : Ref) (c0 c1 : list TAbstractFile) :
  editsFile f -> f (indexName r) c0 = Some c1 -> deepContent r c1 = deepContent r c0.
Proof.
  intros Hf H. unfold deepContent. f_equal.
  apply buildRecursiveContent_cong. apply (Hf _ _ _ H).
Qed.

(** The children of [r] after an operation on its own index document are
    read by the builder as before. *)
Lemma deepContent_touched (r : Ref) (t t' : list TAbstractFile) (c1 : list TAbstractFile) :
  touched (indexPath r) t t' -> childrenAt r t' = Some c1 ->
  exists c0, childrenAt r t = Some c0 /\ deepContent r c1 = deepContent r c0.
Proof.
  intros [->|d f Hl He Hu] Hc1; [eauto|].
  unfold indexPath in Hu.
  destruct (childrenAt_updateAt_parent _ _ _ _ _ Hu) as (c0 & c1' & H0 & H1 & Hf).
  rewrite H1 in Hc1. inversion Hc1; subst c1'.
  exists c0. split; [exact H0|]. eapply deepContent_edit; eauto.
Qed.

Lemma updateOrCreateLevel3Navigation_ok (r : Ref) v v' res :
  r <> [] -> forallb Str.noSlash r = true ->
  Str.includes (getExcludedFolders settings) (refName r) = false ->
  updateOrCreateLevel3Navigation r v = (v', res) -> okSince v v' ->
  touched (indexPath r) (rootChildren v) (rootChildren v')
  /\ deepSettled (rootChildren v') r.
Proof.
  intros Hr Hs Hex. rewrite updateOrCreateLevel3Navigation_eq, Hex.
  destruct (childrenAt r (rootChildren v)) as [cs|] eqn:Hcs.
  - rewrite (parsePath_index r Hr Hs). intros H Hok.
    destruct (reconcile_ok _ _ _ _ _ _ H Hok) as (_ & Ht & Hset).
    rewrite (parsePath_index r Hr Hs) in Ht, Hset.
    split; [exact Ht|].
    intros c1 Hc1.
    destruct (deepContent_touched r _ _ c1 Ht Hc1) as (c0 & H0 & Heq).
    rewrite Hcs in H0. inversion H0; subst c0. rewrite Heq. exact Hset.
  - intros H _. inversion H; subst. split; [constructor; reflexivity|].
    intros cs Hc. rewrite Hcs in Hc. discriminate.
Qed.

Lemma fileAt_Some (p : list string) (t : list TAbstractFile) (d : string) :
  fileAt p t = Some d -> exists f, lookupSegs p t = Some f.
Proof.
  unfold fileAt. destruct (lookupSegs p t) as [f|]; [eauto|discriminate].
Qed.

(** With its index document settled, the step of [r] writes nothing. *)
Lemma updateOrCreateLevel3Navigation_settled (r : Ref) v v' res :
  r <> [] -> forallb Str.noSlash r = true ->
  deepSettled (rootChildren v) r ->
  updateOrCreateLevel3Navigation r v = (v', res) -> readsOnly v v'.
Proof.
  intros Hr Hs Hset. rewrite updateOrCreateLevel3Navigation_eq.
  destruct (childrenAt r (rootChildren v)) as [cs|] eqn:Hcs.
  - destruct (Str.includes _ _).
    + intros H. inversion H. apply readsOnly_refl.
    + specialize (Hset cs Hcs).
      rewrite (parsePath_index r Hr Hs).
      destruct Hset as (d & Hd & Htrim).
      destruct (fileAt_Some _ _ _ Hd) as [f Hf]. rewrite Hf.
      apply reconcile_settled. rewrite (parsePath_index r Hr Hs).
      exists d. auto.
  - intros H. inversion H. apply readsOnly_refl.
Qed.

(** Frame: an operation away from [r] and from its index document. *)
Lemma deepSettled_touched (p : list string) (r : Ref) (t t' : list TAbstractFile) :
  touched p t t' -> r <> [] -> p <> indexPath r -> ~ strictPrefix r p ->
  deepSettled t r -> deepSettled t' r.
Proof.
  intros Ht Hr Hp Hpre Hset cs Hcs.
  rewrite (childrenAt_touched p r t t' Ht Hr Hpre) in Hcs.
  destruct (Hset cs Hcs) as (d & Hd & Htrim).
  exists d. split; [|exact Htrim].
  rewrite (fileAt_touched p (indexPath r) t t' Ht); auto.
Qed.

(** *** The step of a first-level container *)

Lemma visitSub_eq (folder : Ref) (md : string) (f : TAbstractFile) (v : Vault) :
  visitSub folder md f v =
    (fst (updateOrCreateLevel3Navigation (folder ++ [name f]) v),
     Ok (md +:+ folderLink folder f)).
Proof. reflexivity. Qed.

Lemma updateOrCreateLevel2Navigation_eq (a : string) (v : Vault) :
  updateOrCreateLevel2Navigation [a] v =
    if Str.includes (getExcludedFolders settings) a then (v, Ok tt)
    else
      let navPath := pathOf [a] +:+ "/" +:+ indexName [a] in
      let cs := default [] (childrenAt [a] (rootChildren v)) in
      match forEachM (subFolders cs)
              ("#Navigation for " +:+ a +:+ Str.nl +:+ Str.nl) (visitSub [a]) v with
      | (v1, Ok md) =>
          reconcile (lookupSegs (parsePath navPath) (rootChildren v)) navPath
            (fold_left (fun md f => md +:+ fileLink f) (mdFiles (indexName [a]) cs) md)
            v1
      | (v1, Throw e) => (v1, Throw e)
      end.
Proof.
  unfold updateOrCreateLevel2Navigation.
  destruct (Str.includes _ a); [reflexivity|].
  unfold bind, getAbstractFileByPath, getChildren. simpl.
  reflexivity.
Qed.

(** The loop over the sub-folders never throws, and hands on the text
    with one link per sub-folder. *)
Lemma forEachM_visitSub_result (folder : Ref) (l : list TAbstractFile)
    (md : string) (v v1 : Vault) (res : Result string) :
  forEachM l md (visitSub folder) v = (v1, res) ->
  res = Ok (fold_left (fun md f => md +:+ folderLink folder f) l md)
  /\ extends v v1.
Proof.
  revert md v. induction l as [|x l IH]; intros md v; simpl.
  - intros H. inversion H; subst. split; [reflexivity|apply extends_refl].
  - unfold bind. rewrite visitSub_eq.
    destruct (updateOrCreateLevel3Navigation (folder ++ [name x]) v) as [v0 r0] eqn:H3.
    simpl. intros H. destruct (IH _ _ H) as [Hres Hext].
    split; [exact Hres|].
    eapply extends_trans; [|exact Hext].
    eapply updateOrCreateLevel3Navigation_extends; eauto.
Qed.

Lemma indexPath_2 (a b : string) : indexPath [a; b] = [a; b; b +:+ ".md"].
Proof. reflexivity. Qed.

Lemma indexPath_1 (a : string) : indexPath [a] = [a; a +:+ ".md"].
Proof. reflexivity. Qed.

Lemma deepSettled_touchedMany (P : list string -> Prop) (r : Ref)
    (t t' : list TAbstractFile) :
  (forall p, P p -> p <> indexPath r /\ ~ strictPrefix r p) ->
  r <> [] -> touchedMany P t t' -> deepSettled t r -> deepSettled t' r.
Proof.
  intros HP Hr Hm. apply (touchedMany_ind_inv P (fun t => deepSettled t r)); [|exact Hm].
  intros p t0 t1 Hp Ht. destruct (HP p Hp) as [Hne Hpre].
  eapply deepSettled_touched; eauto.
Qed.

Lemma forEachM_visitSub_ok (a : string) (l : list TAbstractFile)
    (md : string) (v v1 : Vault) (res : Result string) :
  Str.noSlash a = true ->
  (forall f, In f l ->
             Str.noSlash (name f) = true
             /\ Str.includes (getExcludedFolders settings) (name f) = false) ->
  forEachM l md (visitSub [a]) v = (v1, res) -> okSince v v1 ->
  touchedMany (subIndexOf a l) (rootChildren v) (rootChildren v1)
  /\ forall f, In f l -> deepSettled (rootChildren v1) [a; name f].
Proof.
  intros Ha. revert md v. induction l as [|x l IH]; intros md v Hl; simpl.
  - intros H _. inversion H; subst. split; [constructor|]. intros f [].
  - unfold bind. rewrite visitSub_eq.
    destruct (updateOrCreateLevel3Navigation ([a] ++ [name x]) v) as [v0 r0] eqn:H3.
    simpl. intros H Hok.
    pose proof (updateOrCreateLevel3Navigation_extends _ _ _ _ H3) as Hext0.
    destruct (forEachM_visitSub_result _ _ _ _ _ _ H) as [_ Hext1].
    destruct (okSince_split _ _ _ Hext0 Hext1 Hok) as [Hok0 Hok1].
    destruct (Hl x (or_introl eq_refl)) as [Hnx Hex].
    assert (Hs : forallb Str.noSlash [a; name x] = true)
      by (simpl; rewrite Ha, Hnx; reflexivity).
    destruct (updateOrCreateLevel3Navigation_ok [a; name x] v v0 r0
                ltac:(discriminate) Hs Hex H3 Hok0) as [Ht0 Hset0].
    destruct (IH _ v0 (fun f Hf => Hl f (or_intror Hf)) H Hok1) as [Hm Hall].
    split.
    + eapply touchedMany_step.
      * exists x. split; [left; reflexivity|reflexivity].
      * exact Ht0.
      * eapply touchedMany_weaken; [|exact Hm].
        intros p (f & Hf & Hp). exists f. split; [right; exact Hf|exact Hp].
    + intros f [<-|Hf]; [|apply Hall, Hf].
      destruct (in_dec String.string_dec (name x) (map name l)) as [Hin|Hnin].
      * apply in_map_iff in Hin. destruct Hin as (g & Hg & Hgl).
        rewrite <- Hg. apply Hall, Hgl.
      * eapply (deepSettled_touchedMany (subIndexOf a l));
          [|discriminate|exact Hm|exact Hset0].
        intros p (g & Hg & ->).
        assert (Hne : name g <> name x).
        { intros E. apply Hnin. rewrite <- E. apply in_map, Hg. }
        split.
        -- rewrite !indexPath_2. congruence.
        -- intros (y & rest & E). rewrite indexPath_2 in E. simpl in E. congruence.
Qed.

Lemma forEachM_visitSub_settled (a : string) (l : list TAbstractFile)
    (md : string) (v v1 : Vault) (res : Result string) :
  Str.noSlash a = true ->
  (forall f, In f l ->
             Str.noSlash (name f) = true /\ deepSettled (rootChildren v) [a; name f]) ->
  forEachM l md (visitSub [a]) v = (v1, res) -> readsOnly v v1.
Proof.
  intros Ha. revert md v. induction l as [|x l IH]; intros md v Hl; simpl.
  - intros H. inversion H; subst. apply readsOnly_refl.
  - unfold bind. rewrite visitSub_eq.
    destruct (updateOrCreateLevel3Navigation ([a] ++ [name x]) v) as [v0 r0] eqn:H3.
    simpl. intros H.
    destruct (Hl x (or_introl eq_refl)) as [Hnx Hset].
    assert (Hs : forallb Str.noSlash [a; name x] = true)
      by (simpl; rewrite Ha, Hnx; reflexivity).
    pose proof (updateOrCreateLevel3Navigation_settled [a; name x] v v0 r0
                  ltac:(discriminate) Hs Hset H3) as Hr0.
    eapply readsOnly_trans; [exact Hr0|].
    apply (IH (md +:+ folderLink [a] x) v0); [|exact H].
    intros f Hf. destruct (Hl f (or_intror Hf)) as [Hnf Hsf].
    split; [exact Hnf|]. destruct Hr0 as [-> _]. exact Hsf.
Qed.

Lemma view_touched_under (a : string) (p : list string) (t t' : list TAbstractFile) :
  touched p t t' -> under a p ->
  view (indexName [a]) (default [] (childrenAt [a] t'))
  = view (indexName [a]) (default [] (childrenAt [a] t)).
Proof.
  intros [->|d f Hl He Hu] Hp; [reflexivity|].
  destruct Hp as [->|[b ->]].
  - change (indexPath [a]) with ([a] ++ [indexName [a]]) in Hu.
    destruct (childrenAt_updateAt_parent _ _ _ _ _ Hu) as (c0 & c1 & H0 & H1 & Hf).
    rewrite H0, H1. simpl. eapply view_edit; eauto.
  - change (indexPath [a; b]) with ([a] ++ b :: indexName [a; b] :: []) in Hu.
    destruct (childrenAt_updateAt_above _ _ _ _ _ _ _ Hu)
      as (c0 & cb & cb' & H0 & Hb & H1).
    rewrite H0, H1. simpl. apply (view_replace_folder _ b cb cb' c0 Hb).
Qed.

Lemma view_touchedMany_under (a : string) (t t' : list TAbstractFile) :
  touchedMany (under a) t t' ->
  view (indexName [a]) (default [] (childrenAt [a] t'))
  = view (indexName [a]) (default [] (childrenAt [a] t)).
Proof.
  induction 1 as [|t t1 t2 p Hp Ht Hm IH]; [reflexivity|].
  rewrite IH. eapply view_touched_under; eauto.
Qed.

Lemma subFolders_In (cs : list TAbstractFile) (f : TAbstractFile) :
  In f (subFolders cs) <-> In f cs /\ keptFolder f = true.
Proof. unfold subFolders. rewrite sortBy_In, List.filter_In. reflexivity. Qed.

Lemma subFolders_facts (cs : list TAbstractFile) (f : TAbstractFile) :
  wfTree cs = true -> In f (subFolders cs) ->
  Str.noSlash (name f) = true
  /\ Str.includes (getExcludedFolders settings) (name f) = false
  /\ In (name f) (keptNames cs).
Proof.
  intros Hwf Hf. pose proof Hf as Hf'. apply subFolders_In in Hf. destruct Hf as [Hin Hk].
  unfold wfTree in Hwf. rewrite forallb_forall in Hwf. specialize (Hwf f Hin).
  unfold keptFolder, notExcluded in Hk. apply andb_true_iff in Hk.
  destruct Hk as [Hfolder Hne]. apply negb_true_iff in Hne.
  destruct f as [n b e d|n cn]; [discriminate|]. simpl in *.
  apply andb_true_iff in Hwf. destruct Hwf as [Hn _].
  split; [exact Hn|]. split; [exact Hne|].
  rewrite <- filter_keptFolder_names.
  change n with (name (TFolder n cn)). apply in_map.
  apply List.filter_In. split; [exact Hin|].
  unfold keptFolder, notExcluded. simpl. rewrite Hne. reflexivity.
Qed.

Lemma keptNames_In (cs : list TAbstractFile) (b : string) :
  In b (keptNames cs) -> exists f, In f (subFolders cs) /\ name f = b.
Proof.
  rewrite <- filter_keptFolder_names. intros H. apply in_map_iff in H.
  destruct H as (f & Hn & Hf). exists f. split; [|exact Hn].
  unfold subFolders. apply sortBy_In, Hf.
Qed.

Lemma wfTree_default (a : string) (t : list TAbstractFile) :
  wfTree t = true -> wfTree (default [] (childrenAt [a] t)) = true.
Proof.
  intros Hwf. destruct (childrenAt [a] t) as [cs|] eqn:E; [|reflexivity].
  simpl. apply (wfTree_childrenAt _ _ _ Hwf E).
Qed.

Lemma touchedMany_wf P (t t' : list TAbstractFile) :
  touchedMany P t t' -> wfTree t = true -> wfTree t' = true.
Proof.
  apply (touchedMany_ind_inv P (fun t => wfTree t = true)).
  intros p t0 t1 _ Ht. eapply wfTree_touched; eauto.
Qed.

Lemma touchedMany_folderNames P (t t' : list TAbstractFile) :
  touchedMany P t t' -> folderNames t' = folderNames t.
Proof.
  induction 1 as [|t t1 t2 p Hp Ht Hm IH]; [reflexivity|].
  rewrite IH. eapply folderNames_touched; eauto.
Qed.

Lemma updateOrCreateLevel2Navigation_extends (a : string) v v' res :
  updateOrCreateLevel2Navigation [a] v = (v', res) -> extends v v'.
Proof.
  rewrite updateOrCreateLevel2Navigation_eq.
  destruct (Str.includes _ a); [intros H; inversion H; apply extends_refl|].
  cbv zeta.
  destruct (forEachM _ _ _ v) as [v1 r1] eqn:Hloop.
  destruct (forEachM_visitSub_result _ _ _ _ _ _ Hloop) as [-> Hext].
  intros H. eapply extends_trans; [exact Hext|].
  eapply reconcile_extends; eauto.
Qed.

(** When its store operations all succeed, the step of the first-level
    container [a] ends normally and leaves its index document and those of
    its sub-folders settled. *)
Lemma updateOrCreateLevel2Navigation_ok (a : string) v v' res :
  Str.noSlash a = true -> wfTree (rootChildren v) = true ->
  Str.includes (getExcludedFolders settings) a = false ->
  updateOrCreateLevel2Navigation [a] v = (v', res) -> okSince v v' ->
  res = Ok tt
  /\ touchedMany (under a) (rootChildren v) (rootChildren v')
  /\ topSettled (rootChildren v') a.
Proof.
  intros Ha Hwf Hex. rewrite updateOrCreateLevel2Navigation_eq, Hex. cbv zeta.
  set (cs := default [] (childrenAt [a] (rootChildren v))).
  destruct (forEachM _ _ _ v) as [v1 r1] eqn:Hloop.
  destruct (forEachM_visitSub_result _ _ _ _ _ _ Hloop) as [-> Hext1].
  intros H Hok.
  pose proof (reconcile_extends _ _ _ _ _ _ H) as Hext2.
  destruct (okSince_split _ _ _ Hext1 Hext2 Hok) as [Hok1 Hok2].
  assert (Hwfcs : wfTree cs = true) by (apply wfTree_default, Hwf).
  destruct (forEachM_visitSub_ok a _ _ _ _ _ Ha
              (fun f Hf => let '(conj h1 (conj h2 _)) := subFolders_facts cs f Hwfcs Hf in
                           conj h1 h2) Hloop Hok1) as [Hm Hdeep].
  assert (Hs : forallb Str.noSlash [a] = true) by (simpl; rewrite Ha; reflexivity).
  rewrite (parsePath_index [a] ltac:(discriminate) Hs) in H.
  destruct (reconcile_ok _ _ _ _ _ _ H Hok2) as (Hres & Ht & Hset).
  rewrite (parsePath_index [a] ltac:(discriminate) Hs) in Ht, Hset.
  assert (Hunder : touchedMany (under a) (rootChildren v) (rootChildren v')).
  { eapply touchedMany_trans.
    - eapply touchedMany_weaken; [|exact Hm].
      intros p (f & _ & ->). right. exists (name f). reflexivity.
    - eapply touchedMany_one; [|exact Ht]. left. reflexivity. }
  split; [exact Hres|]. split; [exact Hunder|].
  pose proof (view_touchedMany_under a _ _ Hunder) as Hview.
  fold cs in Hview.
  split.
  - rewrite (level2Md_cong [a] a (indexName [a]) _ cs Hview). exact Hset.
  - intros b Hb.
    rewrite (keptNames_view (indexName [a])), Hview,
      <- (keptNames_view (indexName [a])) in Hb.
    destruct (keptNames_In cs b Hb) as (f & Hf & <-).
    eapply deepSettled_touched; [exact Ht|discriminate| | |apply Hdeep, Hf].
    + rewrite indexPath_1, indexPath_2. congruence.
    + intros (y & rest & E). rewrite indexPath_1 in E. simpl in E. congruence.
Qed.

(** With everything below [a] settled, the step of [a] writes nothing. *)
Lemma updateOrCreateLevel2Navigation_settled (a : string) v v' res :
  Str.noSlash a = true -> wfTree (rootChildren v) = true ->
  topSettled (rootChildren v) a ->
  updateOrCreateLevel2Navigation [a] v = (v', res) -> readsOnly v v'.
Proof.
  intros Ha Hwf [Htop Hdeep]. rewrite updateOrCreateLevel2Navigation_eq.
  destruct (Str.includes _ a); [intros H; inversion H; apply readsOnly_refl|].
  cbv zeta.
  set (cs := default [] (childrenAt [a] (rootChildren v))) in *.
  destruct (forEachM _ _ _ v) as [v1 r1] eqn:Hloop.
  destruct (forEachM_visitSub_result _ _ _ _ _ _ Hloop) as [-> _].
  assert (Hwfcs : wfTree cs = true) by (apply wfTree_default, Hwf).
  assert (Hr1 : readsOnly v v1).
  { eapply (forEachM_visitSub_settled a); [exact Ha| |exact Hloop].
    intros f Hf. destruct (subFolders_facts cs f Hwfcs Hf) as (Hn & _ & Hk).
    split; [exact Hn|apply Hdeep, Hk]. }
  assert (Hs : forallb Str.noSlash [a] = true) by (simpl; rewrite Ha; reflexivity).
  rewrite (parsePath_index [a] ltac:(discriminate) Hs).
  destruct Htop as (d & Hd & Htrim).
  destruct (fileAt_Some _ _ _ Hd) as [f Hf]. rewrite Hf.
  intros H. eapply readsOnly_trans; [exact Hr1|].
  eapply reconcile_settled; [|exact H].
  rewrite (parsePath_index [a] ltac:(discriminate) Hs).
  destruct Hr1 as [-> _]. exists d. split; [exact Hd|exact Htrim].
Qed.

(** *** The pass *)

Lemma isIndexPathb_correct (p : list string) :
  isIndexPath p -> isIndexPathb p = true.
Proof.
  intros (a & [->|[b ->]]); simpl; apply String.eqb_refl.
Qed.

Lemma updateOrCreateRootNavigation_eq (v : Vault) :
  updateOrCreateRootNavigation v =
    reconcile (lookupSegs rootPath (rootChildren v))
      (navigationFileName settings +:+ ".md") (rootMd (rootChildren v)) v.
Proof. reflexivity. Qed.

Lemma visitChild_eq (c : TAbstractFile) (v : Vault) :
  visitChild (getExcludedFolders settings) c v =
    if keptFolder c then updateOrCreateLevel2Navigation [name c] v else (v, Ok tt).
Proof.
  unfold visitChild, keptFolder, notExcluded.
  destruct (isTFolder c && _); reflexivity.
Qed.

Lemma visitChild_extends (c : TAbstractFile) v v' res :
  visitChild (getExcludedFolders settings) c v = (v', res) -> extends v v'.
Proof.
  rewrite visitChild_eq. destruct (keptFolder c).
  - apply updateOrCreateLevel2Navigation_extends.
  - intros H. inversion H. apply extends_refl.
Qed.

Lemma forEachM_visitChild_extends (l : list TAbstractFile) v v' res :
  forEachM l tt (fun _ c => visitChild (getExcludedFolders settings) c) v = (v', res) ->
  extends v v'.
Proof.
  revert v. induction l as [|x l IH]; intros v; simpl.
  - intros H. inversion H. apply extends_refl.
  - unfold bind.
    destruct (visitChild _ x v) as [v0 [[]|e]] eqn:Hx; intros H.
    + eapply extends_trans; [eapply visitChild_extends; eauto|eauto].
    + inversion H; subst. eapply visitChild_extends; eauto.
Qed.

(** Frame: an operation below another first-level folder. *)
Lemma topSettled_touched (p : list string) (a a' : string)
    (t t' : list TAbstractFile) :
  touched p t t' -> under a' p -> a' <> a -> topSettled t a -> topSettled t' a.
Proof.
  intros Ht Hp Hne [Htop Hdeep].
  assert (Hhead : exists rest, p = a' :: rest).
  { destruct Hp as [->|[b ->]]; eexists; reflexivity. }
  destruct Hhead as [rest ->].
  assert (Hc : childrenAt [a] t' = childrenAt [a] t).
  { eapply childrenAt_touched; [exact Ht|discriminate|].
    intros (y & r & E). simpl in E. congruence. }
  unfold topSettled. rewrite Hc. split.
  - destruct Htop as (d & Hd & Htrim). exists d. split; [|exact Htrim].
    rewrite (fileAt_touched _ (indexPath [a]) t t' Ht); [exact Hd|].
    rewrite indexPath_1. congruence.
  - intros b Hb. eapply deepSettled_touched; [exact Ht|discriminate| | |apply Hdeep, Hb].
    + rewrite indexPath_2. congruence.
    + intros (y & r & E). simpl in E. congruence.
Qed.

Lemma topSettled_touchedMany (l : list TAbstractFile) (a : string)
    (t t' : list TAbstractFile) :
  (forall c, In c l -> keptFolder c = true -> name c <> a) ->
  touchedMany (visitedUnder l) t t' -> topSettled t a -> topSettled t' a.
Proof.
  intros Hl.
  apply (touchedMany_ind_inv (visitedUnder l) (fun t => topSettled t a)).
  intros p t0 t1 (c & Hc & Hk & Hu) Ht. eapply topSettled_touched; eauto.
Qed.

Lemma forEachM_visitChild_ok (l : list TAbstractFile) v v' res :
  wfTree (rootChildren v) = true ->
  (forall c, In c l -> keptFolder c = true -> Str.noSlash (name c) = true) ->
  forEachM l tt (fun _ c => visitChild (getExcludedFolders settings) c) v = (v', res) ->
  okSince v v' ->
  res = Ok tt
  /\ touchedMany (visitedUnder l) (rootChildren v) (rootChildren v')
  /\ forall c, In c l -> keptFolder c = true -> topSettled (rootChildren v') (name c).
Proof.
  revert v. induction l as [|x l IH]; intros v Hwf Hl; simpl.
  - intros H _. inversion H; subst. split; [reflexivity|]. split; [constructor|].
    intros c [].
  - unfold bind.
    destruct (visitChild _ x v) as [v0 r0] eqn:Hx. intros H Hok.
    pose proof (visitChild_extends _ _ _ _ Hx) as Hext0.
    assert (Hstep : r0 = Ok tt
                    /\ touchedMany (visitedUnder (x :: l)) (rootChildren v) (rootChildren v0)
                    /\ (keptFolder x = true -> topSettled (rootChildren v0) (name x))
                    /\ (r0 = Ok tt -> okSince v0 v')
                    /\ (r0 = Ok tt ->
                        forEachM l tt
                          (fun _ c => visitChild (getExcludedFolders settings) c) v0
                        = (v', res))).
    { destruct r0 as [[]|e].
      - pose proof (forEachM_visitChild_extends _ _ _ _ H) as Hext1.
        destruct (okSince_split _ _ _ Hext0 Hext1 Hok) as [Hok0 Hok1].
        rewrite visitChild_eq in Hx. destruct (keptFolder x) eqn:Hk.
        + destruct (updateOrCreateLevel2Navigation_ok (name x) v v0 (Ok tt)
                      (Hl x (or_introl eq_refl) Hk) Hwf) as (_ & Hm & Htop);
            [|exact Hx|exact Hok0|].
          { unfold keptFolder, notExcluded in Hk. apply andb_true_iff in Hk.
            destruct Hk as [_ Hk]. apply negb_true_iff in Hk. exact Hk. }
          split; [reflexivity|]. split; [|auto].
          eapply touchedMany_weaken; [|exact Hm].
          intros p Hp. exists x. split; [left; reflexivity|]. auto.
        + inversion Hx; subst. split; [reflexivity|]. split; [constructor|].
          split; [discriminate|auto].
      - inversion H; subst. exfalso.
        rewrite visitChild_eq in Hx. destruct (keptFolder x) eqn:Hk.
        + destruct (updateOrCreateLevel2Navigation_ok (name x) v v' (Throw e)
                      (Hl x (or_introl eq_refl) Hk) Hwf) as (Hres & _);
            [|exact Hx|exact Hok|discriminate].
          unfold keptFolder, notExcluded in Hk. apply andb_true_iff in Hk.
          destruct Hk as [_ Hk]. apply negb_true_iff in Hk. exact Hk.
        + discriminate. }
    destruct Hstep as (-> & Hm0 & Htop0 & Hok1 & Hrest).
    specialize (Hok1 eq_refl). specialize (Hrest eq_refl).
    destruct (IH v0 (touchedMany_wf _ _ _ Hm0 Hwf)
                (fun c Hc => Hl c (or_intror Hc)) Hrest Hok1) as (Hres & Hm1 & Hall).
    split; [exact Hres|]. split.
    + eapply touchedMany_trans; [exact Hm0|].
      eapply touchedMany_weaken; [|exact Hm1].
      intros p (c & Hc & Hk & Hu). exists c. split; [right; exact Hc|]. auto.
    + intros c [<-|Hc] Hk; [|apply Hall; assumption].
      destruct (in_dec String.string_dec (name x)
                  (map name (List.filter keptFolder l))) as [Hin|Hnin].
      * apply in_map_iff in Hin. destruct Hin as (g & Hg & Hgl).
        apply List.filter_In in Hgl. destruct Hgl as [Hgl Hgk].
        rewrite <- Hg. apply Hall; assumption.
      * eapply (topSettled_touchedMany l); [|exact Hm1|apply Htop0, Hk].
        intros g Hg Hgk E. apply Hnin. rewrite <- E. apply in_map.
        apply List.filter_In. auto.
Qed.

Lemma forEachM_visitChild_settled (l : list TAbstractFile) v v' res :
  wfTree (rootChildren v) = true ->
  (forall c, In c l -> keptFolder c = true ->
             Str.noSlash (name c) = true /\ topSettled (rootChildren v) (name c)) ->
  forEachM l tt (fun _ c => visitChild (getExcludedFolders settings) c) v = (v', res) ->
  readsOnly v v'.
Proof.
  revert v. induction l as [|x l IH]; intros v Hwf Hl; simpl.
  - intros H. inversion H. apply readsOnly_refl.
  - unfold bind.
    destruct (visitChild _ x v) as [v0 r0] eqn:Hx. intros H.
    assert (Hr0 : readsOnly v v0).
    { rewrite visitChild_eq in Hx. destruct (keptFolder x) eqn:Hk.
      - destruct (Hl x (or_introl eq_refl) Hk) as [Hn Htop].
        eapply updateOrCreateLevel2Navigation_settled; eauto.
      - inversion Hx. apply readsOnly_refl. }
    destruct r0 as [[]|e]; [|inversion H; subst; exact Hr0].
    eapply readsOnly_trans; [exact Hr0|].
    pose proof Hr0 as [Ht0 _].
    apply (IH v0); [rewrite Ht0; exact Hwf| |exact H].
    intros c Hc Hk. rewrite Ht0. apply Hl; [right; exact Hc|exact Hk].
Qed.

Lemma wfTree_kept_noSlash (t : list TAbstractFile) (c : TAbstractFile) :
  wfTree t = true -> In c t -> keptFolder c = true -> Str.noSlash (name c) = true.
Proof.
  intros Hwf Hc Hk. unfold wfTree in Hwf. rewrite forallb_forall in Hwf.
  specialize (Hwf c Hc). unfold keptFolder in Hk. apply andb_true_iff in Hk.
  destruct Hk as [Hf _]. destruct c as [n b e d|n cn]; [discriminate|].
  simpl in *. apply andb_true_iff in Hwf. apply Hwf.
Qed.

Lemma settled_touchedMany (P : list string -> Prop) (q : list string) (md : string)
    (t t' : list TAbstractFile) :
  (forall p, P p -> q <> p) ->
  touchedMany P t t' -> settled t q md -> settled t' q md.
Proof.
  intros HP. apply (touchedMany_ind_inv P (fun t => settled t q md)).
  intros p t0 t1 Hp Ht (d & Hd & Htrim). exists d. split; [|exact Htrim].
  rewrite (fileAt_touched p q t0 t1 Ht (HP p Hp)). exact Hd.
Qed.

(** A pass whose store operations all succeed ends normally and leaves
    the index documents of the kept first-level and second-level folders
    settled; the root index document too, unless its path is also the path
    of one of those. *)
Lemma initializeStructure_ok v v' res :
  wfTree (rootChildren v) = true ->
  initializeStructure v = (v', res) -> okSince v v' ->
  res = Ok tt
  /\ wfTree (rootChildren v') = true
  /\ (forall a, In a (keptNames (rootChildren v')) -> topSettled (rootChildren v') a)
  /\ (isIndexPathb rootPath = false ->
      settled (rootChildren v') rootPath (rootMd (rootChildren v'))).
Proof.
  intros Hwf. rewrite initializeStructure_eq.
  destruct (updateOrCreateRootNavigation v) as [v1 r1] eqn:Hroot.
  rewrite updateOrCreateRootNavigation_eq in Hroot.
  pose proof (reconcile_extends _ _ _ _ _ _ Hroot) as Hext0.
  intros H Hok.
  assert (Hok0 : okSince v v1).
  { destruct r1 as [[]|e].
    - pose proof (forEachM_visitChild_extends _ _ _ _ H) as Hext1.
      apply (okSince_split _ _ _ Hext0 Hext1 Hok).
    - inversion H; subst. exact Hok. }
  destruct (reconcile_ok _ _ _ _ _ _ Hroot Hok0) as (-> & Ht0 & Hset0).
  fold rootPath in Ht0, Hset0.
  pose proof (forEachM_visitChild_extends _ _ _ _ H) as Hext1.
  destruct (okSince_split _ _ _ Hext0 Hext1 Hok) as [_ Hok1].
  pose proof (wfTree_touched _ _ _ Ht0 Hwf) as Hwf1.
  destruct (forEachM_visitChild_ok _ _ _ _ Hwf1
              (fun c Hc Hk => wfTree_kept_noSlash _ c Hwf1 Hc Hk) H Hok1)
    as (Hres & Hm & Hall).
  split; [exact Hres|].
  split; [apply (touchedMany_wf _ _ _ Hm Hwf1)|].
  pose proof (touchedMany_folderNames _ _ _ Hm) as Hfn.
  split.
  - intros a Ha. unfold keptNames in Ha. rewrite Hfn in Ha.
    fold (keptNames (rootChildren v1)) in Ha.
    rewrite <- filter_keptFolder_names in Ha. apply in_map_iff in Ha.
    destruct Ha as (c & <- & Hc). apply List.filter_In in Hc.
    destruct Hc as [Hc Hk]. apply Hall; assumption.
  - intros Hnot.
    rewrite (rootMd_cong (rootChildren v') (rootChildren v)).
    + eapply (settled_touchedMany (visitedUnder (rootChildren v1))); [|exact Hm|exact Hset0].
      intros p (c & _ & _ & Hu) E. subst p.
      rewrite isIndexPathb_correct in Hnot; [discriminate|].
      exists (name c). exact Hu.
    + rewrite Hfn. apply (folderNames_touched _ _ _ Ht0).
Qed.

(** On a vault where everything is settled a pass writes nothing, whatever
    the host answers. *)
Lemma initializeStructure_settled v v' res :
  wfTree (rootChildren v) = true -> passSettled (rootChildren v) ->
  initializeStructure v = (v', res) -> readsOnly v v'.
Proof.
  intros Hwf [Hroot Hall]. rewrite initializeStructure_eq.
  destruct (updateOrCreateRootNavigation v) as [v1 r1] eqn:Hr.
  rewrite updateOrCreateRootNavigation_eq in Hr.
  destruct Hroot as (d & Hd & Htrim).
  destruct (fileAt_Some _ _ _ Hd) as [f Hf]. rewrite Hf in Hr.
  assert (Hr1 : readsOnly v v1).
  { eapply reconcile_settled; [|exact Hr]. exists d. auto. }
  destruct r1 as [[]|e]; intros H; [|inversion H; subst; exact Hr1].
  eapply readsOnly_trans; [exact Hr1|].
  pose proof Hr1 as [Ht1 _].
  eapply forEachM_visitChild_settled; [rewrite Ht1; exact Hwf| |exact H].
  intros c Hc Hk. rewrite Ht1 in Hc |- *. split.
  - eapply wfTree_kept_noSlash; eauto.
  - apply Hall. rewrite <- filter_keptFolder_names. apply in_map.
    apply List.filter_In. auto.
Qed.

Lemma lookupSegs_name (p : list string) (t : list TAbstractFile) (c : TAbstractFile) :
  lookupSegs p t = Some c -> name c = List.last p "".
Proof.
  revert t. induction p as [|n rest IH]; intros t; [discriminate|].
  rewrite lookupSegs_cons.
  destruct (findChild n t) as [c0|] eqn:Hfind; [|discriminate].
  destruct rest as [|x rest].
  - intros H. inversion H; subst. apply (findChild_name _ _ _ Hfind).
  - destruct c0 as [? ? ? ?|n0 cn]; [discriminate|].
    intros H. apply IH in H. exact H.
Qed.

Lemma childrenAt_folder_kept (a : string) (r : list string)
    (t cs : list TAbstractFile) :
  childrenAt (a :: r) t = Some cs ->
  Str.includes (getExcludedFolders settings) a = false ->
  In a (keptNames t)
  /\ exists ca, childrenAt [a] t = Some ca /\ childrenAt r ca = Some cs.
Proof.
  intros Hc Hex. unfold childrenAt in Hc. rewrite lookupSegs_cons in Hc.
  destruct (findChild a t) as [c0|] eqn:Hfind; [|discriminate].
  pose proof (findChild_name _ _ _ Hfind) as Hn.
  pose proof (findChild_In _ _ _ Hfind) as Hin.
  assert (Hfolder : exists ca, c0 = TFolder a ca
                               /\ childrenAt r ca = Some cs).
  { destruct r as [|x r].
    - destruct c0 as [? ? ? ?|n0 cn]; [discriminate|]. simpl in Hn. subst n0.
      inversion Hc; subst. exists cs. auto.
    - destruct c0 as [? ? ? ?|n0 cn]; [discriminate|]. simpl in Hn. subst n0.
      exists cn. split; [reflexivity|]. exact Hc. }
  destruct Hfolder as (ca & -> & Hr). split.
  - rewrite <- filter_keptFolder_names.
    change a with (name (TFolder a ca)). apply in_map.
    apply List.filter_In. split; [exact Hin|].
    unfold keptFolder, notExcluded. simpl. rewrite Hex. reflexivity.
  - exists ca. split; [|exact Hr].
    unfold childrenAt. rewrite lookupSegs_cons, Hfind. reflexivity.
Qed.

(** C2, amended.  On a well-formed vault, when the path of the root index
    document is not also the path of the index document of a first-level
    or second-level folder and every store operation of the first pass
    succeeded, a second pass issues no create and no overwrite: it only
    reads, and leaves the tree as it is. *)
Theorem second_pass_writes_nothing v v1 r1 v2 r2 :
  wfTree (rootChildren v) = true ->
  isIndexPathb rootPath = false ->
  initializeStructure v = (v1, r1) ->
  okSince v v1 ->
  initializeStructure v1 = (v2, r2) ->
  rootChildren v2 = rootChildren v1
  /\ exists l, calls v2 = calls v1 ++ l
               /\ Forall (fun c => isWrite (callOp c) = false) l.
Proof.
  intros Hwf Hroot H1 Hok H2.
  destruct (initializeStructure_ok v v1 r1 Hwf H1 Hok) as (_ & Hwf1 & Hall & Hset).
  apply (initializeStructure_settled v1 v2 r2 Hwf1); [|exact H2].
  split; [apply Hset, Hroot|exact Hall].
Qed.

(** *** What the listings leave out *)

Lemma treeFilter_TFolder keep (n : string) (cs : list TAbstractFile) :
  treeFilter keep (TFolder n cs) = TFolder n (listFilter keep cs).
Proof.
  simpl. f_equal. unfold listFilter.
  induction cs as [|x cs IH]; simpl; [reflexivity|].
  destruct (keep x); simpl; rewrite IH; reflexivity.
Qed.

Lemma name_treeFilter keep (c : TAbstractFile) : name (treeFilter keep c) = name c.
Proof. destruct c; reflexivity. Qed.

Lemma isTFolder_treeFilter keep (c : TAbstractFile) :
  isTFolder (treeFilter keep c) = isTFolder c.
Proof. destruct c; reflexivity. Qed.

Lemma keptFolder_treeFilter keep (c : TAbstractFile) :
  keptFolder (treeFilter keep c) = keptFolder c.
Proof.
  unfold keptFolder, notExcluded.
  rewrite isTFolder_treeFilter, name_treeFilter. reflexivity.
Qed.

Lemma sortBy_ext {A} (k k' : A -> string) (l : list A) :
  (forall x, k x = k' x) -> sortBy k l = sortBy k' l.
Proof.
  intros H. induction l as [|x l IH]; simpl; [reflexivity|].
  rewrite IH. generalize (sortBy k' l). intros s.
  induction s as [|y s IHs]; simpl; [reflexivity|].
  rewrite !H, IHs. reflexivity.
Qed.

Lemma filter_keptFile_listFilter keep (ex : string) (cs : list TAbstractFile) :
  (forall c, keptFile ex c = true -> keep c = true) ->
  List.filter (keptFile ex) (listFilter keep cs) = List.filter (keptFile ex) cs.
Proof.
  intros Hk. unfold listFilter.
  induction cs as [|c cs IH]; simpl; [reflexivity|].
  destruct (keep c) eqn:K; simpl.
  - destruct c as [n b e d|n cn]; simpl.
    + destruct (keptFile ex (TFile n b e d)); rewrite IH; reflexivity.
    + change (keptFile ex (TFolder n (listFilter keep cn))) with false.
      change (keptFile ex (TFolder n cn)) with false. exact IH.
  - destruct (keptFile ex c) eqn:F; [rewrite (Hk c F) in K; discriminate|exact IH].
Qed.

Lemma filter_keptFolder_listFilter keep (cs : list TAbstractFile) :
  (forall c, keptFolder c = true -> keep c = true) ->
  List.filter keptFolder (listFilter keep cs)
  = map (treeFilter keep) (List.filter keptFolder cs).
Proof.
  intros Hk. unfold listFilter.
  rewrite (filter_map_comm (treeFilter keep) keptFolder).
  rewrite (List.filter_ext _ keptFolder) by (intros c; apply keptFolder_treeFilter).
  rewrite (filter_filter_implied keptFolder keep _ Hk). reflexivity.
Qed.

(** The builder reads nothing of what [keep] rejects, whenever [keep]
    accepts the folders and the files that a listing keeps. *)
Lemma buildRecursiveContent_treeFilter keep (ex : string) (folder : TAbstractFile) :
  (forall c, keptFolder c = true -> keep c = true) ->
  (forall c, keptFile ex c = true -> keep c = true) ->
  forall level,
    buildRecursiveContent (treeFilter keep folder) ex level
    = buildRecursiveContent folder ex level.
Proof.
  intros Hfolder Hfile.
  induction folder as [n b e d|n cs IH] using TAbstractFile_ind; intros level;
    [reflexivity|].
  rewrite treeFilter_TFolder, !buildRecursiveContent_eq.
  rewrite (filter_keptFile_listFilter keep ex cs Hfile).
  rewrite (filter_keptFolder_listFilter keep cs Hfolder).
  f_equal.
  rewrite <- (sortBy_map (treeFilter keep) name).
  rewrite (sortBy_ext (fun a => name (treeFilter keep a)) name)
    by (intros x; apply name_treeFilter).
  assert (Hsub : Forall (fun c => forall level,
                           buildRecursiveContent (treeFilter keep c) ex level
                           = buildRecursiveContent c ex level)
                   (sortBy name (List.filter keptFolder cs))).
  { apply sortBy_Forall. rewrite List.Forall_forall in IH |- *.
    intros c Hc. apply List.filter_In in Hc. apply IH, Hc. }
  induction Hsub as [|c l Hc Hl IHl]; simpl; [reflexivity|].
  rewrite Hc, IHl. unfold subLine. rewrite name_treeFilter. reflexivity.
Qed.

Lemma keptFolder_notExcludedFolder (c : TAbstractFile) :
  keptFolder c = true -> notExcludedFolder c = true.
Proof.
  unfold keptFolder, notExcluded, notExcludedFolder.
  destruct (isTFolder c); simpl; [|reflexivity]. auto.
Qed.

Lemma keptFile_notExcludedFolder (ex : string) (c : TAbstractFile) :
  keptFile ex c = true -> notExcludedFolder c = true.
Proof.
  unfold keptFile, notExcludedFolder, isTFile.
  destruct (isTFolder c); simpl; [discriminate|reflexivity].
Qed.

Lemma keptFolder_notNamed (ex : string) (c : TAbstractFile) :
  keptFolder c = true -> notNamed ex c = true.
Proof.
  unfold keptFolder, notNamed, isTFile.
  destruct (isTFolder c); simpl; [reflexivity|discriminate].
Qed.

Lemma keptFile_notNamed (ex : string) (c : TAbstractFile) :
  keptFile ex c = true -> notNamed ex c = true.
Proof.
  unfold keptFile, notNamed. destruct (isTFile c); simpl; [|reflexivity].
  destruct (String.eqb (name c) ex); simpl; [|reflexivity].
  rewrite andb_false_r. discriminate.
Qed.

Lemma keptNames_listFilter keep (cs : list TAbstractFile) :
  (forall c, keptFolder c = true -> keep c = true) ->
  keptNames (listFilter keep cs) = keptNames cs.
Proof.
  intros Hk. rewrite <- !filter_keptFolder_names.
  rewrite (filter_keptFolder_listFilter keep cs Hk), map_map.
  apply map_ext. intros c. apply name_treeFilter.
Qed.

Lemma mdBasenames_listFilter keep (ex : string) (cs : list TAbstractFile) :
  (forall c, keptFile ex c = true -> keep c = true) ->
  mdBasenames ex (listFilter keep cs) = mdBasenames ex cs.
Proof.
  intros Hk. unfold mdBasenames.
  rewrite (filter_keptFile_listFilter keep ex cs Hk). reflexivity.
Qed.

Lemma level2Md_names (folder : Ref) (folderName ex : string) (cs : list TAbstractFile) :
  level2Md folder folderName ex cs =
    fold_left (fun md b => md +:+ "- [[" +:+ b +:+ "]]" +:+ Str.nl)
      (sortBy (fun n => n) (mdBasenames ex cs))
      (fold_left
         (fun md n => md +:+ "- [[" +:+ pathOf (folder ++ [n]) +:+ "/" +:+ n +:+ "|"
                         +:+ n +:+ "]]" +:+ Str.nl)
         (sortBy (fun n => n) (keptNames cs))
         ("#Navigation for " +:+ folderName +:+ Str.nl +:+ Str.nl)).
Proof.
  unfold level2Md.
  rewrite (fold_left_links fileLink basename
             (fun b => "- [[" +:+ b +:+ "]]" +:+ Str.nl) (mdFiles ex cs))
    by reflexivity.
  rewrite (fold_left_links (folderLink folder) name
             (fun n => "- [[" +:+ pathOf (folder ++ [n]) +:+ "/" +:+ n +:+ "|" +:+ n
                         +:+ "]]" +:+ Str.nl) (subFolders cs))
    by reflexivity.
  rewrite mdFiles_basenames, subFolders_names. reflexivity.
Qed.

Lemma level2Md_listFilter keep (folder : Ref) (folderName ex : string)
    (cs : list TAbstractFile) :
  (forall c, keptFolder c = true -> keep c = true) ->
  (forall c, keptFile ex c = true -> keep c = true) ->
  level2Md folder folderName ex (listFilter keep cs)
  = level2Md folder folderName ex cs.
Proof.
  intros Hfolder Hfile. rewrite !level2Md_names.
  rewrite (keptNames_listFilter keep cs Hfolder),
    (mdBasenames_listFilter keep ex cs Hfile).
  reflexivity.
Qed.

Lemma rootMd_listFilter keep (cs : list TAbstractFile) :
  (forall c, keptFolder c = true -> keep c = true) ->
  rootMd (listFilter keep cs) = rootMd cs.
Proof.
  intros Hk. rewrite !rootMd_names, (keptNames_listFilter keep cs Hk). reflexivity.
Qed.

(** The text that the step of a first-level container reconciles. *)
Lemma updateOrCreateLevel2Navigation_md (a : string) (v : Vault) :
  Str.includes (getExcludedFolders settings) a = false ->
  let cs := default [] (childrenAt [a] (rootChildren v)) in
  let navPath := pathOf [a] +:+ "/" +:+ indexName [a] in
  updateOrCreateLevel2Navigation [a] v =
    reconcile (lookupSegs (parsePath navPath) (rootChildren v)) navPath
      (level2Md [a] a (indexName [a]) cs)
      (fst (forEachM (subFolders cs)
              ("#Navigation for " +:+ a +:+ Str.nl +:+ Str.nl) (visitSub [a]) v)).
Proof.
  intros Hex. rewrite updateOrCreateLevel2Navigation_eq, Hex. cbv zeta.
  destruct (forEachM _ _ _ v) as [v1 r1] eqn:Hloop.
  destruct (forEachM_visitSub_result _ _ _ _ _ _ Hloop) as [-> _].
  reflexivity.
Qed.

Lemma mdFiles_not_index (navName : string) (cs : list TAbstractFile) :
  Forall (fun f => name f <> navName) (mdFiles navName cs).
Proof.
  unfold mdFiles. apply sortBy_Forall. apply List.Forall_forall.
  intros f Hf. apply List.filter_In in Hf. destruct Hf as [_ Hk].
  unfold keptFile in Hk. apply andb_true_iff in Hk. destruct Hk as [_ Hk].
  apply negb_true_iff in Hk. apply String.eqb_neq, Hk.
Qed.

Lemma folderNames_filter_isTFolder (cs : list TAbstractFile) :
  folderNames (List.filter isTFolder cs) = folderNames cs.
Proof.
  unfold folderNames.
  rewrite (filter_filter_implied isTFolder isTFolder) by auto. reflexivity.
Qed.

Lemma subFolders_notExcluded (cs : list TAbstractFile) :
  Forall (fun f => Str.includes (getExcludedFolders settings) (name f) = false)
    (subFolders cs).
Proof.
  unfold subFolders. apply sortBy_Forall. apply List.Forall_forall.
  intros f Hf. apply List.filter_In in Hf. destruct Hf as [_ Hk].
  unfold keptFolder, notExcluded in Hk. apply andb_true_iff in Hk.
  destruct Hk as [_ Hk]. apply negb_true_iff, Hk.
Qed.

(** *** Store operations on given paths *)

Lemma callsOn_refl P v : callsOn P v v.
Proof. exists []. rewrite List.app_nil_r. auto. Qed.

Lemma callsOn_trans P v1 v2 v3 : callsOn P v1 v2 -> callsOn P v2 v3 -> callsOn P v1 v3.
Proof.
  intros (l1 & H1 & Hp1) (l2 & H2 & Hp2). exists (l1 ++ l2).
  rewrite H2, H1, List.app_assoc. split; [reflexivity|].
  apply List.Forall_app. auto.
Qed.

Lemma callsOn_weaken (P Q : string -> Prop) v v' :
  (forall s, P s -> Q s) -> callsOn P v v' -> callsOn Q v v'.
Proof.
  intros HPQ (l & H & Hp). exists l. split; [exact H|].
  eapply List.Forall_impl; [|exact Hp]. intros c. apply HPQ.
Qed.

Lemma callsOn_one (P : string -> Prop) v v' (c : Call) :
  calls v' = calls v ++ [c] -> P (opPath (callOp c)) -> callsOn P v v'.
Proof. intros H Hp. exists [c]. auto. Qed.

Lemma reconcile_callsOn file p md v v' r :
  reconcile file p md v = (v', r) -> callsOn (eq p) v v'.
Proof.
  destruct file as [f|].
  - rewrite reconcile_present.
    destruct (read host p v) as [v1 [current|e]] eqn:Hr; intros H.
    + apply read_inv in Hr. destruct Hr as (Hc1 & _).
      pose proof (callsOn_one (eq p) _ _ _ Hc1 eq_refl) as H1.
      destruct (String.eqb _ _).
      * inversion H; subst. exact H1.
      * apply modify_inv in H. destruct H as (Hc2 & _).
        eapply callsOn_trans; [exact H1|].
        apply (callsOn_one (eq p) _ _ _ Hc2 eq_refl).
    + inversion H; subst. apply read_inv in Hr. destruct Hr as (Hc1 & _).
      apply (callsOn_one (eq p) _ _ _ Hc1 eq_refl).
  - rewrite reconcile_absent.
    destruct (create host p md v) as [v1 [[]|e]] eqn:Hc; intros H.
    + inversion H; subst. apply create_inv in Hc. destruct Hc as (Hc1 & _).
      apply (callsOn_one (eq p) _ _ _ Hc1 eq_refl).
    + apply create_inv in Hc. destruct Hc as (Hc1 & _).
      pose proof (callsOn_one (eq p) _ _ _ Hc1 eq_refl) as H1.
      destruct (lookupSegs _ _).
      * apply modify_inv in H. destruct H as (Hc2 & _).
        eapply callsOn_trans; [exact H1|].
        apply (callsOn_one (eq p) _ _ _ Hc2 eq_refl).
      * inversion H; subst. exact H1.
Qed.

Lemma lookupSegs_snoc (r : list string) (n : string) (t cs : list TAbstractFile) :
  childrenAt r t = Some cs -> lookupSegs (r ++ [n]) t = findChild n cs.
Proof.
  revert t. induction r as [|a r IH]; intros t Hc.
  - simpl in Hc. inversion Hc; subst. simpl. destruct (findChild n cs); reflexivity.
  - unfold childrenAt in Hc. rewrite lookupSegs_cons in Hc.
    change ((a :: r) ++ [n]) with (a :: (r ++ [n])). rewrite lookupSegs_cons.
    destruct (findChild a t) as [c0|]; [|discriminate].
    assert (Hr : exists x rest, r ++ [n] = x :: rest) by (destruct r; simpl; eauto).
    destruct Hr as (x & rest & Hr). rewrite Hr, <- Hr.
    destruct c0 as [? ? ? ?|n0 cn]; [destruct r; discriminate|].
    apply IH. destruct r as [|y r]; [inversion Hc; reflexivity|exact Hc].
Qed.

(** C9.  The builder returns no line for an empty container (no empty
    bullet), also once the container holds nothing but its own index
    document; the content of the index document is then the heading line
    followed by line breaks only, so that trimmed it is the heading
    [#Navigation for <name>]; and the step of an empty deep container whose
    store operations succeed leaves an index document with exactly that
    content. *)
Theorem emptyContainer_no_lines :
  (forall n excludeName level,
      buildRecursiveContent (TFolder n []) excludeName level = [])
  /\ (forall n b e d level,
        buildRecursiveContent (TFolder n [TFile (n +:+ ".md") b e d]) (n +:+ ".md") level = [])
  /\ (forall n,
        level3Content n (buildRecursiveContent (TFolder n []) (n +:+ ".md") 0)
        = "#Navigation for " +:+ n +:+ Str.nl +:+ Str.nl +:+ Str.nl)
  /\ Str.trim (level3Content "Alpha"
                 (buildRecursiveContent (TFolder "Alpha" []) "Alpha.md" 0))
     = "#Navigation for Alpha"
  /\ (forall (r : Ref) v v' res,
        r <> [] -> forallb Str.noSlash r = true ->
        Str.includes (getExcludedFolders settings) (refName r) = false ->
        childrenAt r (rootChildren v) = Some [] ->
        updateOrCreateLevel3Navigation r v = (v', res) ->
        okSince v v' ->
        fileAt (r ++ [refName r +:+ ".md"]) (rootChildren v')
        = Some ("#Navigation for " +:+ refName r +:+ Str.nl +:+ Str.nl +:+ Str.nl)).
Proof.
  split; [reflexivity|]. split.
  { intros n b e d level. rewrite buildRecursiveContent_eq. simpl.
    unfold keptFile. simpl. rewrite String.eqb_refl, andb_false_r. reflexivity. }
  split; [reflexivity|]. split; [vm_compute; reflexivity|].
  intros r v v' res Hr Hs Hex Hc. rewrite updateOrCreateLevel3Navigation_eq, Hc, Hex.
  rewrite (parsePath_index r Hr Hs). unfold indexPath.
  rewrite (lookupSegs_snoc r _ _ [] Hc). simpl findChild.
  rewrite reconcile_absent.
  destruct (create host _ _ v) as [v1 r1] eqn:Hcreate. intros H Hok.
  pose proof (create_extends _ _ _ _ _ Hcreate) as Hext1.
  assert (Hext2 : extends v1 v').
  { destruct r1 as [[]|e]; [inversion H; apply extends_refl|].
    destruct (lookupSegs _ _).
    - eapply modify_extends; eauto.
    - inversion H; apply extends_refl. }
  destruct (okSince_split _ _ _ Hext1 Hext2 Hok) as [Hok1 _].
  apply create_inv in Hcreate. destruct Hcreate as (Hc1 & Ht1).
  pose proof (okSince_one _ _ _ Hc1 Hok1) as Hisok. simpl in Hisok.
  destruct r1 as [[]|e]; [|discriminate].
  inversion H; subst v'.
  rewrite (parsePath_index r Hr Hs) in Ht1. unfold indexPath in Ht1.
  destruct (lookupSegs_updateAt_at _ _ _ _ _ (createIn_fileLocal _) Ht1)
    as [(nm & b' & e' & Hnew) _].
  unfold fileAt. unfold indexName in Hnew. rewrite Hnew. reflexivity.
Qed.

(** ** Further properties *)

(** *** The exclusion list (lines 36-38) *)

Lemma trimStart_allSpace (s : string) : allSpace s = true -> Str.trimStart s = "".
Proof.
  unfold allSpace. induction s as [|c s IH]; simpl; [reflexivity|].
  intros H. apply andb_true_iff in H. destruct H as [Hc Hs]. rewrite Hc. auto.
Qed.

Lemma trimEnd_allSpace (s : string) : allSpace s = true -> Str.trimEnd s = "".
Proof.
  unfold allSpace. induction s as [|c s IH]; simpl; [reflexivity|].
  intros H. apply andb_true_iff in H. destruct H as [Hc Hs].
  rewrite (IH Hs), Hc. reflexivity.
Qed.

Lemma trimEnd_idem (s : string) : Str.trimEnd (Str.trimEnd s) = Str.trimEnd s.
Proof.
  induction s as [|c s IH]; [reflexivity|].
  simpl. destruct (Str.trimEnd s) as [|c' r'] eqn:E.
  - destruct (Str.isSpace c) eqn:Hc; simpl; [reflexivity|]. rewrite Hc. reflexivity.
  - simpl in *. rewrite IH. reflexivity.
Qed.

Lemma trimStart_startsClean (s : string) : startsClean (Str.trimStart s) = true.
Proof.
  induction s as [|c s IH]; simpl; [reflexivity|].
  destruct (Str.isSpace c) eqn:Hc; [exact IH|]. simpl. rewrite Hc. reflexivity.
Qed.

Lemma trimStart_clean (s : string) : startsClean s = true -> Str.trimStart s = s.
Proof.
  destruct s as [|c s]; simpl; [reflexivity|].
  intros H. apply negb_true_iff in H. rewrite H. reflexivity.
Qed.

Lemma trimEnd_startsClean (s : string) :
  startsClean s = true -> startsClean (Str.trimEnd s) = true.
Proof.
  destruct s as [|c s]; simpl; [reflexivity|].
  intros H. destruct (Str.trimEnd s); [|exact H].
  apply negb_true_iff in H. rewrite H. simpl. rewrite H. reflexivity.
Qed.

Lemma trim_idem (s : string) : Str.trim (Str.trim s) = Str.trim s.
Proof.
  unfold Str.trim.
  rewrite (trimStart_clean (Str.trimEnd (Str.trimStart s))).
  - apply trimEnd_idem.
  - apply trimEnd_startsClean, trimStart_startsClean.
Qed.

Lemma trim_allSpace (s : string) : allSpace s = true -> Str.trim s = "".
Proof. intros H. unfold Str.trim. rewrite (trimStart_allSpace s H). reflexivity. Qed.

Lemma forallb_trimStart (P : ascii -> bool) (s : string) :
  forallb P (list_ascii_of_string s) = true ->
  forallb P (list_ascii_of_string (Str.trimStart s)) = true.
Proof.
  induction s as [|c s IH]; simpl; [reflexivity|].
  intros H. destruct (Str.isSpace c); [|exact H].
  apply andb_true_iff in H. apply IH, H.
Qed.

Lemma forallb_trimEnd (P : ascii -> bool) (s : string) :
  forallb P (list_ascii_of_string s) = true ->
  forallb P (list_ascii_of_string (Str.trimEnd s)) = true.
Proof.
  induction s as [|c s IH]; simpl; [reflexivity|].
  intros H. apply andb_true_iff in H. destruct H as [Hc Hs].
  specialize (IH Hs). destruct (Str.trimEnd s) as [|c' r'].
  - destruct (Str.isSpace c); simpl; [reflexivity|]. rewrite Hc. reflexivity.
  - simpl in *. rewrite Hc. exact IH.
Qed.

Lemma forallb_trim (P : ascii -> bool) (s : string) :
  forallb P (list_ascii_of_string s) = true ->
  forallb P (list_ascii_of_string (Str.trim s)) = true.
Proof. intros H. apply forallb_trimEnd, forallb_trimStart, H. Qed.

(** The pieces of a split do not hold the separator. *)
Lemma split_pieces (sep : ascii) (s : string) :
  Forall (fun piece =>
            forallb (fun c => negb (Ascii.eqb c sep)) (list_ascii_of_string piece) = true)
    (Str.split sep s).
Proof.
  induction s as [|c s IH]; simpl.
  - constructor; [reflexivity|constructor].
  - destruct (Ascii.eqb c sep) eqn:E.
    + constructor; [reflexivity|exact IH].
    + destruct (Str.split sep s) as [|h t].
      * constructor; [|constructor]. simpl. rewrite E. reflexivity.
      * inversion IH; subst. constructor; [|assumption].
        simpl. rewrite E. assumption.
Qed.

(** The pieces of a split keep what is true of every character. *)
Lemma split_forallb (P : ascii -> bool) (sep : ascii) (s : string) :
  forallb (fun c => P c || Ascii.eqb c sep) (list_ascii_of_string s) = true ->
  Forall (fun piece => forallb P (list_ascii_of_string piece) = true)
    (Str.split sep s).
Proof.
  induction s as [|c s IH]; simpl.
  - intros _. constructor; [reflexivity|constructor].
  - intros H. apply andb_true_iff in H. destruct H as [Hc Hs].
    specialize (IH Hs). destruct (Ascii.eqb c sep) eqn:E.
    + constructor; [reflexivity|exact IH].
    + rewrite orb_false_r in Hc.
      destruct (Str.split sep s) as [|h t].
      * constructor; [|constructor]. simpl. rewrite Hc. reflexivity.
      * inversion IH; subst. constructor; [|assumption].
        simpl. rewrite Hc. assumption.
Qed.

Lemma includes_In (l : list string) (x : string) :
  Str.includes l x = true <-> In x l.
Proof.
  unfold Str.includes. rewrite existsb_exists. split.
  - intros (y & Hy & E). apply String.eqb_eq in E. subst. exact Hy.
  - intros H. exists x. split; [exact H|apply String.eqb_refl].
Qed.

Lemma getExcludedFolders_In (x : string) :
  In x (getExcludedFolders settings) <->
  x <> "" /\ exists piece,
               In piece (Str.split ","%char (excludedFolders settings))
               /\ Str.trim piece = x.
Proof.
  unfold getExcludedFolders. rewrite List.filter_In, in_map_iff. split.
  - intros [(piece & E & Hp) Hne]. apply negb_true_iff, String.eqb_neq in Hne. eauto.
  - intros [Hne (piece & Hp & E)]. split; [eauto|].
    apply negb_true_iff, String.eqb_neq, Hne.
Qed.

(** X1.  A folder is excluded exactly when its name is not empty and is
    what remains of one of the comma-separated pieces of the setting once
    the whitespace around the piece is removed.  So the entries of the
    exclusion list are never empty, never begin or end with whitespace and
    never hold a comma: a folder whose name is empty, is padded with
    whitespace or holds a comma cannot be excluded. *)
Theorem excluded_names :
  (forall x,
      Str.includes (getExcludedFolders settings) x = true <->
      x <> "" /\ exists piece,
                   In piece (Str.split ","%char (excludedFolders settings))
                   /\ Str.trim piece = x)
  /\ (forall x,
        Str.includes (getExcludedFolders settings) x = true ->
        x <> "" /\ Str.trim x = x /\ noComma x = true).
Proof.
  split.
  - intros x. rewrite includes_In. apply getExcludedFolders_In.
  - intros x H. apply includes_In, getExcludedFolders_In in H.
    destruct H as [Hne (piece & Hp & <-)]. split; [exact Hne|].
    split; [apply trim_idem|].
    apply forallb_trim.
    pose proof (split_pieces ","%char (excludedFolders settings)) as Hall.
    rewrite List.Forall_forall in Hall. apply (Hall piece Hp).
Qed.

(** X2.  A setting that holds nothing but whitespace and commas, the empty
    setting included, excludes nothing: every folder is then kept. *)
Theorem blank_setting_excludes_nothing :
  forallb (fun c => Str.isSpace c || Ascii.eqb c ","%char)
    (list_ascii_of_string (excludedFolders settings)) = true ->
  getExcludedFolders settings = []
  /\ forall n cs, keptFolder (TFolder n cs) = true.
Proof.
  intros H.
  assert (Hnil : getExcludedFolders settings = []).
  { unfold getExcludedFolders.
    pose proof (split_forallb Str.isSpace ","%char _ H) as Hall.
    induction Hall as [|piece l Hp Hl IH]; simpl; [reflexivity|].
    rewrite (trim_allSpace piece Hp). simpl. exact IH. }
  split; [exact Hnil|].
  intros n cs. unfold keptFolder, notExcluded. rewrite Hnil. reflexivity.
Qed.

(** *** More on the reconcile step *)

Lemma append_cons (c : ascii) (s t : string) : String c s +:+ t = String c (s +:+ t).
Proof. reflexivity. Qed.

Lemma trimStart_pad (ws s : string) :
  allSpace ws = true -> Str.trimStart (ws +:+ s) = Str.trimStart s.
Proof.
  unfold allSpace. induction ws as [|c ws IH]; [reflexivity|].
  simpl. intros H. apply andb_true_iff in H. destruct H as [Hc Hs].
  rewrite Hc. auto.
Qed.

Lemma trimEnd_pad (s ws : string) :
  allSpace ws = true -> Str.trimEnd (s +:+ ws) = Str.trimEnd s.
Proof.
  intros H. induction s as [|c s IH].
  - apply trimEnd_allSpace, H.
  - rewrite append_cons. simpl. rewrite IH. reflexivity.
Qed.

Lemma trim_pad_end (s ws : string) :
  allSpace ws = true -> Str.trim (s +:+ ws) = Str.trim s.
Proof.
  intros H. unfold Str.trim. induction s as [|c s IH].
  - change ("" +:+ ws) with ws. rewrite (trimStart_allSpace ws H). reflexivity.
  - rewrite append_cons. simpl. destruct (Str.isSpace c); [exact IH|].
    rewrite <- append_cons. apply trimEnd_pad, H.
Qed.

(** Whitespace around a text does not change what [trim] leaves of it. *)
Lemma trim_pad (ws1 s ws2 : string) :
  allSpace ws1 = true -> allSpace ws2 = true ->
  Str.trim (ws1 +:+ s +:+ ws2) = Str.trim s.
Proof.
  intros H1 H2. unfold Str.trim. rewrite (trimStart_pad ws1 _ H1).
  apply (trim_pad_end s ws2 H2).
Qed.

(** X3.  Whatever the host answers, a reconcile step issues at most two
    store operations, all on its target path, and whatever it writes is
    the expected content.  When the step ends normally, afterwards the
    target either does not exist (its creation failed and the failure was
    swallowed) or is a document that holds the expected content up to
    surrounding whitespace. *)
Theorem reconcile_outcome (file : option TAbstractFile) (navPath md : string)
    (v v' : Vault) (r : Result unit) :
  reconcile file navPath md v = (v', r) ->
  (exists l,
      calls v' = calls v ++ l
      /\ length l <= 2
      /\ Forall (fun c => opPath (callOp c) = navPath
                          /\ (writtenData (callOp c) = None
                              \/ writtenData (callOp c) = Some md)) l)
  /\ (r = Ok tt ->
      lookupSegs (parsePath navPath) (rootChildren v') = None
      \/ settled (rootChildren v') (parsePath navPath) md).
Proof.
  assert (Hmod : forall w w' rw,
             modify host navPath md w = (w', rw) ->
             calls w' = calls w ++ [mkCall (OpModify navPath md) (isOk rw)]
             /\ (rw = Ok tt -> settled (rootChildren w') (parsePath navPath) md)).
  { intros w w' rw Hm. apply modify_inv in Hm. destruct Hm as [Hc Ht].
    split; [exact Hc|]. intros ->.
    destruct (lookupSegs_updateAt_at _ _ _ _ _ (modifyIn_fileLocal md) Ht)
      as [(nm & b & e & Hnew) _].
    exists md. unfold fileAt. rewrite Hnew. auto. }
  destruct file as [f|].
  - rewrite reconcile_present.
    destruct (read host navPath v) as [v1 [current|e]] eqn:Hr; intros H.
    + apply read_inv in Hr. destruct Hr as (Hc1 & Ht1 & n & b & e & Hl).
      destruct (String.eqb (Str.trim current) (Str.trim md)) eqn:E.
      * inversion H; subst. split.
        -- eexists. split; [exact Hc1|]. split; [simpl; lia|].
           constructor; [simpl; auto|constructor].
        -- intros _. right. exists current. unfold fileAt. rewrite Ht1, Hl.
           split; [reflexivity|apply String.eqb_eq, E].
      * destruct (Hmod _ _ _ H) as [Hc2 Hset]. split.
        -- eexists. split; [rewrite Hc2, Hc1, <- List.app_assoc; reflexivity|].
           split; [simpl; lia|].
           repeat (constructor; [simpl; auto|]). constructor.
        -- intros Hr. right. apply Hset, Hr.
    + inversion H; subst. apply read_inv in Hr. destruct Hr as (Hc1 & _).
      split; [|discriminate].
      eexists. split; [exact Hc1|]. split; [simpl; lia|].
      constructor; [simpl; auto|constructor].
  - rewrite reconcile_absent.
    destruct (create host navPath md v) as [v1 [[]|e]] eqn:Hc; intros H.
    + inversion H; subst. apply create_inv in Hc. destruct Hc as (Hc1 & Ht1). split.
      * eexists. split; [exact Hc1|]. split; [simpl; lia|].
        constructor; [simpl; auto|constructor].
      * intros _. right.
        destruct (lookupSegs_updateAt_at _ _ _ _ _ (createIn_fileLocal md) Ht1)
          as [(nm & b & e' & Hnew) _].
        exists md. unfold fileAt. rewrite Hnew. auto.
    + apply create_inv in Hc. destruct Hc as (Hc1 & _).
      destruct (lookupSegs (parsePath navPath) (rootChildren v1)) eqn:Hl.
      * destruct (Hmod _ _ _ H) as [Hc2 Hset]. split.
        -- eexists. split; [rewrite Hc2, Hc1, <- List.app_assoc; reflexivity|].
           split; [simpl; lia|].
           repeat (constructor; [simpl; auto|]). constructor.
        -- intros Hr. right. apply Hset, Hr.
      * inversion H; subst. split.
        -- eexists. split; [exact Hc1|]. split; [simpl; lia|].
           constructor; [simpl; auto|constructor].
        -- intros _. left. exact Hl.
Qed.

(** X4.  The comparison of line 75 is blind to surrounding whitespace: on
    a document that holds the expected content with any whitespace before
    and after it, the reconcile step reads and does not write, whatever
    the host answers. *)
Theorem reconcile_ignores_padding (f : TAbstractFile) (navPath md ws1 ws2 : string)
    (nm b e : string) (v v' : Vault) (r : Result unit) :
  allSpace ws1 = true -> allSpace ws2 = true ->
  lookupSegs (parsePath navPath) (rootChildren v)
  = Some (TFile nm b e (ws1 +:+ md +:+ ws2)) ->
  reconcile (Some f) navPath md v = (v', r) ->
  rootChildren v' = rootChildren v
  /\ exists ok, calls v' = calls v ++ [mkCall (OpRead navPath) ok].
Proof.
  intros H1 H2 Hl. rewrite reconcile_present.
  destruct (read host navPath v) as [v1 [current|e1]] eqn:Hr; intros H.
  - apply read_inv in Hr. destruct Hr as (Hc1 & Ht1 & n' & b' & e' & Hl').
    rewrite Hl in Hl'. inversion Hl'; subst current.
    rewrite (trim_pad ws1 md ws2 H1 H2), String.eqb_refl in H.
    inversion H; subst. eauto.
  - inversion H; subst. apply read_inv in Hr. destruct Hr as (Hc1 & Ht1 & _). eauto.
Qed.

(** *** What a pass leaves alone *)

Lemma reconcile_touchedMany file p md v v' r :
  reconcile file p md v = (v', r) ->
  touchedMany (eq (parsePath p)) (rootChildren v) (rootChildren v').
Proof.
  assert (Hmod : forall w w' rw,
             modify host p md w = (w', rw) ->
             touched (parsePath p) (rootChildren w) (rootChildren w')).
  { intros w w' rw Hm. apply modify_inv in Hm. destruct Hm as [_ Ht].
    destruct rw as [[]|e].
    - eapply touched_write;
        [apply modifyIn_fileLocal|apply modifyIn_editsFile|exact Ht].
    - constructor. exact Ht. }
  destruct file as [f|].
  - rewrite reconcile_present.
    destruct (read host p v) as [v1 [current|e]] eqn:Hr; intros H;
      apply read_inv in Hr; destruct Hr as (_ & Ht1 & _).
    + destruct (String.eqb _ _).
      * inversion H; subst. rewrite Ht1. constructor.
      * rewrite <- Ht1. eapply touchedMany_one; [reflexivity|eapply Hmod; eauto].
    + inversion H; subst. rewrite Ht1. constructor.
  - rewrite reconcile_absent.
    destruct (create host p md v) as [v1 r1] eqn:Hc.
    assert (H1 : touched (parsePath p) (rootChildren v) (rootChildren v1)).
    { apply create_inv in Hc. destruct Hc as [_ Ht]. destruct r1 as [[]|e].
      - eapply touched_write;
          [apply createIn_fileLocal|apply createIn_editsFile|exact Ht].
      - destruct Ht as [Ht|[other Ht]].
        + constructor. exact Ht.
        + eapply touched_write;
            [apply createIn_fileLocal|apply createIn_editsFile|exact Ht]. }
    destruct r1 as [[]|e]; intros H.
    + inversion H; subst. eapply touchedMany_one; [reflexivity|exact H1].
    + destruct (lookupSegs _ _).
      * eapply touchedMany_step; [reflexivity|exact H1|].
        eapply touchedMany_one; [reflexivity|eapply Hmod; eauto].
      * inversion H; subst. eapply touchedMany_one; [reflexivity|exact H1].
Qed.

(** The folders below any folder stay the same under a store operation. *)
Lemma folderNames_childrenAt_updateAt f (p r : list string)
    (cs cs' : list TAbstractFile) d :
  fileLocal d f -> editsFile f -> updateAt f p cs = Some cs' ->
  option_map folderNames (childrenAt r cs')
  = option_map folderNames (childrenAt r cs).
Proof.
  intros Hl He. revert r cs cs'.
  induction p as [|n rest IH]; intros r cs cs' Hu; [discriminate|].
  destruct r as [|m rr].
  { simpl. f_equal. eapply folderNames_updateAt; eauto. }
  destruct rest as [|x rest].
  - simpl in Hu. destruct (Hl _ _ _ Hu) as (Hnew & Hold & Hother).
    unfold childrenAt. rewrite !lookupSegs_cons.
    destruct (String.eqb_spec m n) as [->|Hmn].
    + destruct Hnew as (nm & b & e & ->).
      destruct Hold as [->|(nm' & b' & e' & d' & ->)];
        destruct rr; reflexivity.
    + rewrite (Hother m Hmn). reflexivity.
  - apply updateAt_deep in Hu. destruct Hu as (cn & cn' & Hfind & Hu & ->).
    destruct (String.eqb_spec m n) as [->|Hmn].
    + rewrite (childrenAt_cons n rr cs cn n Hfind).
      rewrite (childrenAt_cons n rr _ cn' n
                 (findChild_replace_eq n (TFolder n cn') _ cs Hfind eq_refl)).
      apply IH, Hu.
    + unfold childrenAt. rewrite !lookupSegs_cons.
      rewrite (findChild_replace_ne m n (TFolder n cn') cs Hmn eq_refl).
      reflexivity.
Qed.

(** What sat at a path before a store operation still sits there, with
    its name and its kind. *)
Lemma lookupSegs_touched_stays (p q : list string) (cs cs' : list TAbstractFile)
    (c : TAbstractFile) :
  touched p cs cs' -> lookupSegs q cs = Some c ->
  exists c', lookupSegs q cs' = Some c'
             /\ isTFolder c' = isTFolder c /\ name c' = name c.
Proof.
  intros [->|d f Hl He Hu] Hc; [eauto|].
  destruct (decide (q = p)) as [->|Hne].
  - destruct (lookupSegs_updateAt_at _ _ _ _ _ Hl Hu) as [(nm & b & e & Hnew) Hold].
    rewrite Hc in Hold. destruct Hold as [Hold|(nm' & b' & e' & d' & Hold)];
      [discriminate|]. inversion Hold; subst c.
    exists (TFile nm b e d). split; [exact Hnew|]. split; [reflexivity|].
    rewrite (lookupSegs_name _ _ _ Hnew), (lookupSegs_name _ _ _ Hc). reflexivity.
  - pose proof (lookupSegs_updateAt_frame _ _ _ _ _ _ Hl Hu Hne) as Hk.
    rewrite Hc in Hk.
    destruct (lookupSegs q cs') as [c'|] eqn:Hc';
      [|destruct c; discriminate].
    exists c'. split; [reflexivity|]. split.
    + destruct c, c'; simpl in Hk; try discriminate; reflexivity.
    + rewrite (lookupSegs_name _ _ _ Hc'), (lookupSegs_name _ _ _ Hc). reflexivity.
Qed.

Lemma split_nonempty (sep : ascii) (s : string) : Str.split sep s <> [].
Proof.
  destruct s as [|c s]; simpl; [discriminate|].
  destruct (Ascii.eqb c sep); [discriminate|].
  destruct (Str.split sep s); discriminate.
Qed.

Lemma split_snoc (a b : string) :
  Str.noSlash b = true ->
  Str.split "/"%char (a +:+ b)
  = removelast (Str.split "/"%char a) ++ [List.last (Str.split "/"%char a) "" +:+ b].
Proof.
  intros Hb. induction a as [|c a IH].
  - change ("" +:+ b) with b. rewrite (split_noSlash b Hb). reflexivity.
  - change (String c a +:+ b) with (String c (a +:+ b)).
    cbn [Str.split]. rewrite IH.
    destruct (Str.split "/"%char a) as [|h t] eqn:Hs;
      [destruct (split_nonempty _ _ Hs)|].
    destruct (Ascii.eqb c "/"%char).
    + destruct t; reflexivity.
    + destruct t as [|x t]; reflexivity.
Qed.

Lemma last_split_snoc (a b : string) :
  Str.noSlash b = true ->
  List.last (Str.split "/"%char (a +:+ b)) ""
  = List.last (Str.split "/"%char a) "" +:+ b.
Proof. intros Hb. rewrite (split_snoc a b Hb). apply List.last_last. Qed.

(** *** Where a pass starts and what it leaves behind *)

Lemma reconcile_first file p md v v' r :
  reconcile file p md v = (v', r) ->
  exists ok rest,
    calls v' = calls v
               ++ mkCall (match file with
                          | Some _ => OpRead p
                          | None => OpCreate p md
                          end) ok :: rest.
Proof.
  destruct file as [f|].
  - rewrite reconcile_present.
    destruct (read host p v) as [v1 [current|e]] eqn:Hr; intros H;
      apply read_inv in Hr; destruct Hr as (Hc & _).
    + destruct (String.eqb _ _).
      * inversion H; subst. exists true, []. exact Hc.
      * apply modify_inv in H. destruct H as [H _]. rewrite H, Hc, <- app_assoc.
        eexists _, _. reflexivity.
    + inversion H; subst. exists false, []. exact Hc.
  - rewrite reconcile_absent.
    destruct (create host p md v) as [v1 r1] eqn:Hc.
    apply create_inv in Hc. destruct Hc as [Hc _].
    destruct r1 as [[]|e]; intros H.
    + inversion H; subst. eexists _, []. exact Hc.
    + destruct (lookupSegs _ _).
      * apply modify_inv in H. destruct H as [H _]. rewrite H, Hc, <- app_assoc.
        eexists _, _. reflexivity.
      * inversion H; subst. eexists _, []. exact Hc.
Qed.

(** X7.  A pass starts with the root index document, whatever the vault
    holds and whatever the host answers: its first store operation is the
    read of the root index document when something sits at its path, and
    otherwise the creation of the root index document with the listing of
    the first-level folders of the root as they are when the pass
    starts. *)
Theorem pass_starts_at_the_root v v' res :
  initializeStructure v = (v', res) ->
  exists ok rest,
    calls v' = calls v
               ++ mkCall (match lookupSegs rootPath (rootChildren v) with
                          | Some _ => OpRead (navigationFileName settings +:+ ".md")
                          | None => OpCreate (navigationFileName settings +:+ ".md")
                                      (rootMd (rootChildren v))
                          end) ok :: rest.
Proof.
  rewrite initializeStructure_eq.
  destruct (updateOrCreateRootNavigation v) as [v1 r1] eqn:Hroot.
  rewrite updateOrCreateRootNavigation_eq in Hroot.
  destruct (reconcile_first _ _ _ _ _ _ Hroot) as (ok & rest & Hc).
  destruct r1 as [[]|e]; intros H.
  - destruct (forEachM_visitChild_extends _ _ _ _ H) as [l Hl].
    exists ok, (rest ++ l). rewrite Hl, Hc, <- app_assoc. reflexivity.
  - inversion H; subst. eauto.
Qed.

Lemma rootPath_noSlash :
  Str.noSlash (navigationFileName settings) = true ->
  rootPath = [navigationFileName settings +:+ ".md"]
  /\ isIndexPathb rootPath = false.
Proof.
  intros Hn. unfold rootPath, parsePath.
  rewrite (split_noSlash _ (noSlash_md _ Hn)). split; reflexivity.
Qed.

(** X8.  After a pass whose store operations all succeed, on a vault
    where no folder name holds a slash, every first-level folder that is
    not excluded holds an index document named after it whose content is,
    up to surrounding whitespace, the heading, the links to its kept
    sub-folders and the links to its markdown documents other than the
    index itself, as computed from the children it has after the pass.
    When the configured root name holds no slash, the root of the vault
    holds the root index document, whose content is up to surrounding
    whitespace the heading and the links to the kept first-level
    folders. *)
Theorem root_and_first_level_index_documents v v' res :
  wfTree (rootChildren v) = true ->
  initializeStructure v = (v', res) ->
  okSince v v' ->
  res = Ok tt
  /\ (forall a cs,
        Str.includes (getExcludedFolders settings) a = false ->
        childrenAt [a] (rootChildren v') = Some cs ->
        exists d,
          fileAt [a; a +:+ ".md"] (rootChildren v') = Some d
          /\ Str.trim d = Str.trim (level2Md [a] a (a +:+ ".md") cs))
  /\ (Str.noSlash (navigationFileName settings) = true ->
      exists d,
        fileAt [navigationFileName settings +:+ ".md"] (rootChildren v') = Some d
        /\ Str.trim d = Str.trim (rootMd (rootChildren v'))).
Proof.
  intros Hwf H Hok.
  destruct (initializeStructure_ok v v' res Hwf H Hok) as (Hres & _ & Hall & Hroot).
  split; [exact Hres|]. split.
  - intros a cs Ha Hcs.
    destruct (childrenAt_folder_kept a [] _ cs Hcs Ha) as [Hka _].
    destruct (Hall a Hka) as [Hset _]. rewrite Hcs in Hset. exact Hset.
  - intros Hn. destruct (rootPath_noSlash Hn) as [Hp Hb].
    specialize (Hroot Hb). rewrite Hp in Hroot. exact Hroot.
Qed.

(** *** More on the recursive builder and the listings *)

Lemma subLine_S (level : nat) (sub : TAbstractFile) :
  subLine (S level) sub = "  " +:+ subLine level sub.
Proof.
  unfold subLine. change (Str.repeat "  " (S level)) with ("  " +:+ Str.repeat "  " level).
  rewrite !string_app_assoc. reflexivity.
Qed.

Lemma fileLine_S (level : nat) (f : TAbstractFile) :
  fileLine (S level) f = "  " +:+ fileLine level f.
Proof.
  unfold fileLine. change (Str.repeat "  " (S level)) with ("  " +:+ Str.repeat "  " level).
  rewrite !string_app_assoc. reflexivity.
Qed.

Lemma buildRecursiveContent_S (folder : TAbstractFile) (ex : string) :
  forall level,
    buildRecursiveContent folder ex (S level)
    = map (String.append "  ") (buildRecursiveContent folder ex level).
Proof.
  induction folder as [n b e d|n cs IH] using TAbstractFile_ind; intros level;
    [reflexivity|].
  rewrite !buildRecursiveContent_eq, List.map_app, List.map_map.
  f_equal.
  assert (Hsub : Forall (fun c => forall level,
                           buildRecursiveContent c ex (S level)
                           = map (String.append "  ")
                               (buildRecursiveContent c ex level))
                   (sortBy name (List.filter keptFolder cs))).
  { apply sortBy_Forall. rewrite List.Forall_forall in IH |- *.
    intros c Hc. apply List.filter_In in Hc. apply IH, Hc. }
  induction Hsub as [|c l Hc Hl IHl]; simpl; [reflexivity|].
  rewrite List.map_app, <- IHl, <- Hc, subLine_S. reflexivity.
Qed.

(** X9.  The level only indents.  One level deeper the builder returns
    the same lines, each with two more spaces in front; so at level [k]
    its lines are the lines of level zero behind [2k] spaces, and a node
    that lies [k] folders below the container is listed behind [2k]
    spaces in the index document of the container. *)
Theorem level_only_indents (folder : TAbstractFile) (ex : string) (level : nat) :
  buildRecursiveContent folder ex (S level)
  = map (String.append "  ") (buildRecursiveContent folder ex level)
  /\ buildRecursiveContent folder ex level
     = map (String.append (Str.repeat "  " level)) (buildRecursiveContent folder ex 0).
Proof.
  split; [apply buildRecursiveContent_S|].
  induction level as [|k IH].
  - rewrite <- (List.map_id (buildRecursiveContent folder ex 0)) at 1.
    apply List.map_ext. reflexivity.
  - rewrite buildRecursiveContent_S, IH, List.map_map.
    apply List.map_ext. intros s.
    change (Str.repeat "  " (S k)) with ("  " +:+ Str.repeat "  " k).
    rewrite string_app_assoc. reflexivity.
Qed.

Lemma filter_none {A} (p : A -> bool) (l : list A) :
  (forall x, In x l -> p x = false) -> List.filter p l = [].
Proof.
  induction l as [|x l IH]; intros H; simpl; [reflexivity|].
  rewrite (H x (or_introl eq_refl)). apply IH. intros y Hy. apply H. right. exact Hy.
Qed.

(** X10.  The builder returns no line exactly when the container has no
    direct child that it lists: no folder that is not excluded, and no
    markdown document other than the index document.  What lies deeper
    cannot make lines appear: a container listed by one line of its parent
    is the only way down. *)
Theorem no_lines_iff_nothing_listed (n : string) (cs : list TAbstractFile)
    (ex : string) (level : nat) :
  buildRecursiveContent (TFolder n cs) ex level = []
  <-> forall c, In c cs -> keptFolder c = false /\ keptFile ex c = false.
Proof.
  rewrite buildRecursiveContent_eq. split.
  - intros H. apply List.app_eq_nil in H. destruct H as [Hf Hd].
    intros c Hc. split.
    + destruct (keptFolder c) eqn:K; [|reflexivity].
      assert (Hin : In c (sortBy name (List.filter keptFolder cs)))
        by (apply sortBy_In, List.filter_In; auto).
      destruct (sortBy name (List.filter keptFolder cs)) as [|x l];
        [destruct Hin|discriminate].
    + destruct (keptFile ex c) eqn:K; [|reflexivity].
      assert (Hin : In c (sortBy basename (List.filter (keptFile ex) cs)))
        by (apply sortBy_In, List.filter_In; auto).
      destruct (sortBy basename (List.filter (keptFile ex) cs)) as [|x l];
        [destruct Hin|discriminate].
  - intros H.
    rewrite (filter_none keptFolder cs) by (intros c Hc; apply H, Hc).
    rewrite (filter_none (keptFile ex) cs) by (intros c Hc; apply H, Hc).
    reflexivity.
Qed.

Lemma keptFolder_listable (c : TAbstractFile) :
  keptFolder c = true -> listable c = true.
Proof.
  unfold keptFolder, listable. destruct (isTFolder c); [reflexivity|discriminate].
Qed.

Lemma keptFile_listable (ex : string) (c : TAbstractFile) :
  keptFile ex c = true -> listable c = true.
Proof.
  unfold keptFile, listable. destruct (String.eqb (extension c) "md").
  - intros _. apply orb_true_r.
  - rewrite andb_false_r. discriminate.
Qed.

Lemma name_mapData g (c : TAbstractFile) : name (mapData g c) = name c.
Proof. destruct c; reflexivity. Qed.

Lemma keptFolder_mapData g (c : TAbstractFile) :
  keptFolder (mapData g c) = keptFolder c.
Proof. destruct c; reflexivity. Qed.

Lemma keptFile_mapData g (ex : string) (c : TAbstractFile) :
  keptFile ex (mapData g c) = keptFile ex c.
Proof. destruct c; reflexivity. Qed.

Lemma fileLine_mapData g (level : nat) (c : TAbstractFile) :
  fileLine level (mapData g c) = fileLine level c.
Proof. destruct c; reflexivity. Qed.

Lemma buildRecursiveContent_mapData g (ex : string) (folder : TAbstractFile) :
  forall level,
    buildRecursiveContent (mapData g folder) ex level
    = buildRecursiveContent folder ex level.
Proof.
  induction folder as [n b e d|n cs IH] using TAbstractFile_ind; intros level;
    [reflexivity|].
  change (mapData g (TFolder n cs)) with (TFolder n (map (mapData g) cs)).
  rewrite !buildRecursiveContent_eq.
  rewrite !(filter_map_comm (mapData g)).
  rewrite (List.filter_ext _ keptFolder) by (intros c; apply keptFolder_mapData).
  rewrite (List.filter_ext (fun a => keptFile ex (mapData g a)) (keptFile ex))
    by (intros c; apply keptFile_mapData).
  rewrite <- (sortBy_map (mapData g) name), <- (sortBy_map (mapData g) basename).
  rewrite (sortBy_ext (fun a => name (mapData g a)) name)
    by (intros x; apply name_mapData).
  rewrite (sortBy_ext (fun a => basename (mapData g a)) basename)
    by (intros x; destruct x; reflexivity).
  rewrite List.map_map.
  rewrite (List.map_ext (fun x => fileLine level (mapData g x)) (fileLine level))
    by (intros x; apply fileLine_mapData).
  f_equal.
  assert (Hsub : Forall (fun c => forall level,
                           buildRecursiveContent (mapData g c) ex level
                           = buildRecursiveContent c ex level)
                   (sortBy name (List.filter keptFolder cs))).
  { apply sortBy_Forall. rewrite List.Forall_forall in IH |- *.
    intros c Hc. apply List.filter_In in Hc. apply IH, Hc. }
  induction Hsub as [|c l Hc Hl IHl]; simpl; [reflexivity|].
  rewrite Hc, IHl. unfold subLine. rewrite name_mapData. reflexivity.
Qed.

Lemma view_skel (ex : string) (cs : list TAbstractFile) :
  view ex (map skel cs) = view ex cs.
Proof.
  unfold view, dropNamed. rewrite (filter_map_comm skel), List.map_map.
  rewrite (List.filter_ext (fun a => negb (isTFile (skel a) && String.eqb (name (skel a)) ex))
             (fun c => negb (isTFile c && String.eqb (name c) ex)))
    by (intros c; destruct c; reflexivity).
  apply List.map_ext. intros c. destruct c; reflexivity.
Qed.

Lemma folderNames_skel (cs : list TAbstractFile) :
  folderNames (map skel cs) = folderNames cs.
Proof.
  unfold folderNames. rewrite (filter_map_comm skel), List.map_map.
  rewrite (List.filter_ext (fun a => isTFolder (skel a)) isTFolder)
    by (intros c; destruct c; reflexivity).
  apply List.map_ext. intros c. destruct c; reflexivity.
Qed.

(** *** The order in which the host enumerates *)

Lemma sorted_Permutation_eq (l l' : list string) :
  tieFree l ->
  StronglySorted (byKey (fun n => n)) l ->
  StronglySorted (byKey (fun n => n)) l' ->
  Permutation l l' -> l = l'.
Proof.
  revert l'. induction l as [|a t IH]; intros l' Htie Hs Hs' Hp.
  - apply Permutation_nil in Hp. congruence.
  - destruct l' as [|b t'].
    { symmetry in Hp. apply Permutation_nil in Hp. discriminate. }
    apply StronglySorted_inv in Hs. destruct Hs as [Hst Ha].
    apply StronglySorted_inv in Hs'. destruct Hs' as [Hst' Hb].
    rewrite List.Forall_forall in Ha, Hb.
    assert (Hab : a = b).
    { assert (Hina : In a (b :: t'))
        by (eapply Permutation_in; [exact Hp|left; reflexivity]).
      assert (Hinb : In b (a :: t))
        by (eapply Permutation_in; [symmetry; exact Hp|left; reflexivity]).
      destruct Hina as [->|Hina]; [reflexivity|].
      destruct Hinb as [->|Hinb]; [reflexivity|].
      apply Htie; [left; reflexivity|right; exact Hinb|apply Ha, Hinb|apply Hb, Hina]. }
    subst b. f_equal. apply Permutation_cons_inv in Hp.
    apply IH; try assumption.
    intros x y Hx Hy. apply Htie; right; assumption.
Qed.

Lemma sortBy_Permutation_eq (l l' : list string) :
  totalPreorder -> tieFree l -> Permutation l l' ->
  sortBy (fun n => n) l = sortBy (fun n => n) l'.
Proof.
  intros Hcmp Htie Hp. apply sorted_Permutation_eq.
  - intros a b Ha Hb. apply Htie; eapply (sortBy_In (fun n => n)); eassumption.
  - apply sortBy_sorted, Hcmp.
  - apply sortBy_sorted, Hcmp.
  - rewrite !sortBy_Permutation. exact Hp.
Qed.

Lemma filter_Permutation' {A} (p : A -> bool) (l l' : list A) :
  Permutation l l' -> Permutation (List.filter p l) (List.filter p l').
Proof.
  induction 1 as [|x l l' Hp IH|x y l|l1 l2 l3 H1 IH1 H2 IH2]; simpl.
  - constructor.
  - destruct (p x); [constructor|]; exact IH.
  - destruct (p x), (p y); try reflexivity. apply perm_swap.
  - etransitivity; eassumption.
Qed.

(** *** Where the folder links point *)

Lemma folderTarget_index (parent : Ref) (f : TAbstractFile) :
  forallb Str.noSlash parent = true -> Str.noSlash (name f) = true ->
  parsePath (folderTarget parent f +:+ ".md") = indexPath (parent ++ [name f]).
Proof.
  intros Hp Hf. unfold folderTarget.
  rewrite <- (parsePath_index (parent ++ [name f])).
  - unfold indexName, refName. rewrite List.last_last.
    rewrite !string_app_assoc. reflexivity.
  - destruct parent; discriminate.
  - rewrite forallb_app, Hp. simpl. rewrite Hf. reflexivity.
Qed.

(** X16.  The folder links point at index documents.  A line written for
    a folder in the root index or in the index of a first-level folder is
    a link whose target, with [.md] appended, is the path of the index
    document of that folder, and whose label is the name of the folder.
    After a pass whose store operations all succeed, on a vault where no
    folder name holds a slash, a document sits at the target of the link
    of every first-level folder that is not excluded, and of every
    second-level folder that is not excluded below one that is not
    excluded. *)
Theorem folder_links_point_at_index_documents :
  (forall parent f,
      folderLink parent f
      = "- [[" +:+ folderTarget parent f +:+ "|" +:+ name f +:+ "]]" +:+ Str.nl)
  /\ (forall parent f,
        forallb Str.noSlash parent = true -> Str.noSlash (name f) = true ->
        parsePath (folderTarget parent f +:+ ".md")
        = parent ++ [name f; name f +:+ ".md"])
  /\ (forall v v' res,
        wfTree (rootChildren v) = true ->
        initializeStructure v = (v', res) ->
        okSince v v' ->
        (forall n cs,
            Str.includes (getExcludedFolders settings) n = false ->
            childrenAt [n] (rootChildren v') = Some cs ->
            exists d,
              fileAt (parsePath (folderTarget [] (TFolder n cs) +:+ ".md"))
                (rootChildren v') = Some d)
        /\ (forall a n cs,
              Str.includes (getExcludedFolders settings) a = false ->
              Str.includes (getExcludedFolders settings) n = false ->
              childrenAt [a; n] (rootChildren v') = Some cs ->
              exists d,
                fileAt (parsePath (folderTarget [a] (TFolder n cs) +:+ ".md"))
                  (rootChildren v') = Some d)).
Proof.
  split.
  { intros parent f. unfold folderLink, folderTarget.
    rewrite !string_app_assoc. reflexivity. }
  split.
  { intros parent f Hp Hf. rewrite (folderTarget_index parent f Hp Hf).
    unfold indexPath, indexName, refName.
    rewrite List.last_last, <- List.app_assoc. reflexivity. }
  intros v v' res Hwf H Hok.
  destruct (initializeStructure_ok v v' res Hwf H Hok) as (_ & Hwf' & Hall & _).
  assert (Hns : forall a ca, childrenAt [a] (rootChildren v') = Some ca ->
                             Str.noSlash a = true /\ wfTree ca = true).
  { intros a ca Hca. unfold childrenAt in Hca. rewrite lookupSegs_cons in Hca.
    destruct (findChild a (rootChildren v')) as [c0|] eqn:Hfind; [|discriminate].
    pose proof (findChild_name _ _ _ Hfind) as Hn.
    pose proof (findChild_In _ _ _ Hfind) as Hin.
    unfold wfTree in Hwf'. rewrite forallb_forall in Hwf'.
    specialize (Hwf' c0 Hin). destruct c0 as [? ? ? ?|n0 cn]; [discriminate|].
    simpl in Hn, Hca, Hwf'. inversion Hca; subst.
    apply andb_true_iff in Hwf'. exact Hwf'. }
  split.
  - intros n cs Hn Hcs.
    destruct (Hns n cs Hcs) as [Hsl _].
    destruct (childrenAt_folder_kept n [] _ cs Hcs Hn) as [Hkn _].
    destruct (Hall n Hkn) as [(d & Hd & _) _].
    rewrite (folderTarget_index [] (TFolder n cs) eq_refl Hsl).
    exists d. exact Hd.
  - intros a n cs Ha Hn Hcs.
    destruct (childrenAt_folder_kept a [n] _ cs Hcs Ha) as (Hka & ca & Hca & Hcn).
    destruct (childrenAt_folder_kept n [] ca cs Hcn Hn) as (Hkn & _).
    destruct (Hns a ca Hca) as [Hsa Hwfa].
    assert (Hsn : Str.noSlash n = true).
    { unfold childrenAt in Hcn. rewrite lookupSegs_cons in Hcn.
      destruct (findChild n ca) as [c0|] eqn:Hfind; [|discriminate].
      pose proof (findChild_name _ _ _ Hfind) as Hnm.
      pose proof (findChild_In _ _ _ Hfind) as Hin.
      unfold wfTree in Hwfa. rewrite forallb_forall in Hwfa.
      specialize (Hwfa c0 Hin). destruct c0 as [? ? ? ?|n0 cn]; [discriminate|].
      simpl in Hnm, Hwfa. subst n0. apply andb_true_iff in Hwfa. apply Hwfa. }
    destruct (Hall a Hka) as [_ Hdeep]. rewrite Hca in Hdeep. simpl in Hdeep.
    destruct (Hdeep n Hkn cs Hcs) as (d & Hd & _).
    rewrite (folderTarget_index [a] (TFolder n cs)).
    + exists d. exact Hd.
    + simpl. rewrite Hsa. reflexivity.
    + exact Hsn.
Qed.

(** ** The pass as a whole *)

(** *** What a pass operates on *)

Lemma ran_refl P v : ran P v v.
Proof. split; [apply callsOn_refl|constructor]. Qed.

Lemma ran_trans P v1 v2 v3 : ran P v1 v2 -> ran P v2 v3 -> ran P v1 v3.
Proof.
  intros [C1 T1] [C2 T2].
  split; [eapply callsOn_trans|eapply touchedMany_trans]; eauto.
Qed.

Lemma ran_weaken (P Q : string -> Prop) v v' :
  (forall s, P s -> Q s) -> ran P v v' -> ran Q v v'.
Proof.
  intros HPQ [C T]. split; [eapply callsOn_weaken; eauto|].
  eapply touchedMany_weaken; [|exact T]. intros q (s & Hs & ->). eauto.
Qed.

Lemma reconcile_ran file p md v v' r :
  reconcile file p md v = (v', r) -> ran (eq p) v v'.
Proof.
  intros H. split; [eapply reconcile_callsOn; eauto|].
  apply reconcile_touchedMany in H.
  eapply touchedMany_weaken; [|exact H]. intros q <-. eauto.
Qed.

Lemma touched_sameFolders (p : list string) (t t' : list TAbstractFile) :
  touched p t t' -> sameFolders t t'.
Proof.
  intros [->|d f Hl He Hu] r; [reflexivity|].
  eapply folderNames_childrenAt_updateAt; eauto.
Qed.

Lemma touchedMany_sameFolders P (t t' : list TAbstractFile) :
  touchedMany P t t' -> sameFolders t t'.
Proof.
  induction 1 as [|t t1 t2 p Hp Ht Hm IH]; intros r; [reflexivity|].
  rewrite (IH r). apply (touched_sameFolders _ _ _ Ht).
Qed.

Lemma sameFolders_keptNames (t t' : list TAbstractFile) (r : Ref) :
  sameFolders t t' ->
  keptNames (default [] (childrenAt r t')) = keptNames (default [] (childrenAt r t)).
Proof.
  intros H. specialize (H r). unfold keptNames.
  destruct (childrenAt r t') as [c'|], (childrenAt r t) as [c|]; simpl in *;
    try discriminate; [|reflexivity].
  injection H as H. rewrite H. reflexivity.
Qed.

Lemma sameFolders_root (t t' : list TAbstractFile) :
  sameFolders t t' -> keptNames t' = keptNames t.
Proof. intros H. apply (sameFolders_keptNames t t' [] H). Qed.

Lemma sameFolders_underTarget (t t' : list TAbstractFile) (a s : string) :
  sameFolders t t' -> underTarget t' a s -> underTarget t a s.
Proof.
  intros H [->|(b & Hb & ->)]; [left; reflexivity|].
  right. exists b. rewrite <- (sameFolders_keptNames t t' [a] H). auto.
Qed.

Lemma ran_sameFolders P v v' :
  ran P v v' -> sameFolders (rootChildren v) (rootChildren v').
Proof. intros [_ T]. eapply touchedMany_sameFolders; eauto. Qed.

Lemma kept_In_keptNames (cs : list TAbstractFile) (c : TAbstractFile) :
  In c cs -> keptFolder c = true -> In (name c) (keptNames cs).
Proof.
  intros Hc Hk. rewrite <- filter_keptFolder_names.
  apply in_map, List.filter_In. auto.
Qed.

Lemma keptNames_includes (cs : list TAbstractFile) (a : string) :
  In a (keptNames cs) -> Str.includes (getExcludedFolders settings) a = false.
Proof.
  unfold keptNames. intros H. apply List.filter_In in H.
  destruct H as [_ H]. apply negb_true_iff, H.
Qed.

Lemma keptNames_noSlash (t : list TAbstractFile) (a : string) :
  wfTree t = true -> In a (keptNames t) -> Str.noSlash a = true.
Proof.
  intros Hwf Ha. apply keptNames_In in Ha. destruct Ha as (f & Hf & <-).
  apply (subFolders_facts t f Hwf Hf).
Qed.

Lemma updateOrCreateLevel3Navigation_ran (r : Ref) v v' res :
  updateOrCreateLevel3Navigation r v = (v', res) ->
  ran (eq (indexPathString r)) v v'.
Proof.
  rewrite updateOrCreateLevel3Navigation_eq.
  destruct (childrenAt r (rootChildren v)) as [cs|];
    [|intros H; inversion H; apply ran_refl].
  destruct (Str.includes _ _); [intros H; inversion H; apply ran_refl|].
  apply reconcile_ran.
Qed.

Lemma forEachM_visitSub_ran (a : string) (l : list TAbstractFile)
    (md : string) v v1 res :
  forEachM l md (visitSub [a]) v = (v1, res) ->
  ran (fun s => exists f, In f l /\ s = indexPathString [a; name f]) v v1.
Proof.
  revert md v. induction l as [|x l IH]; intros md v; simpl.
  - intros H. inversion H. apply ran_refl.
  - unfold bind. rewrite visitSub_eq.
    destruct (updateOrCreateLevel3Navigation ([a] ++ [name x]) v) as [v0 r0] eqn:H3.
    simpl. intros H. eapply ran_trans.
    + apply updateOrCreateLevel3Navigation_ran in H3.
      eapply ran_weaken; [|exact H3].
      intros s <-. exists x. split; [left; reflexivity|reflexivity].
    + eapply ran_weaken; [|exact (IH _ _ H)].
      intros s (f & Hf & ->). exists f. split; [right; exact Hf|reflexivity].
Qed.

Lemma updateOrCreateLevel2Navigation_ran (a : string) v v' res :
  updateOrCreateLevel2Navigation [a] v = (v', res) ->
  ran (underTarget (rootChildren v) a) v v'.
Proof.
  rewrite updateOrCreateLevel2Navigation_eq.
  destruct (Str.includes _ a); [intros H; inversion H; apply ran_refl|].
  cbv zeta.
  destruct (forEachM _ _ _ v) as [v1 r1] eqn:Hloop.
  destruct (forEachM_visitSub_result _ _ _ _ _ _ Hloop) as [-> _].
  intros H. eapply ran_trans.
  - apply forEachM_visitSub_ran in Hloop. eapply ran_weaken; [|exact Hloop].
    intros s (f & Hf & ->). right. exists (name f). split; [|reflexivity].
    apply subFolders_In in Hf. destruct Hf as [Hin Hk].
    apply kept_In_keptNames; assumption.
  - apply reconcile_ran in H. eapply ran_weaken; [|exact H].
    intros s <-. left. reflexivity.
Qed.

Lemma forEachM_visitChild_ran (l : list TAbstractFile) v v' res :
  forEachM l tt (fun _ c => visitChild (getExcludedFolders settings) c) v = (v', res) ->
  ran (visitedTarget (rootChildren v) l) v v'.
Proof.
  revert v. induction l as [|x l IH]; intros v; simpl.
  - intros H. inversion H. apply ran_refl.
  - unfold bind. destruct (visitChild _ x v) as [v0 r0] eqn:Hx. intros H.
    assert (H0 : ran (visitedTarget (rootChildren v) (x :: l)) v v0).
    { rewrite visitChild_eq in Hx. destruct (keptFolder x) eqn:Hk.
      - apply updateOrCreateLevel2Navigation_ran in Hx.
        eapply ran_weaken; [|exact Hx].
        intros s Hs. exists x. split; [left; reflexivity|]. auto.
      - inversion Hx. apply ran_refl. }
    destruct r0 as [[]|e]; [|inversion H; subst; exact H0].
    eapply ran_trans; [exact H0|].
    eapply ran_weaken; [|exact (IH _ H)].
    intros s (c & Hc & Hk & Hu). exists c. split; [right; exact Hc|].
    split; [exact Hk|].
    eapply sameFolders_underTarget; [|exact Hu].
    eapply ran_sameFolders; exact H0.
Qed.

Lemma visitedTarget_passTarget (t t' : list TAbstractFile) (s : string) :
  sameFolders t t' -> visitedTarget t' t' s -> passTarget t s.
Proof.
  intros Hsame (c & Hc & Hk & Hu). right. exists (name c). split.
  - rewrite <- (sameFolders_root _ _ Hsame). apply kept_In_keptNames; assumption.
  - eapply sameFolders_underTarget; eauto.
Qed.

(** Whatever the host answers, the store operations of a pass are on its
    targets, in the log and on the tree. *)
Lemma initializeStructure_ran v v' res :
  initializeStructure v = (v', res) -> ran (passTarget (rootChildren v)) v v'.
Proof.
  rewrite initializeStructure_eq.
  destruct (updateOrCreateRootNavigation v) as [v1 r1] eqn:Hroot.
  rewrite updateOrCreateRootNavigation_eq in Hroot. apply reconcile_ran in Hroot.
  assert (H0 : ran (passTarget (rootChildren v)) v v1).
  { eapply ran_weaken; [|exact Hroot]. intros s <-. left. reflexivity. }
  destruct r1 as [[]|e]; intros H; [|inversion H; subst; exact H0].
  eapply ran_trans; [exact H0|].
  apply forEachM_visitChild_ran in H. eapply ran_weaken; [|exact H].
  intros s Hs. eapply visitedTarget_passTarget; [|exact Hs].
  eapply ran_sameFolders; exact Hroot.
Qed.

(** On a vault where no folder name holds a slash, the path string of a
    target resolves to the path of the index document of a folder of the
    vault at depth one or two, or to the path of the root index. *)
Lemma passTarget_segs (t : list TAbstractFile) (s : string) :
  wfTree t = true -> passTarget t s -> targetSegs t (parsePath s).
Proof.
  intros Hwf [->|(a & Ha & [->|(b & Hb & ->)])].
  - left. reflexivity.
  - right. left. exists a. split; [exact Ha|].
    apply parsePath_index; [discriminate|]. simpl.
    rewrite (keptNames_noSlash t a Hwf Ha). reflexivity.
  - right. right. exists a, b. split; [exact Ha|]. split; [exact Hb|].
    apply parsePath_index; [discriminate|]. simpl.
    rewrite (keptNames_noSlash t a Hwf Ha),
      (keptNames_noSlash _ b (wfTree_default a t Hwf) Hb). reflexivity.
Qed.

Lemma touchedMany_kindOf (P : list string -> Prop) (q : list string)
    (t t' : list TAbstractFile) :
  touchedMany P t t' -> ~ P q ->
  kindOf (lookupSegs q t') = kindOf (lookupSegs q t).
Proof.
  intros T Hq.
  refine (touchedMany_ind_inv P
            (fun t0 => kindOf (lookupSegs q t0) = kindOf (lookupSegs q t))
            _ _ _ T eq_refl).
  intros p t0 t1 Hp [->|d f Hl He Hu] Ht; [exact Ht|].
  rewrite <- Ht. eapply lookupSegs_updateAt_frame; eauto.
  intros ->. contradiction.
Qed.

Lemma ran_untouched P (q : list string) v v' :
  ran P v v' -> (forall s, P s -> parsePath s <> q) -> untouched q v v'.
Proof.
  intros [(l & Hl & Hf) T] Hq. split.
  - exists l. split; [exact Hl|].
    eapply List.Forall_impl; [|exact Hf]. intros c Hc. apply Hq, Hc.
  - apply (touchedMany_kindOf _ q _ _ T). intros (s & Hs & E).
    exact (Hq s Hs (eq_sym E)).
Qed.

Lemma indexPath_inj (r r' : Ref) : indexPath r = indexPath r' -> r = r'.
Proof.
  unfold indexPath. intros H. apply List.app_inj_tail in H. apply H.
Qed.

Lemma targetSegs_deep (t : list TAbstractFile) (r : Ref) :
  3 <= length r -> indexPath r <> rootPath -> ~ targetSegs t (indexPath r).
Proof.
  intros Hlen Hroot [H|[(a & _ & H)|(a & b & _ & _ & H)]]; [contradiction| |];
    apply indexPath_inj in H; subst r; simpl in Hlen; lia.
Qed.

Lemma targetSegs_excluded (t : list TAbstractFile) (r : Ref) :
  (exists n, In n r /\ Str.includes (getExcludedFolders settings) n = true) ->
  indexPath r <> rootPath -> ~ targetSegs t (indexPath r).
Proof.
  intros (n & Hn & Hex) Hroot [H|[(a & Ha & H)|(a & b & Ha & Hb & H)]];
    [contradiction| |]; apply indexPath_inj in H; subst r.
  - destruct Hn as [<-|[]].
    rewrite (keptNames_includes _ _ Ha) in Hex. discriminate.
  - destruct Hn as [<-|[<-|[]]].
    + rewrite (keptNames_includes _ _ Ha) in Hex. discriminate.
    + rewrite (keptNames_includes _ _ Hb) in Hex. discriminate.
Qed.

(** On a vault where no folder name holds a slash, a pass leaves alone every
    resolved path that is not the one of a target. *)
Lemma initializeStructure_untouched v v' res (q : list string) :
  wfTree (rootChildren v) = true ->
  initializeStructure v = (v', res) ->
  ~ targetSegs (rootChildren v) q -> untouched q v v'.
Proof.
  intros Hwf H Hq. apply initializeStructure_ran in H.
  eapply ran_untouched; [exact H|].
  intros s Hs E. apply Hq. rewrite <- E. apply passTarget_segs; assumption.
Qed.

(** *** The text that each step reconciles *)

Lemma updateOrCreateRootNavigation_block (v : Vault) (md : string) :
  md = rootMd (rootChildren v) ->
  updateOrCreateRootNavigation v = rootBlock v md.
Proof. intros ->. reflexivity. Qed.

Lemma updateOrCreateLevel2Navigation_block (a : string) (v : Vault) (md : string) :
  Str.includes (getExcludedFolders settings) a = false ->
  md = level2Md [a] a (indexName [a]) (default [] (childrenAt [a] (rootChildren v))) ->
  updateOrCreateLevel2Navigation [a] v = firstLevelBlock a v md.
Proof.
  intros Hex ->. rewrite (updateOrCreateLevel2Navigation_md a v Hex). reflexivity.
Qed.

Lemma updateOrCreateLevel3Navigation_block (r : Ref) (v : Vault)
    (cs : list TAbstractFile) (md : string) :
  childrenAt r (rootChildren v) = Some cs ->
  Str.includes (getExcludedFolders settings) (refName r) = false ->
  md = deepContent r cs ->
  updateOrCreateLevel3Navigation r v = deepBlock r v md.
Proof.
  intros Hcs Hex ->. rewrite updateOrCreateLevel3Navigation_eq, Hcs, Hex.
  reflexivity.
Qed.

(** *** Errors of the store in a pass *)

Lemma reconcile_throws_iff file (p md : string) (v : Vault) (e : Error) :
  snd (reconcile file p md v) = Throw e <-> readOrOverwriteFails file p md v e.
Proof.
  unfold readOrOverwriteFails. destruct file as [f|].
  - rewrite reconcile_present. split.
    + destruct (read host p v) as [v1 [current|e1]] eqn:Hr.
      * destruct (String.eqb _ _) eqn:E; [discriminate|].
        destruct (modify host p md v1) as [v2 r2] eqn:Hm. simpl. intros ->.
        right. exists v1, current, v2. split; [reflexivity|].
        split; [apply String.eqb_neq, E|exact Hm].
      * simpl. intros H. injection H as ->. left. exists v1. reflexivity.
    + intros [(v1 & Hr)|(v1 & current & v2 & Hr & Hne & Hm)]; rewrite Hr;
        [reflexivity|].
      apply String.eqb_neq in Hne. rewrite Hne, Hm. reflexivity.
  - rewrite reconcile_absent. split.
    + destruct (create host p md v) as [v1 [[]|e0]] eqn:Hc; [discriminate|].
      destruct (lookupSegs _ _) as [f|] eqn:Hf; [|discriminate].
      destruct (modify host p md v1) as [v2 r2] eqn:Hm. simpl. intros ->.
      exists v1, e0, f, v2. auto.
    + intros (v1 & e0 & f & v2 & Hc & Hf & Hm). rewrite Hc, Hf, Hm. reflexivity.
Qed.

Lemma initializeStructure_root_throws (v : Vault) (e : Error) :
  snd (rootBlock v (rootMd (rootChildren v))) = Throw e ->
  exists v',
    initializeStructure v = (v', Throw e)
    /\ callsOn (eq (navigationFileName settings +:+ ".md")) v v'.
Proof.
  intros H. rewrite initializeStructure_eq, updateOrCreateRootNavigation_eq.
  unfold rootBlock in H.
  destruct (reconcile _ _ _ v) as [v1 r1] eqn:Hr. simpl in H. subst r1.
  exists v1. split; [reflexivity|]. eapply reconcile_callsOn; eauto.
Qed.

Lemma keptFolder_includes (c : TAbstractFile) :
  keptFolder c = true -> Str.includes (getExcludedFolders settings) (name c) = false.
Proof.
  unfold keptFolder, notExcluded. intros H. apply andb_true_iff in H.
  destruct H as [_ H]. apply negb_true_iff, H.
Qed.

Lemma initializeStructure_child_throws v v1 (before : list TAbstractFile)
    (child : TAbstractFile) (after : list TAbstractFile) v2 (e : Error) :
  updateOrCreateRootNavigation v = (v1, Ok tt) ->
  rootChildren v1 = before ++ child :: after ->
  forEachM before tt (fun _ c => visitChild (getExcludedFolders settings) c) v1
  = (v2, Ok tt) ->
  keptFolder child = true ->
  snd (firstLevelBlock (name child) v2
         (level2Md [name child] (name child) (indexName [name child])
            (default [] (childrenAt [name child] (rootChildren v2)))))
  = Throw e ->
  snd (initializeStructure v) = Throw e
  /\ callsOn (fun s => s = navigationFileName settings +:+ ".md"
                       \/ visitedTarget (rootChildren v) (before ++ [child]) s)
       v (fst (initializeStructure v)).
Proof.
  intros Hroot Hch Hbefore Hk Hthrow.
  pose proof (keptFolder_includes child Hk) as Hex.
  rewrite initializeStructure_eq, Hroot, Hch, forEachM_app.
  unfold bind. rewrite Hbefore. simpl. unfold bind.
  rewrite visitChild_eq, Hk.
  destruct (updateOrCreateLevel2Navigation [name child] v2) as [v' r] eqn:Hstep.
  pose proof Hstep as Hblock.
  rewrite (updateOrCreateLevel2Navigation_block (name child) v2 _ Hex eq_refl) in Hblock.
  rewrite Hblock in Hthrow. simpl in Hthrow. subst r. simpl.
  split; [reflexivity|].
  rewrite updateOrCreateRootNavigation_eq in Hroot. apply reconcile_ran in Hroot.
  apply forEachM_visitChild_ran in Hbefore.
  apply updateOrCreateLevel2Navigation_ran in Hstep.
  pose proof (ran_sameFolders _ _ _ Hroot) as S1.
  pose proof (ran_sameFolders _ _ _ Hbefore) as S2.
  destruct Hroot as [C1 _], Hbefore as [C2 _], Hstep as [C3 _].
  eapply callsOn_trans; [|eapply callsOn_trans].
  - eapply callsOn_weaken; [|exact C1]. intros s <-. left. reflexivity.
  - eapply callsOn_weaken; [|exact C2].
    intros s (c & Hc & Hkc & Hu). right. exists c.
    split; [apply in_or_app; left; exact Hc|]. split; [exact Hkc|].
    eapply sameFolders_underTarget; eauto.
  - eapply callsOn_weaken; [|exact C3].
    intros s Hu. right. exists child.
    split; [apply in_or_app; right; left; reflexivity|]. split; [exact Hk|].
    eapply sameFolders_underTarget; [exact S1|].
    eapply sameFolders_underTarget; eauto.
Qed.

(** C7, amended.  An error raised by the store when the reconcile step
    reads or overwrites a document is not caught: the step throws it, and
    it throws nothing else.  When a read or an overwrite fails in the root
    step, the pass throws that error and has operated on the root index
    document only.  When it fails in the step of a first-level folder, the
    pass throws that error too, and has operated only on the root index
    document and on what the steps of that folder and of the folders
    enumerated before it work on: the folders enumerated after it are not
    visited.  An error raised by a creation is caught, whatever its cause:
    the step then ends normally when the document is still absent. *)
Theorem store_errors_propagate :
  (forall f navPath md v v1 e,
      read host navPath v = (v1, Throw e) ->
      reconcile (Some f) navPath md v = (v1, Throw e))
  /\ (forall f navPath md v v1 current v2 e,
        read host navPath v = (v1, Ok current) ->
        Str.trim current <> Str.trim md ->
        modify host navPath md v1 = (v2, Throw e) ->
        reconcile (Some f) navPath md v = (v2, Throw e))
  /\ (forall file navPath md v e,
        snd (reconcile file navPath md v) = Throw e
        <-> readOrOverwriteFails file navPath md v e)
  /\ (forall navPath md v v1 e,
        create host navPath md v = (v1, Throw e) ->
        lookupSegs (parsePath navPath) (rootChildren v1) = None ->
        reconcile None navPath md v = (v1, Ok tt))
  /\ (forall v e,
        readOrOverwriteFails (lookupSegs rootPath (rootChildren v))
          (navigationFileName settings +:+ ".md") (rootMd (rootChildren v)) v e ->
        exists v',
          initializeStructure v = (v', Throw e)
          /\ callsOn (eq (navigationFileName settings +:+ ".md")) v v')
  /\ (forall v v1 before child after v2 e,
        updateOrCreateRootNavigation v = (v1, Ok tt) ->
        rootChildren v1 = before ++ child :: after ->
        forEachM before tt (fun _ c => visitChild (getExcludedFolders settings) c) v1
        = (v2, Ok tt) ->
        keptFolder child = true ->
        readOrOverwriteFails
          (lookupSegs (parsePath (indexPathString [name child])) (rootChildren v2))
          (indexPathString [name child])
          (level2Md [name child] (name child) (indexName [name child])
             (default [] (childrenAt [name child] (rootChildren v2))))
          (afterSubFolders (name child) v2) e ->
        snd (initializeStructure v) = Throw e
        /\ callsOn (fun s => s = navigationFileName settings +:+ ".md"
                             \/ visitedTarget (rootChildren v) (before ++ [child]) s)
             v (fst (initializeStructure v))).
Proof.
  split; [|split; [|split; [|split; [|split]]]].
  - intros f navPath md v v1 e H. rewrite reconcile_present, H. reflexivity.
  - intros f navPath md v v1 current v2 e H Hne Hm.
    rewrite reconcile_present, H.
    apply String.eqb_neq in Hne. rewrite Hne. exact Hm.
  - apply reconcile_throws_iff.
  - intros navPath md v v1 e H Hf. rewrite reconcile_absent, H, Hf. reflexivity.
  - intros v e H. apply initializeStructure_root_throws.
    apply reconcile_throws_iff, H.
  - intros v v1 before child after v2 e Hroot Hch Hbefore Hk H.
    eapply initializeStructure_child_throws; eauto.
    apply reconcile_throws_iff, H.
Qed.

Lemma failedOn_weaken (P Q : string -> Prop) v v' :
  (forall s, P s -> Q s) -> failedOn P v v' -> failedOn Q v v'.
Proof.
  intros HPQ (l & Hl & He). exists l. split; [exact Hl|].
  eapply List.Exists_impl; [|exact He]. intros c (Hok & Hp & Ho). auto.
Qed.

Lemma failedOn_since v0 v v' P :
  extends v0 v -> failedOn P v v' -> failedOn P v0 v'.
Proof.
  intros [l0 H0] (l & Hl & He). exists (l0 ++ l).
  rewrite Hl, H0, List.app_assoc. split; [reflexivity|].
  apply List.Exists_app. right. exact He.
Qed.

Lemma failedOn_last (P : string -> Prop) v v' (o : Op) :
  calls v' = calls v ++ [mkCall o false] -> P (opPath o) ->
  match o with OpCreate _ _ => False | _ => True end ->
  failedOn P v v'.
Proof.
  intros Hc Hp Ho. exists [mkCall o false]. split; [exact Hc|].
  constructor. simpl. auto.
Qed.

Lemma reconcile_failedOn file (p md : string) v v' (e : Error) :
  reconcile file p md v = (v', Throw e) -> failedOn (eq p) v v'.
Proof.
  assert (Hmod : forall w w', modify host p md w = (w', Throw e) ->
                              failedOn (eq p) w w').
  { intros w w' Hm. apply modify_inv in Hm. destruct Hm as [Hm _].
    apply (failedOn_last _ _ _ (OpModify p md) Hm); [reflexivity|exact I]. }
  destruct file as [f|].
  - rewrite reconcile_present.
    destruct (read host p v) as [v1 [current|e1]] eqn:Hr.
    + destruct (String.eqb _ _); [discriminate|]. intros H.
      eapply failedOn_since; [eapply read_extends; eauto|apply Hmod, H].
    + intros H. inversion H; subst. apply read_inv in Hr. destruct Hr as [Hr _].
      apply (failedOn_last _ _ _ (OpRead p) Hr); [reflexivity|exact I].
  - rewrite reconcile_absent.
    destruct (create host p md v) as [v1 [[]|e1]] eqn:Hc; [discriminate|].
    destruct (lookupSegs _ _); [|discriminate]. intros H.
    eapply failedOn_since; [eapply create_extends; eauto|apply Hmod, H].
Qed.

Lemma updateOrCreateLevel2Navigation_failedOn (a : string) v v' (e : Error) :
  updateOrCreateLevel2Navigation [a] v = (v', Throw e) ->
  failedOn (eq (indexPathString [a])) v v'.
Proof.
  rewrite updateOrCreateLevel2Navigation_eq.
  destruct (Str.includes _ a); [discriminate|]. cbv zeta.
  destruct (forEachM _ _ _ v) as [v1 r1] eqn:Hloop.
  destruct (forEachM_visitSub_result _ _ _ _ _ _ Hloop) as [-> Hext].
  intros H. eapply failedOn_since; [exact Hext|].
  apply reconcile_failedOn in H. exact H.
Qed.

Lemma forEachM_visitChild_failedOn (l : list TAbstractFile) v v' (e : Error) :
  forEachM l tt (fun _ c => visitChild (getExcludedFolders settings) c) v
  = (v', Throw e) ->
  failedOn (fun s => exists c, In c l /\ keptFolder c = true
                               /\ s = indexPathString [name c]) v v'.
Proof.
  revert v. induction l as [|x l IH]; intros v; simpl; [discriminate|].
  unfold bind. destruct (visitChild _ x v) as [v0 [[]|e0]] eqn:Hx.
  - intros H. eapply failedOn_since; [eapply visitChild_extends; eauto|].
    eapply failedOn_weaken; [|exact (IH _ H)].
    intros s (c & Hc & Hk & ->). exists c. split; [right; exact Hc|]. auto.
  - intros H. inversion H; subst. rewrite visitChild_eq in Hx.
    destruct (keptFolder x) eqn:Hk; [|discriminate].
    apply updateOrCreateLevel2Navigation_failedOn in Hx.
    eapply failedOn_weaken; [|exact Hx].
    intros s <-. exists x. split; [left; reflexivity|]. auto.
Qed.

(** X6.  A pass is cut short only by a failed read or a failed overwrite
    of the root index document or of the index document of a first-level
    folder of the vault that is not excluded: when the pass throws, such a
    failed operation is among those issued since it started.  A failed
    creation never ends a pass, and no failure on the index document of a
    second-level folder does: the loop that starts the steps of the
    sub-folders always hands the step of their parent an ordinary
    result. *)
Theorem pass_cut_short_only_above v v' e :
  initializeStructure v = (v', Throw e) ->
  failedOn (awaitedTarget (rootChildren v)) v v'
  /\ forall a l md w,
       exists w', forEachM l md (visitSub [a]) w
                  = (w', Ok (fold_left (fun md f => md +:+ folderLink [a] f) l md)).
Proof.
  intros H. split.
  - rewrite initializeStructure_eq in H.
    destruct (updateOrCreateRootNavigation v) as [v1 [[]|e1]] eqn:Hroot;
      rewrite updateOrCreateRootNavigation_eq in Hroot.
    + pose proof (ran_sameFolders _ _ _ (reconcile_ran _ _ _ _ _ _ Hroot)) as Hsame.
      eapply failedOn_since; [eapply reconcile_extends; eauto|].
      apply forEachM_visitChild_failedOn in H.
      eapply failedOn_weaken; [|exact H].
      intros s (c & Hc & Hk & ->). right. exists (name c). split; [|reflexivity].
      rewrite <- (sameFolders_root _ _ Hsame). apply kept_In_keptNames; assumption.
    + inversion H; subst. apply reconcile_failedOn in Hroot.
      eapply failedOn_weaken; [|exact Hroot]. intros s <-. left. reflexivity.
  - intros a l md w.
    destruct (forEachM l md (visitSub [a]) w) as [w' r] eqn:Hloop.
    destruct (forEachM_visitSub_result _ _ _ _ _ _ Hloop) as [-> _].
    exists w'. reflexivity.
Qed.

(** *** What a pass leaves alone, and what it never gives an index *)

(** The last segment of the path of a target ends in [.md]. *)
Lemma passTarget_md (t : list TAbstractFile) (s : string) :
  passTarget t s -> exists x, List.last (parsePath s) "" = x +:+ ".md".
Proof.
  unfold parsePath.
  intros [->|(a & _ & [->|(b & _ & ->)])]; eexists;
    unfold indexPathString, indexName;
    rewrite <- ?string_app_assoc; apply last_split_snoc; reflexivity.
Qed.

(** X5.  Whatever the host answers, a pass deletes nothing and touches
    only its targets: the root index document, the index documents of the
    first-level folders of the vault that are not excluded, and those of
    their sub-folders that are not excluded.  What sits at a path that is
    not the path of a target is the same after the pass: still absent,
    still a folder, or the same document with the same content; so it is
    with every path whose last segment does not end in [.md], and, on a
    vault where no folder name holds a slash, with every path that is
    neither the one of the root index document, nor [a/a.md] for a kept
    first-level folder [a], nor [a/b/b.md] for a kept sub-folder [b] of
    one, and no store operation is on such a path.  Every node still
    sits at its path with its name and kind.  And the folders below every
    folder, the root included, are the same, in the same order. *)
Theorem pass_leaves_the_rest v v' res :
  initializeStructure v = (v', res) ->
  (forall q,
      (forall s, passTarget (rootChildren v) s -> q <> parsePath s) ->
      kindOf (lookupSegs q (rootChildren v')) = kindOf (lookupSegs q (rootChildren v)))
  /\ (wfTree (rootChildren v) = true ->
      forall q, ~ targetSegs (rootChildren v) q -> untouched q v v')
  /\ (forall q c,
        lookupSegs q (rootChildren v) = Some c ->
        exists c', lookupSegs q (rootChildren v') = Some c'
                   /\ isTFolder c' = isTFolder c /\ name c' = name c)
  /\ (forall r,
        option_map folderNames (childrenAt r (rootChildren v'))
        = option_map folderNames (childrenAt r (rootChildren v)))
  /\ (forall q,
        (forall x, List.last q "" <> x +:+ ".md") ->
        kindOf (lookupSegs q (rootChildren v')) = kindOf (lookupSegs q (rootChildren v))).
Proof.
  intros H. pose proof (initializeStructure_ran _ _ _ H) as [_ T].
  assert (Hframe : forall q,
             (forall s, passTarget (rootChildren v) s -> q <> parsePath s) ->
             kindOf (lookupSegs q (rootChildren v'))
             = kindOf (lookupSegs q (rootChildren v))).
  { intros q Hq. apply (touchedMany_kindOf _ q _ _ T).
    intros (s & Hs & E). exact (Hq s Hs E). }
  split; [exact Hframe|]. split.
  { intros Hwf q Hq. eapply initializeStructure_untouched; eauto. }
  split.
  { intros q c Hc.
    refine (touchedMany_ind_inv _
              (fun t => exists c', lookupSegs q t = Some c'
                                   /\ isTFolder c' = isTFolder c /\ name c' = name c)
              _ _ _ T _); [|eauto].
    intros p t t' _ Ht (c1 & Hc1 & Hk1 & Hn1).
    destruct (lookupSegs_touched_stays p q t t' c1 Ht Hc1) as (c2 & Hc2 & Hk2 & Hn2).
    exists c2. split; [exact Hc2|]. split; congruence. }
  split; [exact (touchedMany_sameFolders _ _ _ T)|].
  intros q Hq. apply Hframe. intros s Hs ->.
  destruct (passTarget_md _ s Hs) as [x Hx]. exact (Hq x Hx).
Qed.

(** C1, amended.  After a pass whose store operations all succeed, every
    folder at depth two whose name and whose first-level parent's name are
    not excluded holds an index document named after it (its name and
    [.md]) whose content is, up to surrounding whitespace, the heading
    [#Navigation for <name>], an empty line and the full output of the
    recursive builder on that folder, joined by line breaks.  No folder at
    depth three or deeper is given an index document of its own.
    Whatever the host answers, every store operation of a pass is on the
    root index document, on the index document of a first-level folder of
    the vault that is not excluded, or on the index document of a
    sub-folder of such a folder that is not excluded.  So on a vault where
    no folder name holds a slash, no store operation is on the path of the
    index document of a folder at depth three or deeper, and what sits at
    that path is what sat there, unless that path is the path of the root
    index document. *)
Theorem second_level_index_documents :
  (forall v v' res (a b : string) (cs : list TAbstractFile),
      wfTree (rootChildren v) = true ->
      initializeStructure v = (v', res) ->
      okSince v v' ->
      Str.includes (getExcludedFolders settings) a = false ->
      Str.includes (getExcludedFolders settings) b = false ->
      childrenAt [a; b] (rootChildren v') = Some cs ->
      exists bn e d,
        lookupSegs [a; b; b +:+ ".md"] (rootChildren v')
        = Some (TFile (b +:+ ".md") bn e d)
        /\ Str.trim d
           = Str.trim ("#Navigation for " +:+ b +:+ Str.nl +:+ Str.nl
                       +:+ Str.join Str.nl
                             (buildRecursiveContent (TFolder b cs) (b +:+ ".md") 0)
                       +:+ Str.nl))
  /\ (forall v v' res,
        initializeStructure v = (v', res) ->
        exists l, calls v' = calls v ++ l
                  /\ Forall (fun c => passTarget (rootChildren v) (opPath (callOp c))) l)
  /\ (forall v v' res (r : Ref),
        wfTree (rootChildren v) = true ->
        initializeStructure v = (v', res) ->
        3 <= length r ->
        indexPath r <> rootPath ->
        (exists l, calls v' = calls v ++ l
                   /\ Forall (fun c => parsePath (opPath (callOp c)) <> indexPath r) l)
        /\ kindOf (lookupSegs (indexPath r) (rootChildren v'))
           = kindOf (lookupSegs (indexPath r) (rootChildren v))).
Proof.
  split; [|split].
  - intros v v' res a b cs Hwf H Hok Ha Hb Hcs.
    destruct (initializeStructure_ok v v' res Hwf H Hok) as (_ & _ & Hall & _).
    destruct (childrenAt_folder_kept a [b] _ cs Hcs Ha) as (Hka & ca & Hca & Hcb).
    destruct (childrenAt_folder_kept b [] ca cs Hcb Hb) as (Hkb & _).
    destruct (Hall a Hka) as [_ Hdeep].
    rewrite Hca in Hdeep. simpl in Hdeep.
    destruct (Hdeep b Hkb cs Hcs) as (d & Hd & Htrim).
    unfold fileAt in Hd. rewrite indexPath_2 in Hd.
    destruct (lookupSegs [a; b; b +:+ ".md"] (rootChildren v'))
      as [[nm bn e d'|nm cn]|] eqn:Hl; try discriminate.
    inversion Hd; subst d'.
    pose proof (lookupSegs_name _ _ _ Hl) as Hn. simpl in Hn. subst nm.
    exists bn, e, d. split; [reflexivity|exact Htrim].
  - intros v v' res H. apply (initializeStructure_ran _ _ _ H).
  - intros v v' res r Hwf H Hlen Hroot.
    apply (initializeStructure_untouched v v' res (indexPath r) Hwf H).
    apply targetSegs_deep; assumption.
Qed.

(** *** What the steps leave out of their texts *)

(** C3, amended.  An excluded container is skipped.  The steps of a
    first-level and of a deep container, and the loop of the pass, do
    nothing at all on a folder whose name is excluded: no store operation,
    no change.  The folders that any listing enumerates are not excluded.
    On a vault where no folder name holds a slash, whatever the host
    answers, a pass issues no store operation on the path of the index
    document of a folder that is excluded or lies below an excluded
    folder, and what sits at that path is what sat there, unless that path
    is the path of the root index document.  And the text that the root
    step, the step of a first-level folder and the step of a deep folder
    reconcile, the sub-folders for which a deeper step is started, and the
    output of the recursive builder are what they would be without the
    excluded folders and all that they hold. *)
Theorem excluded_containers_skipped :
  (forall a v,
      Str.includes (getExcludedFolders settings) a = true ->
      updateOrCreateLevel2Navigation [a] v = (v, Ok tt))
  /\ (forall r v,
        Str.includes (getExcludedFolders settings) (refName r) = true ->
        updateOrCreateLevel3Navigation r v = (v, Ok tt))
  /\ (forall c v,
        Str.includes (getExcludedFolders settings) (name c) = true ->
        visitChild (getExcludedFolders settings) c v = (v, Ok tt))
  /\ (forall cs,
        Forall (fun f => Str.includes (getExcludedFolders settings) (name f) = false)
          (rootFolders cs)
        /\ Forall (fun f => Str.includes (getExcludedFolders settings) (name f) = false)
             (subFolders cs))
  /\ (forall v v' res (r : Ref),
        wfTree (rootChildren v) = true ->
        initializeStructure v = (v', res) ->
        (exists n, In n r /\ Str.includes (getExcludedFolders settings) n = true) ->
        indexPath r <> rootPath ->
        (exists l, calls v' = calls v ++ l
                   /\ Forall (fun c => parsePath (opPath (callOp c)) <> indexPath r) l)
        /\ kindOf (lookupSegs (indexPath r) (rootChildren v'))
           = kindOf (lookupSegs (indexPath r) (rootChildren v)))
  /\ (forall v,
        updateOrCreateRootNavigation v
        = rootBlock v (rootMd (listFilter notExcludedFolder (rootChildren v))))
  /\ (forall a v,
        Str.includes (getExcludedFolders settings) a = false ->
        updateOrCreateLevel2Navigation [a] v
        = firstLevelBlock a v
            (level2Md [a] a (indexName [a])
               (listFilter notExcludedFolder
                  (default [] (childrenAt [a] (rootChildren v))))))
  /\ (forall r v cs,
        childrenAt r (rootChildren v) = Some cs ->
        Str.includes (getExcludedFolders settings) (refName r) = false ->
        updateOrCreateLevel3Navigation r v
        = deepBlock r v
            (level3Content (refName r)
               (buildRecursiveContent
                  (treeFilter notExcludedFolder (TFolder (refName r) cs))
                  (indexName r) 0)))
  /\ (forall cs, rootMd (listFilter notExcludedFolder cs) = rootMd cs)
  /\ (forall folder n navName cs,
        level2Md folder n navName (listFilter notExcludedFolder cs)
        = level2Md folder n navName cs)
  /\ (forall cs,
        map name (subFolders (listFilter notExcludedFolder cs))
        = map name (subFolders cs))
  /\ (forall folder ex level,
        buildRecursiveContent (treeFilter notExcludedFolder folder) ex level
        = buildRecursiveContent folder ex level).
Proof.
  split.
  { intros a v Hex. rewrite updateOrCreateLevel2Navigation_eq, Hex. reflexivity. }
  split.
  { intros r v Hex. rewrite updateOrCreateLevel3Navigation_eq, Hex.
    destruct (childrenAt r (rootChildren v)); reflexivity. }
  split.
  { intros c v Hex. rewrite visitChild_eq. unfold keptFolder, notExcluded.
    rewrite Hex, andb_false_r. reflexivity. }
  split.
  { intros cs. split; apply subFolders_notExcluded. }
  split.
  { intros v v' res r Hwf H Hex Hroot.
    apply (initializeStructure_untouched v v' res (indexPath r) Hwf H).
    apply targetSegs_excluded; assumption. }
  split.
  { intros v. apply updateOrCreateRootNavigation_block.
    apply rootMd_listFilter, keptFolder_notExcludedFolder. }
  split.
  { intros a v Hex. apply (updateOrCreateLevel2Navigation_block a v _ Hex).
    apply level2Md_listFilter.
    - apply keptFolder_notExcludedFolder.
    - apply keptFile_notExcludedFolder. }
  split.
  { intros r v cs Hcs Hex.
    apply (updateOrCreateLevel3Navigation_block r v cs _ Hcs Hex).
    unfold deepContent. f_equal.
    apply buildRecursiveContent_treeFilter.
    - apply keptFolder_notExcludedFolder.
    - apply keptFile_notExcludedFolder. }
  split.
  { intros cs. apply rootMd_listFilter, keptFolder_notExcludedFolder. }
  split.
  { intros folder n navName cs. apply level2Md_listFilter.
    - apply keptFolder_notExcludedFolder.
    - apply keptFile_notExcludedFolder. }
  split.
  { intros cs. rewrite !subFolders_names.
    rewrite (keptNames_listFilter _ cs keptFolder_notExcludedFolder). reflexivity. }
  intros folder ex level. apply buildRecursiveContent_treeFilter.
  - apply keptFolder_notExcludedFolder.
  - apply keptFile_notExcludedFolder.
Qed.

Lemma rootPath_single :
  Str.noSlash (navigationFileName settings) = true ->
  rootPath = [navigationFileName settings +:+ ".md"].
Proof.
  intros Hn. unfold rootPath, parsePath.
  apply split_noSlash, noSlash_md, Hn.
Qed.

(** C4, amended.  The index document of a first-level or second-level
    folder never lists itself.  The documents that a step enumerates do
    not bear the name of the index document; the text that the step of a
    first-level folder and the step of a deep folder reconcile is the one
    computed without any file of that name (at any depth, for the
    recursive builder); and after the index document of a folder has been
    created or overwritten, the content generated for that folder is the
    same as before.  The root step reconciles a text that lists folders
    only.  When the configured root name and the names of the folders
    hold no slash, no folder link of the root index points at the root
    index document, and no folder link of the index of a first-level
    folder points at that index. *)
Theorem index_document_never_lists_itself :
  (forall navName cs, Forall (fun f => name f <> navName) (mdFiles navName cs))
  /\ (forall n cs ex level,
        buildRecursiveContent (TFolder n cs) ex level
        = flat_map (fun sub => subLine level sub
                                 :: buildRecursiveContent sub ex (S level))
            (subFolders cs)
          ++ map (fileLine level) (mdFiles ex cs))
  /\ (forall a v,
        Str.includes (getExcludedFolders settings) a = false ->
        updateOrCreateLevel2Navigation [a] v
        = firstLevelBlock a v
            (level2Md [a] a (indexName [a])
               (listFilter (notNamed (indexName [a]))
                  (default [] (childrenAt [a] (rootChildren v))))))
  /\ (forall r v cs,
        childrenAt r (rootChildren v) = Some cs ->
        Str.includes (getExcludedFolders settings) (refName r) = false ->
        updateOrCreateLevel3Navigation r v
        = deepBlock r v
            (level3Content (refName r)
               (buildRecursiveContent
                  (treeFilter (notNamed (indexName r)) (TFolder (refName r) cs))
                  (indexName r) 0)))
  /\ (forall v,
        updateOrCreateRootNavigation v
        = rootBlock v (rootMd (List.filter isTFolder (rootChildren v))))
  /\ (forall folder n navName cs,
        level2Md folder n navName (listFilter (notNamed navName) cs)
        = level2Md folder n navName cs)
  /\ (forall folder ex level,
        buildRecursiveContent (treeFilter (notNamed ex) folder) ex level
        = buildRecursiveContent folder ex level)
  /\ (forall r t t' c1,
        touched (indexPath r) t t' -> childrenAt r t' = Some c1 ->
        exists c0, childrenAt r t = Some c0 /\ deepContent r c1 = deepContent r c0)
  /\ (forall a t t',
        touched (indexPath [a]) t t' ->
        level2Md [a] a (indexName [a]) (default [] (childrenAt [a] t'))
        = level2Md [a] a (indexName [a]) (default [] (childrenAt [a] t)))
  /\ (forall f,
        Str.noSlash (navigationFileName settings) = true ->
        Str.noSlash (name f) = true ->
        parsePath (folderTarget [] f +:+ ".md") <> rootPath)
  /\ (forall a f,
        Str.noSlash a = true -> Str.noSlash (name f) = true ->
        parsePath (folderTarget [a] f +:+ ".md") <> indexPath [a]).
Proof.
  split; [apply mdFiles_not_index|].
  split; [intros; apply buildRecursiveContent_eq|].
  split.
  { intros a v Hex. apply (updateOrCreateLevel2Navigation_block a v _ Hex).
    apply level2Md_listFilter.
    - apply keptFolder_notNamed.
    - apply keptFile_notNamed. }
  split.
  { intros r v cs Hcs Hex.
    apply (updateOrCreateLevel3Navigation_block r v cs _ Hcs Hex).
    unfold deepContent. f_equal.
    apply buildRecursiveContent_treeFilter.
    - apply keptFolder_notNamed.
    - apply keptFile_notNamed. }
  split.
  { intros v. apply updateOrCreateRootNavigation_block.
    apply rootMd_cong, folderNames_filter_isTFolder. }
  split.
  { intros folder n navName cs. apply level2Md_listFilter.
    - apply keptFolder_notNamed.
    - apply keptFile_notNamed. }
  split.
  { intros folder ex level. apply buildRecursiveContent_treeFilter.
    - apply keptFolder_notNamed.
    - apply keptFile_notNamed. }
  split; [apply deepContent_touched|].
  split.
  { intros a t t' Ht. apply level2Md_cong.
    apply (view_touched_under a (indexPath [a])); [exact Ht|left; reflexivity]. }
  split.
  - intros f Hn Hf. rewrite (folderTarget_index [] f eq_refl Hf), (rootPath_single Hn).
    discriminate.
  - intros a f Ha Hf. rewrite (folderTarget_index [a] f); [discriminate| |exact Hf].
    simpl. rewrite Ha. reflexivity.
Qed.

(** X11.  Only folders and markdown documents are listed.  The documents
    that a listing enumerates all have the extension [md].  The text that
    the root step, the step of a first-level folder and the step of a deep
    folder reconcile, and the output of the recursive builder, are what
    they would be if every document whose extension is not [md] were
    removed from the vault, at any depth. *)
Theorem only_markdown_is_listed :
  (forall navName cs, Forall (fun f => extension f = "md" /\ isTFile f = true)
                        (mdFiles navName cs))
  /\ (forall v,
        updateOrCreateRootNavigation v
        = rootBlock v (rootMd (listFilter listable (rootChildren v))))
  /\ (forall a v,
        Str.includes (getExcludedFolders settings) a = false ->
        updateOrCreateLevel2Navigation [a] v
        = firstLevelBlock a v
            (level2Md [a] a (indexName [a])
               (listFilter listable (default [] (childrenAt [a] (rootChildren v))))))
  /\ (forall r v cs,
        childrenAt r (rootChildren v) = Some cs ->
        Str.includes (getExcludedFolders settings) (refName r) = false ->
        updateOrCreateLevel3Navigation r v
        = deepBlock r v
            (level3Content (refName r)
               (buildRecursiveContent
                  (treeFilter listable (TFolder (refName r) cs)) (indexName r) 0)))
  /\ (forall cs, rootMd (listFilter listable cs) = rootMd cs)
  /\ (forall folder n navName cs,
        level2Md folder n navName (listFilter listable cs)
        = level2Md folder n navName cs)
  /\ (forall folder ex level,
        buildRecursiveContent (treeFilter listable folder) ex level
        = buildRecursiveContent folder ex level).
Proof.
  split.
  { intros navName cs. apply sortBy_Forall. apply List.Forall_forall.
    intros f Hf. apply List.filter_In in Hf. destruct Hf as [_ Hf].
    unfold keptFile in Hf. apply andb_true_iff in Hf. destruct Hf as [Hf _].
    apply andb_true_iff in Hf. destruct Hf as [Hfile Hext].
    apply String.eqb_eq in Hext. auto. }
  split.
  { intros v. apply updateOrCreateRootNavigation_block.
    apply rootMd_listFilter, keptFolder_listable. }
  split.
  { intros a v Hex. apply (updateOrCreateLevel2Navigation_block a v _ Hex).
    apply level2Md_listFilter.
    - apply keptFolder_listable.
    - apply keptFile_listable. }
  split.
  { intros r v cs Hcs Hex.
    apply (updateOrCreateLevel3Navigation_block r v cs _ Hcs Hex).
    unfold deepContent. f_equal.
    apply buildRecursiveContent_treeFilter.
    - apply keptFolder_listable.
    - apply keptFile_listable. }
  split; [intros cs; apply rootMd_listFilter, keptFolder_listable|].
  split.
  { intros folder n navName cs. apply level2Md_listFilter.
    - apply keptFolder_listable.
    - apply keptFile_listable. }
  intros folder ex level. apply buildRecursiveContent_treeFilter.
  - apply keptFolder_listable.
  - apply keptFile_listable.
Qed.

(** X12.  The listings are computed from names alone.  Rewriting the
    content of every document of a container, at any depth, changes no
    line of the recursive builder, nor the text that the step of a deep
    folder reconciles; and the text that the root step and the step of a
    first-level folder reconcile depends on the direct children only,
    through their names: it is the text computed once every child folder
    and every child document has been emptied. *)
Theorem listings_depend_on_names_only :
  (forall g folder ex level,
      buildRecursiveContent (mapData g folder) ex level
      = buildRecursiveContent folder ex level)
  /\ (forall g r v cs,
        childrenAt r (rootChildren v) = Some cs ->
        Str.includes (getExcludedFolders settings) (refName r) = false ->
        updateOrCreateLevel3Navigation r v
        = deepBlock r v
            (level3Content (refName r)
               (buildRecursiveContent
                  (mapData g (TFolder (refName r) cs)) (indexName r) 0)))
  /\ (forall v,
        updateOrCreateRootNavigation v
        = rootBlock v (rootMd (map skel (rootChildren v))))
  /\ (forall a v,
        Str.includes (getExcludedFolders settings) a = false ->
        updateOrCreateLevel2Navigation [a] v
        = firstLevelBlock a v
            (level2Md [a] a (indexName [a])
               (map skel (default [] (childrenAt [a] (rootChildren v))))))
  /\ (forall cs, rootMd (map skel cs) = rootMd cs)
  /\ (forall folder n navName cs,
        level2Md folder n navName (map skel cs) = level2Md folder n navName cs).
Proof.
  split; [intros; apply buildRecursiveContent_mapData|].
  split.
  { intros g r v cs Hcs Hex.
    apply (updateOrCreateLevel3Navigation_block r v cs _ Hcs Hex).
    unfold deepContent. f_equal. apply buildRecursiveContent_mapData. }
  split.
  { intros v. apply updateOrCreateRootNavigation_block.
    apply rootMd_cong, folderNames_skel. }
  split.
  { intros a v Hex. apply (updateOrCreateLevel2Navigation_block a v _ Hex).
    apply level2Md_cong, view_skel. }
  split.
  - intros cs. apply rootMd_cong, folderNames_skel.
  - intros folder n navName cs. apply level2Md_cong, view_skel.
Qed.

(** X15.  The order in which the host enumerates the children of a folder
    does not show in the text that the root step and the step of a
    first-level folder reconcile: with a collation that is a total
    preorder and under which no two different listed names are equal, the
    text is the one computed from any other enumeration of the same
    children. *)
Theorem listings_ignore_enumeration_order (cs cs' : list TAbstractFile) :
  totalPreorder ->
  Permutation cs cs' ->
  tieFree (keptNames cs) ->
  rootMd cs = rootMd cs'
  /\ (forall folder n navName,
        tieFree (mdBasenames navName cs) ->
        level2Md folder n navName cs = level2Md folder n navName cs')
  /\ (forall v,
        rootChildren v = cs ->
        updateOrCreateRootNavigation v = rootBlock v (rootMd cs'))
  /\ (forall a v,
        Str.includes (getExcludedFolders settings) a = false ->
        default [] (childrenAt [a] (rootChildren v)) = cs ->
        tieFree (mdBasenames (indexName [a]) cs) ->
        updateOrCreateLevel2Navigation [a] v
        = firstLevelBlock a v (level2Md [a] a (indexName [a]) cs')).
Proof.
  intros Hcmp Hp Htie.
  assert (Hk : sortBy (fun n => n) (keptNames cs) = sortBy (fun n => n) (keptNames cs')).
  { apply (sortBy_Permutation_eq _ _ Hcmp Htie).
    unfold keptNames, folderNames.
    apply filter_Permutation', Permutation_map, filter_Permutation', Hp. }
  assert (Hroot : rootMd cs = rootMd cs')
    by (rewrite !rootMd_names, Hk; reflexivity).
  assert (Hl2 : forall folder n navName,
             tieFree (mdBasenames navName cs) ->
             level2Md folder n navName cs = level2Md folder n navName cs').
  { intros folder n navName Htie2. rewrite !level2Md_names, Hk.
    rewrite (sortBy_Permutation_eq (mdBasenames navName cs) (mdBasenames navName cs')
               Hcmp Htie2).
    - reflexivity.
    - unfold mdBasenames. apply Permutation_map, filter_Permutation', Hp. }
  split; [exact Hroot|]. split; [exact Hl2|]. split.
  - intros v Hv. apply updateOrCreateRootNavigation_block.
    rewrite Hv. symmetry. exact Hroot.
  - intros a v Hex Hcs Htie2.
    apply (updateOrCreateLevel2Navigation_block a v _ Hex).
    rewrite Hcs. symmetry. apply Hl2, Htie2.
Qed.

(** *** The order of the entries in the texts *)

Lemma string_app_nil_r (s : string) : s +:+ "" = s.
Proof.
  induction s as [|c s IH]; [reflexivity|].
  change (String c (s +:+ "") = String c s). rewrite IH. reflexivity.
Qed.

Lemma fold_left_linesOf {A} (g : A -> string) (l : list A) (h : string) :
  fold_left (fun md x => md +:+ g x) l h = h +:+ linesOf g l.
Proof.
  revert h. induction l as [|x l IH]; intros h.
  - unfold linesOf. simpl. symmetry. apply string_app_nil_r.
  - simpl. rewrite IH. unfold linesOf. simpl. apply string_app_assoc.
Qed.

Lemma rootMd_lines (cs : list TAbstractFile) :
  rootMd cs
  = ("#" +:+ navigationFileName settings +:+ Str.nl +:+ Str.nl)
    +:+ linesOf (folderLink []) (rootFolders cs).
Proof. unfold rootMd. apply fold_left_linesOf. Qed.

Lemma level2Md_lines (folder : Ref) (n navName : string) (cs : list TAbstractFile) :
  level2Md folder n navName cs
  = (("#Navigation for " +:+ n +:+ Str.nl +:+ Str.nl)
     +:+ linesOf (folderLink folder) (subFolders cs))
    +:+ linesOf fileLink (mdFiles navName cs).
Proof. unfold level2Md. rewrite !fold_left_linesOf. reflexivity. Qed.

Lemma sorted_precedes {A} (key : A -> string) (l : list A) (x y : A) :
  totalPreorder -> StronglySorted (byKey key) l ->
  In x l -> In y l -> (0 < compareNames (key y) (key x))%Z ->
  precedes x y l.
Proof.
  intros [Htot _] Hs. induction Hs as [|z l Hs IH Hz]; intros Hx Hy Hlt;
    [destruct Hx|].
  rewrite List.Forall_forall in Hz.
  destruct Hy as [->|Hy].
  - exfalso. destruct Hx as [->|Hx].
    + pose proof (Htot _ _ Hlt). lia.
    + specialize (Hz x Hx). unfold byKey in Hz. lia.
  - destruct Hx as [->|Hx].
    + apply List.in_split in Hy. destruct Hy as (l2 & l3 & ->).
      exists [], l2, l3. reflexivity.
    + destruct (IH Hx Hy Hlt) as (l1 & l2 & l3 & ->).
      exists (z :: l1), l2, l3. reflexivity.
Qed.

Lemma sortBy_precedes {A} (key : A -> string) (l : list A) (x y : A) :
  totalPreorder -> In x l -> In y l ->
  (0 < compareNames (key y) (key x))%Z ->
  precedes x y (sortBy key l).
Proof.
  intros Hcmp Hx Hy Hlt.
  apply (sorted_precedes key); [exact Hcmp|apply sortBy_sorted, Hcmp| | |exact Hlt];
    apply sortBy_In; assumption.
Qed.

End Engine.

(** ** Small vaults and hosts *)

(** Three documents in the order in which the store might enumerate them. *)
Definition sections : list TAbstractFile :=
  [TFile "Section 10.md" "Section 10" "md" "";
   TFile "Section 1.md" "Section 1" "md" "";
   TFile "Section 2.md" "Section 2" "md" ""].

(** A host on which no store operation fails. *)
Definition reliable : nat -> Op -> HostEvent := fun _ _ => Normal.

(** A host on which the first store operation fails with an I/O error. *)
Definition failsFirst : nat -> Op -> HostEvent :=
  fun n _ => match n with O => IOError | S _ => Normal end.

Definition run (host : nat -> Op -> HostEvent) (settings : gmap string string)
    (v : Vault) : Vault * Result unit :=
  initializeStructure host Collation.localeCompare settings v.

(** Folder [A] holds [B], which holds [C] and its note. *)
Definition nested : Vault :=
  mkVault [TFolder "A" [TFolder "B" [TFolder "C" [TFile "n.md" "n" "md" ""]]]] [].

(** An excluded first-level folder that holds a folder. *)
Definition templated : Vault :=
  mkVault [TFolder "Templates" [TFolder "x" []]] [].

Definition single : Vault := mkVault [TFolder "A" []] [].

(** The settings with the root index named [A/A]. *)
Definition clashing : gmap string string :=
  loadSettings (Some (<["navigationFileName" := "A/A"]> ∅)).

(** The vault of [single] once its root index document exists. *)
Definition indexed : Vault :=
  mkVault [TFolder "A" []; TFile "Navigation.md" "Navigation" "md" "#Navigation"] [].

(** The scenario of the specification: the root holds [Projects] and the
    excluded [Templates]; [Projects] holds the empty [Alpha] and a note. *)
Definition scenario : Vault :=
  mkVault
    [TFolder "Projects" [TFolder "Alpha" []; TFile "Notes.md" "Notes" "md" "hello"];
     TFolder "Templates" [TFolder "x" []]] [].

(** Folders whose names differ in case, and one that holds [sections]. *)
Definition shelved : Vault :=
  mkVault [TFolder "beta" []; TFolder "Doc" sections; TFolder "Alpha" []] [].

(** The settings with the root index named [Templates/Templates]. *)
Definition misplaced : gmap string string :=
  loadSettings (Some (<["navigationFileName" := "Templates/Templates"]> ∅)).

(** ** Saving the settings and starting the plugin (lines 13-34, 199-213) *)

(** Modelled from the spec: "Load/persist a Configuration mapping across
    restarts (opaque key-value persistence)".  The host's [saveData]
    persists the object it is given, and the next [loadData] answers it. *)
Definition saveData (settings : gmap string string) : option (gmap string string) :=
  Some settings.

(** [this.plugin.settings.excludedFolders = value], line 203. *)
Definition setExcludedFolders (value : string) (settings : gmap string string)
    : gmap string string :=
  <["excludedFolders" := value]> settings.

(** [this.plugin.settings.navigationFileName = value], line 212. *)
Definition setNavigationFileName (value : string) (settings : gmap string string)
    : gmap string string :=
  <["navigationFileName" := value]> settings.

(** [saveSettings] (lines 31-34): what is persisted.  The pass that it
    requests next is [initializeStructure] under the same settings. *)
Definition saveSettings (settings : gmap string string) : option (gmap string string) :=
  saveData settings.

(** [onload] (lines 13-25): the settings are loaded, then a pass runs under
    them.  The setting tab and the subscriptions to the store's events
    issue no store operation of their own; they request later passes. *)
Definition onload (host : nat -> Op -> HostEvent)
    (localeCompare : CollatorOptions -> string -> string -> Z)
    (loadData : option (gmap string string)) : M unit :=
  initializeStructure host localeCompare (loadSettings loadData).

(** ** Settings *)

Lemma loadSettings_Some (d : gmap string string) :
  loadSettings (Some d) = d ∪ (DEFAULT_SETTINGS ∪ ∅).
Proof. reflexivity. Qed.

Lemma loadSettings_lookup_absent (d : gmap string string) (k : string) :
  d !! k = None -> loadSettings (Some d) !! k = DEFAULT_SETTINGS !! k.
Proof.
  intros Hk. rewrite loadSettings_Some, lookup_union, Hk.
  rewrite (right_id_L ∅ (∪) DEFAULT_SETTINGS). apply (left_id_L None _).
Qed.

(** C10.  With nothing persisted, or for a key that the persisted mapping
    lacks, the loaded settings carry the defaults: the exclusion list
    ["Templates, Attachments, .trash"] and the root index base name
    ["Navigation"].  So by default the folders Templates, Attachments and
    .trash are excluded, and the root index document is Navigation.md. *)
Theorem loadSettings_defaults :
  (excludedFolders (loadSettings None) = "Templates, Attachments, .trash"
   /\ navigationFileName (loadSettings None) = "Navigation")
  /\ (forall d : gmap string string,
        d !! "excludedFolders" = None ->
        excludedFolders (loadSettings (Some d)) = "Templates, Attachments, .trash")
  /\ (forall d : gmap string string,
        d !! "navigationFileName" = None ->
        navigationFileName (loadSettings (Some d)) = "Navigation")
  /\ getExcludedFolders (loadSettings None) = ["Templates"; "Attachments"; ".trash"]
  /\ (forall n cs, In n ["Templates"; "Attachments"; ".trash"] ->
        keptFolder (loadSettings None) (TFolder n cs) = false)
  /\ navigationFileName (loadSettings None) +:+ ".md" = "Navigation.md".
Proof.
  split; [split; vm_compute; reflexivity|].
  split.
  { intros d Hd. unfold excludedFolders.
    rewrite lookup_total_alt, (loadSettings_lookup_absent d _ Hd).
    vm_compute. reflexivity. }
  split.
  { intros d Hd. unfold navigationFileName.
    rewrite lookup_total_alt, (loadSettings_lookup_absent d _ Hd).
    vm_compute. reflexivity. }
  split; [vm_compute; reflexivity|].
  split; [|vm_compute; reflexivity].
  intros n cs Hn. simpl in Hn.
  destruct Hn as [<-|[<-|[<-|[]]]]; vm_compute; reflexivity.
Qed.

Lemma loadSettings_defaults_witness :
  let d : gmap string string := <["navigationFileName" := "Index"]> ∅ in
  d !! "excludedFolders" = None
  /\ excludedFolders (loadSettings (Some d)) = "Templates, Attachments, .trash".
Proof.
  split; [vm_compute; reflexivity|].
  apply (proj1 (proj2 loadSettings_defaults)). vm_compute. reflexivity.
Defined.

(** ** Sorted listings *)

Lemma lexCompare_antisym (l1 l2 : list N) :
  Collation.lexCompare l2 l1 = CompOpp (Collation.lexCompare l1 l2).
Proof.
  revert l2. induction l1 as [|x l1 IH]; intros [|y l2]; simpl; try reflexivity.
  rewrite (N.compare_antisym x y).
  destruct (N.compare x y); simpl; [apply IH| |]; reflexivity.
Qed.

Lemma lexCompare_trans (l1 l2 l3 : list N) :
  Collation.lexCompare l1 l2 <> Gt -> Collation.lexCompare l2 l3 <> Gt ->
  Collation.lexCompare l1 l3 <> Gt.
Proof.
  revert l2 l3.
  induction l1 as [|x l1 IH]; intros [|y l2] [|z l3]; simpl; try congruence.
  destruct (N.compare_spec x y) as [->|Hxy|Hxy]; [| |congruence].
  - destruct (N.compare y z); [apply IH| |]; congruence.
  - destruct (N.compare_spec y z) as [->|Hyz|Hyz]; [| |congruence]; intros _ _.
    + apply N.compare_lt_iff in Hxy. rewrite Hxy. congruence.
    + assert (Hxz : (x < z)%N) by lia.
      apply N.compare_lt_iff in Hxz. rewrite Hxz. congruence.
Qed.

Lemma numericCompare_total (a b : string) :
  (0 < Collation.numericCompare a b)%Z -> (Collation.numericCompare b a <= 0)%Z.
Proof.
  unfold Collation.numericCompare.
  set (ka := Collation.collationKey a None).
  set (kb := Collation.collationKey b None).
  rewrite (lexCompare_antisym ka kb).
  destruct (Collation.lexCompare ka kb); simpl; lia.
Qed.

Lemma numericCompare_trans (a b c : string) :
  (Collation.numericCompare a b <= 0)%Z -> (Collation.numericCompare b c <= 0)%Z ->
  (Collation.numericCompare a c <= 0)%Z.
Proof.
  unfold Collation.numericCompare. intros Hab Hbc.
  set (ka := Collation.collationKey a None) in *.
  set (kb := Collation.collationKey b None) in *.
  set (kc := Collation.collationKey c None) in *.
  pose proof (lexCompare_trans ka kb kc) as H.
  destruct (Collation.lexCompare ka kb); destruct (Collation.lexCompare kb kc);
    destruct (Collation.lexCompare ka kc);
    try lia; exfalso; apply H; congruence.
Qed.

Lemma numericCompare_totalPreorder : totalPreorder Collation.localeCompare.
Proof.
  split.
  - apply numericCompare_total.
  - apply numericCompare_trans.
Qed.

(** C5.  In every listing the sub-folders are sorted on their name and the
    documents on the name under which they are listed, their base name, by
    the host's collation called with the option [numeric: true]: when
    that collation is a total preorder each list is in order and holds
    exactly the kept children, and an entry that the collation puts
    strictly before another one is listed before it.  The text that the
    root step, the step of a first-level folder and the step of a deep
    folder reconcile is the heading followed by the entries of those
    sorted lists, in their order.  With a host collation that compares
    letters without their case and, under [numeric: true], runs of digits
    as numbers, a pass on a vault whose folder [Doc] holds the documents
    "Section 10", "Section 1", "Section 2" creates the index of [Doc] with
    the entries in the order 1, 2, 10, and the root index with the folders
    [Alpha], [beta], [Doc] in that order. *)
Theorem listings_sorted :
  (forall cmp settings,
      totalPreorder cmp ->
      forall cs navName,
        StronglySorted (byKey cmp name) (rootFolders cmp settings cs)
        /\ StronglySorted (byKey cmp name) (subFolders cmp settings cs)
        /\ StronglySorted (byKey cmp basename) (mdFiles cmp navName cs)
        /\ Permutation (rootFolders cmp settings cs) (List.filter (keptFolder settings) cs)
        /\ Permutation (subFolders cmp settings cs) (List.filter (keptFolder settings) cs)
        /\ Permutation (mdFiles cmp navName cs) (List.filter (keptFile navName) cs))
  /\ (forall cmp settings,
        totalPreorder cmp ->
        forall cs navName x y,
          (In x (List.filter (keptFolder settings) cs) ->
           In y (List.filter (keptFolder settings) cs) ->
           (0 < cmp {| numeric := true |} (name y) (name x))%Z ->
           precedes x y (rootFolders cmp settings cs)
           /\ precedes x y (subFolders cmp settings cs))
          /\ (In x (List.filter (keptFile navName) cs) ->
              In y (List.filter (keptFile navName) cs) ->
              (0 < cmp {| numeric := true |} (basename y) (basename x))%Z ->
              precedes x y (mdFiles cmp navName cs)))
  /\ (forall cmp settings n cs ex level,
        buildRecursiveContent cmp settings (TFolder n cs) ex level
        = flat_map (fun sub => subLine level sub
                                 :: buildRecursiveContent cmp settings sub ex (S level))
            (subFolders cmp settings cs)
          ++ map (fileLine level) (mdFiles cmp ex cs))
  /\ (forall host cmp settings v,
        updateOrCreateRootNavigation host cmp settings v
        = rootBlock host settings v
            (("#" +:+ navigationFileName settings +:+ Str.nl +:+ Str.nl)
             +:+ linesOf (folderLink [])
                   (rootFolders cmp settings (rootChildren v))))
  /\ (forall host cmp settings a v,
        Str.includes (getExcludedFolders settings) a = false ->
        updateOrCreateLevel2Navigation host cmp settings [a] v
        = firstLevelBlock host cmp settings a v
            ((("#Navigation for " +:+ a +:+ Str.nl +:+ Str.nl)
              +:+ linesOf (folderLink [a])
                    (subFolders cmp settings
                       (default [] (childrenAt [a] (rootChildren v)))))
             +:+ linesOf fileLink
                   (mdFiles cmp (a +:+ ".md")
                      (default [] (childrenAt [a] (rootChildren v))))))
  /\ (forall host cmp settings r v cs,
        childrenAt r (rootChildren v) = Some cs ->
        Str.includes (getExcludedFolders settings) (refName r) = false ->
        updateOrCreateLevel3Navigation host cmp settings r v
        = deepBlock host r v
            (level3Content (refName r)
               (flat_map (fun sub => subLine 0 sub
                                       :: buildRecursiveContent cmp settings sub
                                            (refName r +:+ ".md") 1)
                  (subFolders cmp settings cs)
                ++ map (fileLine 0) (mdFiles cmp (refName r +:+ ".md") cs))))
  /\ map callOp (calls (fst (run reliable (loadSettings None) shelved)))
     = [OpCreate "Navigation.md"
          ("#Navigation" +:+ Str.nl +:+ Str.nl
           +:+ "- [[Alpha/Alpha|Alpha]]" +:+ Str.nl
           +:+ "- [[beta/beta|beta]]" +:+ Str.nl
           +:+ "- [[Doc/Doc|Doc]]" +:+ Str.nl);
        OpCreate "beta/beta.md" ("#Navigation for beta" +:+ Str.nl +:+ Str.nl);
        OpCreate "Doc/Doc.md"
          ("#Navigation for Doc" +:+ Str.nl +:+ Str.nl
           +:+ "- [[Section 1]]" +:+ Str.nl
           +:+ "- [[Section 2]]" +:+ Str.nl
           +:+ "- [[Section 10]]" +:+ Str.nl);
        OpCreate "Alpha/Alpha.md" ("#Navigation for Alpha" +:+ Str.nl +:+ Str.nl)]
  /\ buildRecursiveContent Collation.localeCompare (loadSettings None)
       (TFolder "Doc" sections) "Doc.md" 0
     = ["- [[Section 1]]"; "- [[Section 2]]"; "- [[Section 10]]"].
Proof.
  split.
  { intros cmp settings Hcmp cs navName.
    unfold rootFolders, subFolders, mdFiles.
    repeat split; try (apply sortBy_sorted; exact Hcmp); apply sortBy_Permutation. }
  split.
  { intros cmp settings Hcmp cs navName x y. split.
    - intros Hx Hy Hlt. unfold rootFolders, subFolders.
      split; apply sortBy_precedes; assumption.
    - intros Hx Hy Hlt. unfold mdFiles. apply sortBy_precedes; assumption. }
  split; [intros; apply buildRecursiveContent_eq|].
  split.
  { intros host cmp settings v. apply updateOrCreateRootNavigation_block.
    symmetry. apply rootMd_lines. }
  split.
  { intros host cmp settings a v Hex.
    apply (updateOrCreateLevel2Navigation_block host cmp settings a v _ Hex).
    symmetry. apply level2Md_lines. }
  split.
  { intros host cmp settings r v cs Hcs Hex.
    apply (updateOrCreateLevel3Navigation_block host cmp settings r v cs _ Hcs Hex).
    unfold deepContent. f_equal. symmetry. apply buildRecursiveContent_eq. }
  split; vm_compute; reflexivity.
Qed.

Lemma listings_sorted_witness :
  totalPreorder Collation.localeCompare
  /\ StronglySorted (byKey Collation.localeCompare basename)
       (mdFiles Collation.localeCompare "Doc.md" sections).
Proof.
  split; [exact numericCompare_totalPreorder|].
  apply (proj1 listings_sorted Collation.localeCompare (loadSettings None)
           numericCompare_totalPreorder sections "Doc.md").
Defined.

(** Without the option [numeric: true] the same collation lists the three
    documents in the order 1, 10, 2. *)
Example numeric_option_matters :
  map basename
    (mdFiles (fun _ => Collation.localeCompare {| numeric := false |})
       "Doc.md" sections)
  = ["Section 1"; "Section 10"; "Section 2"].
Proof. vm_compute. reflexivity. Qed.

(** ** Runs of the engine on small vaults *)

Lemma okSince_of_forallb (v v' : Vault) :
  firstn (length (calls v)) (calls v') = calls v ->
  forallb callOk (skipn (length (calls v)) (calls v')) = true ->
  okSince v v'.
Proof.
  intros Hpre Hok. exists (skipn (length (calls v)) (calls v')). split.
  - pose proof (List.firstn_skipn (length (calls v)) (calls v')) as E.
    rewrite Hpre in E. symmetry. exact E.
  - apply List.Forall_forall. rewrite forallb_forall in Hok. exact Hok.
Qed.

(** C1, as stated, fails: after a pass on which every store operation
    succeeds, the folder [C] at depth three, which is not excluded, has no
    index document and no store operation was on the path of one; and the
    folder [x] at depth two, not excluded, below the excluded [Templates]
    has none either. *)
Lemma no_index_document_at_depth_three :
  let v' := fst (run reliable (loadSettings None) nested) in
  let w' := fst (run reliable (loadSettings None) templated) in
  forallb callOk (calls v') = true
  /\ childrenAt ["A"; "B"; "C"] (rootChildren v') = Some [TFile "n.md" "n" "md" ""]
  /\ Str.includes (getExcludedFolders (loadSettings None)) "C" = false
  /\ lookupSegs ["A"; "B"; "C"; "C.md"] (rootChildren v') = None
  /\ map (fun c => opPath (callOp c)) (calls v')
     = ["Navigation.md"; "A/B/B.md"; "A/A.md"]
  /\ forallb callOk (calls w') = true
  /\ childrenAt ["Templates"; "x"] (rootChildren w') = Some []
  /\ Str.includes (getExcludedFolders (loadSettings None)) "x" = false
  /\ lookupSegs ["Templates"; "x"; "x.md"] (rootChildren w') = None.
Proof. vm_compute. repeat split; reflexivity. Qed.

(** C2, as stated, fails.  With the root index named [A/A] the root step
    and the step of the folder [A] write the same document in turn, in the
    second pass as in the first.  And after a first pass on which the
    creation of the root index document failed, the second pass creates
    it. *)
Lemma second_pass_writes_again :
  (let v1 := fst (run reliable clashing single) in
   let v2 := fst (run reliable clashing v1) in
   forallb callOk (calls v1) = true
   /\ map (fun c => isWrite (callOp c)) (skipn (length (calls v1)) (calls v2))
      = [false; true; false; true])
  /\ (let v1 := fst (run failsFirst (loadSettings None) single) in
      let v2 := fst (run failsFirst (loadSettings None) v1) in
      snd (run failsFirst (loadSettings None) single) = Ok tt
      /\ map (fun c => (opPath (callOp c), isWrite (callOp c)))
           (skipn (length (calls v1)) (calls v2))
         = [("Navigation.md", true); ("A/A.md", false)]).
Proof. vm_compute. repeat split; reflexivity. Qed.

Lemma second_pass_writes_nothing_witness :
  let v1 := fst (run reliable (loadSettings None) nested) in
  let v2 := fst (run reliable (loadSettings None) v1) in
  rootChildren v2 = rootChildren v1
  /\ exists l, calls v2 = calls v1 ++ l
               /\ Forall (fun c => isWrite (callOp c) = false) l.
Proof.
  intros v1 v2.
  apply (second_pass_writes_nothing reliable Collation.localeCompare
           (loadSettings None) nested v1
           (snd (run reliable (loadSettings None) nested)) v2
           (snd (run reliable (loadSettings None) v1))).
  - vm_compute. reflexivity.
  - vm_compute. reflexivity.
  - apply surjective_pairing.
  - apply okSince_of_forallb; vm_compute; reflexivity.
  - apply surjective_pairing.
Defined.

(** C7, as stated, fails: the creation of the root index document fails
    with an I/O error, and the pass goes on to the folder [A] and ends
    normally. *)
Lemma create_error_does_not_abort :
  snd (create failsFirst "Navigation.md"
         (rootMd Collation.localeCompare (loadSettings None) (rootChildren single))
         single)
  = Throw EIO
  /\ snd (run failsFirst (loadSettings None) single) = Ok tt
  /\ map (fun c => (opPath (callOp c), callOk c))
       (calls (fst (run failsFirst (loadSettings None) single)))
     = [("Navigation.md", false); ("A/A.md", true)].
Proof. vm_compute. repeat split; reflexivity. Qed.

Lemma reconcile_spec_witness :
  let md := "#Navigation" +:+ Str.nl +:+ Str.nl in
  let f := TFile "Navigation.md" "Navigation" "md" "#Navigation" in
  let v1 := fst (read reliable "Navigation.md" indexed) in
  read reliable "Navigation.md" indexed = (v1, Ok "#Navigation")
  /\ Str.trim "#Navigation" = Str.trim md
  /\ reconcile reliable (Some f) "Navigation.md" md indexed = (v1, Ok tt).
Proof.
  intros md f v1.
  assert (Hr : read reliable "Navigation.md" indexed = (v1, Ok "#Navigation"))
    by (vm_compute; reflexivity).
  assert (Ht : Str.trim "#Navigation" = Str.trim md) by (vm_compute; reflexivity).
  split; [exact Hr|]. split; [exact Ht|].
  pose proof (reconcile_spec reliable "Navigation.md" md indexed)
    as (_ & _ & _ & _ & Hpresent).
  apply (proj1 (Hpresent f v1 "#Navigation" Hr) Ht).
Defined.

Example scenario_pass :
  map callOp (calls (fst (run reliable (loadSettings None) scenario)))
  = [OpCreate "Navigation.md"
       ("#Navigation" +:+ Str.nl +:+ Str.nl
        +:+ "- [[Projects/Projects|Projects]]" +:+ Str.nl);
     OpCreate "Projects/Alpha/Alpha.md"
       ("#Navigation for Alpha" +:+ Str.nl +:+ Str.nl +:+ Str.nl);
     OpCreate "Projects/Projects.md"
       ("#Navigation for Projects" +:+ Str.nl +:+ Str.nl
        +:+ "- [[Projects/Alpha/Alpha|Alpha]]" +:+ Str.nl
        +:+ "- [[Notes]]" +:+ Str.nl)].
Proof. vm_compute. reflexivity. Qed.

(** A creation that loses a race: the host answers that another writer has
    just created the document; the step fetches it and overwrites it. *)
Example race_recovered :
  let raced := fun (n : nat) (_ : Op) =>
                 match n with O => Raced "theirs" | S _ => Normal end in
  let r := updateOrCreateRootNavigation raced Collation.localeCompare
             (loadSettings None) single in
  snd r = Ok tt
  /\ map (fun c => (isWrite (callOp c), callOk c)) (calls (fst r))
     = [(true, false); (true, true)]
  /\ fileAt ["Navigation.md"] (rootChildren (fst r))
     = Some ("#Navigation" +:+ Str.nl +:+ Str.nl +:+ "- [[A/A|A]]" +:+ Str.nl).
Proof. vm_compute. repeat split; reflexivity. Qed.

Lemma emptyContainer_no_lines_witness :
  let v := mkVault [TFolder "Projects" [TFolder "Alpha" []]] [] in
  let r := updateOrCreateLevel3Navigation reliable Collation.localeCompare
             (loadSettings None) ["Projects"; "Alpha"] v in
  fileAt ["Projects"; "Alpha"; "Alpha.md"] (rootChildren (fst r))
  = Some ("#Navigation for Alpha" +:+ Str.nl +:+ Str.nl +:+ Str.nl).
Proof.
  intros v r.
  pose proof (emptyContainer_no_lines reliable Collation.localeCompare
                (loadSettings None)) as (_ & _ & _ & _ & H).
  apply (H ["Projects"; "Alpha"] v (fst r) (snd r)).
  - discriminate.
  - vm_compute. reflexivity.
  - vm_compute. reflexivity.
  - vm_compute. reflexivity.
  - apply surjective_pairing.
  - apply okSince_of_forallb; vm_compute; reflexivity.
Defined.

Lemma second_level_index_documents_witness :
  let v' := fst (run reliable (loadSettings None) nested) in
  let cs := [TFolder "C" [TFile "n.md" "n" "md" ""];
             TFile "B.md" "B" "md"
               ("#Navigation for B" +:+ Str.nl +:+ Str.nl +:+ "- **C**" +:+ Str.nl
                +:+ "  - [[n]]" +:+ Str.nl)] in
  (exists bn e d,
      lookupSegs ["A"; "B"; "B.md"] (rootChildren v') = Some (TFile "B.md" bn e d)
      /\ Str.trim d
         = Str.trim ("#Navigation for B" +:+ Str.nl +:+ Str.nl
                     +:+ Str.join Str.nl
                           (buildRecursiveContent Collation.localeCompare
                              (loadSettings None) (TFolder "B" cs) "B.md" 0)
                     +:+ Str.nl))
  /\ (exists l, calls v' = calls nested ++ l
                /\ Forall (fun c => parsePath (opPath (callOp c))
                                    <> ["A"; "B"; "C"; "C.md"]) l)
  /\ kindOf (lookupSegs ["A"; "B"; "C"; "C.md"] (rootChildren v'))
     = kindOf (lookupSegs ["A"; "B"; "C"; "C.md"] (rootChildren nested)).
Proof.
  intros v' cs.
  pose proof (second_level_index_documents reliable Collation.localeCompare
                (loadSettings None)) as (H1 & _ & H3).
  split.
  - apply (H1 nested v' (snd (run reliable (loadSettings None) nested)) "A" "B" cs).
    + vm_compute. reflexivity.
    + apply surjective_pairing.
    + apply okSince_of_forallb; vm_compute; reflexivity.
    + vm_compute. reflexivity.
    + vm_compute. reflexivity.
    + vm_compute. reflexivity.
  - apply (H3 nested v' (snd (run reliable (loadSettings None) nested))
             ["A"; "B"; "C"]).
    + vm_compute. reflexivity.
    + apply surjective_pairing.
    + simpl. lia.
    + vm_compute. discriminate.
Defined.

Lemma store_errors_propagate_witness :
  exists v',
    run failsFirst (loadSettings None) indexed = (v', Throw EIO)
    /\ callsOn (eq "Navigation.md") indexed v'.
Proof.
  pose proof (store_errors_propagate failsFirst Collation.localeCompare
                (loadSettings None)) as (_ & _ & _ & _ & Hroot & _).
  apply (Hroot indexed EIO).
  left. exists (fst (read failsFirst "Navigation.md" indexed)).
  vm_compute. reflexivity.
Defined.

(** C3, as stated, fails.  With the root index named [Templates/Templates]
    a pass creates the document [Templates/Templates.md], at the path of
    the index document of the excluded folder [Templates]. *)
Lemma root_index_in_excluded_folder :
  let v' := fst (run reliable misplaced templated) in
  Str.includes (getExcludedFolders misplaced) "Templates" = true
  /\ lookupSegs ["Templates"; "Templates.md"] (rootChildren templated) = None
  /\ map callOp (calls v')
     = [OpCreate "Templates/Templates.md"
          ("#Templates/Templates" +:+ Str.nl +:+ Str.nl)]
  /\ forallb callOk (calls v') = true
  /\ lookupSegs ["Templates"; "Templates.md"] (rootChildren v')
     = Some (TFile "Templates.md" "Templates" "md"
               ("#Templates/Templates" +:+ Str.nl +:+ Str.nl)).
Proof. vm_compute. repeat split; reflexivity. Qed.

Lemma excluded_containers_skipped_witness :
  (Str.includes (getExcludedFolders (loadSettings None)) "Templates" = true
   /\ updateOrCreateLevel2Navigation reliable Collation.localeCompare
        (loadSettings None) ["Templates"] templated = (templated, Ok tt))
  /\ kindOf (lookupSegs ["Templates"; "x"; "x.md"]
               (rootChildren (fst (run reliable (loadSettings None) templated))))
     = kindOf (lookupSegs ["Templates"; "x"; "x.md"] (rootChildren templated)).
Proof.
  assert (Hex : Str.includes (getExcludedFolders (loadSettings None)) "Templates" = true)
    by (vm_compute; reflexivity).
  pose proof (excluded_containers_skipped reliable Collation.localeCompare
                (loadSettings None)) as (H1 & _ & _ & _ & H5 & _).
  split; [split; [exact Hex|apply (H1 "Templates" templated Hex)]|].
  apply (H5 templated _ (snd (run reliable (loadSettings None) templated))
           ["Templates"; "x"]).
  - vm_compute. reflexivity.
  - apply surjective_pairing.
  - exists "Templates". split; [left; reflexivity|exact Hex].
  - vm_compute. discriminate.
Defined.

(** C4, as stated, fails.  With the root index named [A/A] the root step
    creates [A/A.md] with a link whose target is that very document. *)
Lemma root_index_links_to_itself :
  map callOp
    (calls (fst (updateOrCreateRootNavigation reliable Collation.localeCompare
                   clashing single)))
  = [OpCreate "A/A.md"
       ("#A/A" +:+ Str.nl +:+ Str.nl +:+ "- [[A/A|A]]" +:+ Str.nl)]
  /\ folderLink [] (TFolder "A" [])
     = "- [[" +:+ folderTarget [] (TFolder "A" []) +:+ "|A]]" +:+ Str.nl
  /\ folderTarget [] (TFolder "A" []) = "A/A"
  /\ parsePath (folderTarget [] (TFolder "A" []) +:+ ".md") = rootPath clashing.
Proof. vm_compute. repeat split; reflexivity. Qed.

Lemma index_document_never_lists_itself_witness :
  let t := [TFolder "A" [TFile "n.md" "n" "md" ""]] in
  let t' := [TFolder "A" [TFile "n.md" "n" "md" ""; TFile "A.md" "A" "md" "x"]] in
  level2Md Collation.localeCompare (loadSettings None) ["A"] "A" "A.md"
    (default [] (childrenAt ["A"] t'))
  = level2Md Collation.localeCompare (loadSettings None) ["A"] "A" "A.md"
      (default [] (childrenAt ["A"] t)).
Proof.
  intros t t'.
  pose proof (index_document_never_lists_itself reliable Collation.localeCompare
                (loadSettings None)) as (_ & _ & _ & _ & _ & _ & _ & _ & H & _).
  apply (H "A" t t').
  apply (touched_write _ _ _ "x" (createIn "x")).
  - apply createIn_fileLocal.
  - apply createIn_editsFile.
  - vm_compute. reflexivity.
Defined.

(** ** More on the settings *)

Lemma loadSettings_None : loadSettings None = DEFAULT_SETTINGS ∪ ∅.
Proof. reflexivity. Qed.

Lemma loadSettings_lookup_present (d : gmap string string) (k x : string) :
  d !! k = Some x -> loadSettings (Some d) !! k = Some x.
Proof.
  intros Hk. rewrite loadSettings_Some. apply lookup_union_Some_l. exact Hk.
Qed.

Lemma loadSettings_idem (d : option (gmap string string)) :
  loadSettings (Some (loadSettings d)) = loadSettings d.
Proof.
  rewrite loadSettings_Some. destruct d as [d|].
  - rewrite loadSettings_Some, <- (assoc_L (∪)), (idemp_L (∪)). reflexivity.
  - rewrite loadSettings_None. apply (idemp_L (∪)).
Qed.

(** X13.  Saving and loading the settings.  A key that the persisted
    mapping holds overrides the default, and keys that the plugin does not
    know are kept.  Loading what has been saved from loaded settings gives
    the same settings.  A value typed in the setting tab and saved is the
    one in force after the next load, and the other setting is the one
    that would be loaded without the edit. *)
Theorem settings_round_trip :
  (forall (d : gmap string string) k x,
      d !! k = Some x -> loadSettings (Some d) !! k = Some x)
  /\ (forall d, loadSettings (saveSettings (loadSettings d)) = loadSettings d)
  /\ (forall value s,
        excludedFolders (loadSettings (saveSettings (setExcludedFolders value s)))
        = value
        /\ navigationFileName (loadSettings (saveSettings (setExcludedFolders value s)))
           = navigationFileName (loadSettings (saveSettings s)))
  /\ (forall value s,
        navigationFileName
          (loadSettings (saveSettings (setNavigationFileName value s)))
        = value
        /\ excludedFolders
             (loadSettings (saveSettings (setNavigationFileName value s)))
           = excludedFolders (loadSettings (saveSettings s))).
Proof.
  split; [apply loadSettings_lookup_present|].
  split; [apply loadSettings_idem|].
  unfold saveSettings, saveData, setExcludedFolders, setNavigationFileName,
    excludedFolders, navigationFileName.
  split; intros value s; split.
  - rewrite lookup_total_alt,
      (loadSettings_lookup_present _ "excludedFolders" value (lookup_insert_eq _ _ _)).
    reflexivity.
  - rewrite !lookup_total_alt, !loadSettings_Some, !lookup_union.
    rewrite lookup_insert_ne by discriminate. reflexivity.
  - rewrite lookup_total_alt,
      (loadSettings_lookup_present _ "navigationFileName" value (lookup_insert_eq _ _ _)).
    reflexivity.
  - rewrite !lookup_total_alt, !loadSettings_Some, !lookup_union.
    rewrite lookup_insert_ne by discriminate. reflexivity.
Qed.

(** X14.  Starting the plugin twice.  When the root name in force holds
    no slash (the default does not), no folder name of the vault holds a
    slash, and every store operation of the first start succeeded, a
    second start under the same persisted settings creates and overwrites
    nothing: it only reads, and leaves the vault as it is. *)
Theorem onload_twice host cmp d v v1 r1 v2 r2 :
  Str.noSlash (navigationFileName (loadSettings d)) = true ->
  wfTree (rootChildren v) = true ->
  onload host cmp d v = (v1, r1) ->
  okSince v v1 ->
  onload host cmp d v1 = (v2, r2) ->
  r1 = Ok tt /\ readsOnly v1 v2.
Proof.
  unfold onload. intros Hn Hwf H1 Hok H2.
  destruct (initializeStructure_ok host cmp _ v v1 r1 Hwf H1 Hok)
    as (Hres & Hwf1 & Hall & Hset).
  split; [exact Hres|].
  eapply initializeStructure_settled; [exact Hwf1| |exact H2].
  split; [|exact Hall].
  apply Hset. apply (rootPath_noSlash _ Hn).
Qed.

(** ** The further properties on small vaults *)

(** Folder [A] holds a picture. *)
Definition pictured : Vault :=
  mkVault [TFolder "A" [TFile "pic.png" "pic" "png" "data"]] [].

(** The root index document, padded with whitespace. *)
Definition padded : Vault :=
  mkVault [TFile "Navigation.md" "Navigation" "md"
             (" " +:+ "#Navigation" +:+ Str.nl)] [].

(** The settings with a blank exclusion list. *)
Definition blank : gmap string string :=
  loadSettings (Some (<["excludedFolders" := " , "]> ∅)).

Lemma excluded_names_witness :
  Str.includes (getExcludedFolders (loadSettings None)) "Templates" = true
  /\ "Templates" <> ""
  /\ Str.trim "Templates" = "Templates"
  /\ noComma "Templates" = true.
Proof.
  assert (Hex : Str.includes (getExcludedFolders (loadSettings None)) "Templates" = true)
    by (vm_compute; reflexivity).
  split; [exact Hex|].
  apply (proj2 (excluded_names (loadSettings None)) "Templates" Hex).
Defined.

Lemma blank_setting_excludes_nothing_witness :
  getExcludedFolders blank = []
  /\ forall n cs, keptFolder blank (TFolder n cs) = true.
Proof.
  apply (blank_setting_excludes_nothing blank). vm_compute. reflexivity.
Defined.

Lemma reconcile_outcome_witness :
  let r := reconcile reliable None "Navigation.md" "x" single in
  exists l, calls (fst r) = calls single ++ l
            /\ length l <= 2
            /\ Forall (fun c => opPath (callOp c) = "Navigation.md"
                                /\ (writtenData (callOp c) = None
                                    \/ writtenData (callOp c) = Some "x")) l.
Proof.
  intros r.
  apply (proj1 (reconcile_outcome reliable None "Navigation.md" "x" single
                  (fst r) (snd r) (surjective_pairing r))).
Defined.

Lemma reconcile_ignores_padding_witness :
  let f := TFile "Navigation.md" "Navigation" "md" (" " +:+ "#Navigation" +:+ Str.nl) in
  let r := reconcile reliable (Some f) "Navigation.md" "#Navigation" padded in
  rootChildren (fst r) = rootChildren padded
  /\ exists ok, calls (fst r) = calls padded ++ [mkCall (OpRead "Navigation.md") ok].
Proof.
  intros f r.
  apply (reconcile_ignores_padding reliable f "Navigation.md" "#Navigation"
           " " Str.nl "Navigation.md" "Navigation" "md" padded (fst r) (snd r)).
  - vm_compute. reflexivity.
  - vm_compute. reflexivity.
  - vm_compute. reflexivity.
  - apply surjective_pairing.
Defined.

Lemma root_and_first_level_index_documents_witness :
  let v' := fst (run reliable (loadSettings None) scenario) in
  snd (run reliable (loadSettings None) scenario) = Ok tt
  /\ exists d,
       fileAt ["Navigation.md"] (rootChildren v') = Some d
       /\ Str.trim d
          = Str.trim (rootMd Collation.localeCompare (loadSettings None)
                        (rootChildren v')).
Proof.
  intros v'.
  pose proof (root_and_first_level_index_documents reliable Collation.localeCompare
                (loadSettings None) scenario v'
                (snd (run reliable (loadSettings None) scenario))
                ltac:(vm_compute; reflexivity)
                (surjective_pairing _)
                ltac:(apply okSince_of_forallb; vm_compute; reflexivity))
    as (Hres & _ & Hroot).
  split; [exact Hres|].
  apply Hroot. vm_compute. reflexivity.
Defined.

Lemma no_lines_iff_nothing_listed_witness :
  buildRecursiveContent Collation.localeCompare (loadSettings None)
    (TFolder "A" [TFile "pic.png" "pic" "png" "data"; TFolder "Templates" []])
    "A.md" 0
  = [].
Proof.
  apply (proj2 (no_lines_iff_nothing_listed Collation.localeCompare
                  (loadSettings None) "A" _ "A.md" 0)).
  intros c [<-|[<-|[]]]; vm_compute; split; reflexivity.
Defined.

Lemma settings_round_trip_witness :
  loadSettings (Some (<["excludedFolders" := "Archive"]> ∅)) !! "excludedFolders"
  = Some "Archive".
Proof.
  apply (proj1 settings_round_trip (<["excludedFolders" := "Archive"]> ∅)
           "excludedFolders" "Archive").
  vm_compute. reflexivity.
Defined.

Lemma onload_twice_witness :
  let v1 := fst (onload reliable Collation.localeCompare None nested) in
  let v2 := fst (onload reliable Collation.localeCompare None v1) in
  snd (onload reliable Collation.localeCompare None nested) = Ok tt
  /\ readsOnly v1 v2.
Proof.
  intros v1 v2.
  apply (onload_twice reliable Collation.localeCompare None nested v1
           (snd (onload reliable Collation.localeCompare None nested)) v2
           (snd (onload reliable Collation.localeCompare None v1))).
  - vm_compute. reflexivity.
  - vm_compute. reflexivity.
  - apply surjective_pairing.
  - apply okSince_of_forallb; vm_compute; reflexivity.
  - apply surjective_pairing.
Defined.

Lemma folder_links_point_at_index_documents_witness :
  let v' := fst (run reliable (loadSettings None) nested) in
  exists d,
    fileAt (parsePath (folderTarget ["A"]
                         (TFolder "B" [TFolder "C" [TFile "n.md" "n" "md" ""];
                                       TFile "B.md" "B" "md"
                                         ("#Navigation for B" +:+ Str.nl +:+ Str.nl
                                          +:+ "- **C**" +:+ Str.nl
                                          +:+ "  - [[n]]" +:+ Str.nl)])
                       +:+ ".md"))
      (rootChildren v') = Some d.
Proof.
  intros v'.
  pose proof (folder_links_point_at_index_documents reliable Collation.localeCompare
                (loadSettings None)) as (_ & _ & H).
  destruct (H nested v' (snd (run reliable (loadSettings None) nested))
              ltac:(vm_compute; reflexivity)
              (surjective_pairing _)
              ltac:(apply okSince_of_forallb; vm_compute; reflexivity))
    as [_ H2].
  apply (H2 "A" "B").
  - vm_compute. reflexivity.
  - vm_compute. reflexivity.
  - vm_compute. reflexivity.
Defined.

Lemma pass_starts_at_the_root_witness :
  let v' := fst (run reliable (loadSettings None) single) in
  exists ok rest,
    calls v' = calls single
               ++ mkCall (OpCreate "Navigation.md"
                            (rootMd Collation.localeCompare (loadSettings None)
                               (rootChildren single))) ok :: rest.
Proof.
  intros v'.
  exact (pass_starts_at_the_root reliable Collation.localeCompare
           (loadSettings None) single v'
           (snd (run reliable (loadSettings None) single))
           (surjective_pairing _)).
Defined.

Lemma pass_leaves_the_rest_witness :
  let v' := fst (run reliable (loadSettings None) pictured) in
  let w' := fst (run reliable (loadSettings None) nested) in
  kindOf (lookupSegs ["A"; "pic.png"] (rootChildren v'))
  = kindOf (lookupSegs ["A"; "pic.png"] (rootChildren pictured))
  /\ untouched ["A"; "B"; "C"; "C.md"] nested w'.
Proof.
  intros v' w'. split.
  - pose proof (pass_leaves_the_rest reliable Collation.localeCompare
                  (loadSettings None) pictured v'
                  (snd (run reliable (loadSettings None) pictured))
                  (surjective_pairing _)) as (_ & _ & _ & _ & H).
    apply H. intros x Hx. change (List.last ["A"; "pic.png"] "") with "pic.png" in Hx.
    do 7 (destruct x as [|? x];
          [vm_compute in Hx; discriminate Hx
          |rewrite append_cons in Hx; injection Hx as _ Hx]).
    destruct x; vm_compute in Hx; discriminate Hx.
  - pose proof (pass_leaves_the_rest reliable Collation.localeCompare
                  (loadSettings None) nested w'
                  (snd (run reliable (loadSettings None) nested))
                  (surjective_pairing _)) as (_ & H & _).
    apply H; [vm_compute; reflexivity|].
    intros [E|[(a & _ & E)|(a & b & _ & _ & E)]]; vm_compute in E; discriminate E.
Defined.

Lemma pass_cut_short_only_above_witness :
  failedOn (awaitedTarget (loadSettings None) (rootChildren indexed))
    indexed (fst (run failsFirst (loadSettings None) indexed)).
Proof.
  apply (proj1 (pass_cut_short_only_above failsFirst Collation.localeCompare
                  (loadSettings None) indexed
                  (fst (run failsFirst (loadSettings None) indexed)) EIO
                  ltac:(vm_compute; reflexivity))).
Defined.

Lemma listings_ignore_enumeration_order_witness :
  rootMd Collation.localeCompare (loadSettings None)
    [TFolder "B" []; TFolder "A" []]
  = rootMd Collation.localeCompare (loadSettings None)
      [TFolder "A" []; TFolder "B" []].
Proof.
  apply (proj1 (listings_ignore_enumeration_order reliable Collation.localeCompare
                  (loadSettings None) [TFolder "B" []; TFolder "A" []]
                  [TFolder "A" []; TFolder "B" []]
                  numericCompare_totalPreorder
                  (perm_swap _ _ _)
                  ltac:(intros a b [<-|[<-|[]]] [<-|[<-|[]]]; vm_compute;
                        intros H1 H2; try reflexivity;
                        exfalso; first [apply H1; reflexivity|apply H2; reflexivity]))).
Defined.
